(** * move_lmstudio: relocation of a directory behind a junction

    A shallow embedding of [move_lmstudio.py]: the byte formatter, the
    directory inspector, the bulk copier with its manual fallback, the tree
    remover, the junction manager, and the two front ends ([run_cli] and
    [MoveApp._start]) that sequence them. *)

From Stdlib Require Import ZArith Lia List Bool.
From stdpp Require Import base tactics option list strings pretty.

Set Warnings "-register-all".
Local Open Scope Z_scope.

(** ** Byte formatting *)

Module Fmt.

(** [float(num_bytes)]: the nearest binary64 value, ties to even.  Integers of
    at most 53 bits are kept as they are. *)
Definition float_of_int (n : Z) : Z :=
  let a := Z.abs n in
  let bits := Z.log2 a + 1 in
  if bits <=? 53 then n
  else
    let sh := bits - 53 in
    let q := Z.shiftr a sh in
    let r := Z.land a (Z.ones sh) in
    let half := Z.shiftl 1 (sh - 1) in
    let q' := if (half <? r) || ((r =? half) && Z.odd q) then q + 1 else q in
    Z.sgn n * Z.shiftl q' sh.

(** A float that came from an integer by repeated division by 1024.0 is the
    exact quotient [num / den] with [den] a power of 1024. *)
Record amount := Amount { num : Z; den : Z }.

Definition amount_lt_1024 (a : amount) : bool := num a <? 1024 * den a.
Definition amount_div_1024 (a : amount) : amount := Amount (num a) (1024 * den a).

(** Nearest integer to [p / q] for [0 <= p], [0 < q], ties to even. *)
Definition round_half_even (p q : Z) : Z :=
  let f := p / q in
  let r := p mod q in
  if 2 * r <? q then f
  else if q <? 2 * r then f + 1
  else if Z.even f then f else f + 1.

Definition two_digits (c : Z) : string :=
  if c <? 10 then "0" +:+ pretty c else pretty c.

(** [f"{amount:.2f}"] *)
Definition fmt2 (a : amount) : string :=
  let h := round_half_even (100 * Z.abs (num a)) (den a) in
  (if num a <? 0 then "-" else "") +:+ pretty (h / 100) +:+ "." +:+ two_digits (h mod 100).

Definition units : list string := ["B"; "KB"; "MB"; "GB"; "TB"].

Fixpoint format_loop (us : list string) (a : amount) : string :=
  match us with
  | [] => fmt2 a +:+ " PB"
  | unit :: rest =>
      if amount_lt_1024 a then fmt2 a +:+ " " +:+ unit
      else format_loop rest (amount_div_1024 a)
  end.

Definition format_bytes (num_bytes : Z) : string :=
  format_loop units (Amount (float_of_int num_bytes) 1).

(** The unit index the loop stops at: the number of divisions by 1024. *)
Fixpoint unit_index (fuel : nat) (n d : Z) : nat :=
  match fuel with
  | O => O
  | S k => if n <? 1024 * d then O else S (unit_index k n (1024 * d))
  end.

Definition unit_name (i : nat) : string :=
  nth i (units ++ ["PB"]) "PB".

End Fmt.

Local Close Scope Z_scope.

(** ** The filesystem

    A directory tree.  A path is the list of its components below the root;
    the paths the program works with come out of [Path.resolve()], so they are
    absolute, run through no link, and are looked up component by component:
    a path that runs through a link names nothing here.  A link is either a
    symbolic link or a junction, as [mklink /J] writes one.  Both are followed
    when they are the entry a path names, as [stat] does; [lstat] does not
    follow, and it is only of a symbolic link that it says "link": for a
    junction, [Path.is_symlink()] is false. *)

Module FS.

Definition path := list string.

Inductive link_kind := Symlink | Junction.

Inductive node :=
  | File (data : string)
  | Dir (kids : list (string * node))
  | Link (target : path) (kind : link_kind).

Definition kids_t := list (string * node).

Fixpoint alookup (n : string) (l : kids_t) : option node :=
  match l with
  | [] => None
  | (m, c) :: l' => if String.eqb n m then Some c else alookup n l'
  end.

(** Replace the entry called [n], or add it at the end of the listing. *)
Fixpoint aset (n : string) (v : node) (l : kids_t) : kids_t :=
  match l with
  | [] => [(n, v)]
  | (m, c) :: l' => if String.eqb n m then (m, v) :: l' else (m, c) :: aset n v l'
  end.

Fixpoint adel (n : string) (l : kids_t) : kids_t :=
  match l with
  | [] => []
  | (m, c) :: l' => if String.eqb n m then adel n l' else (m, c) :: adel n l'
  end.

(** [lstat]: the entry at [p], links not followed. *)
Fixpoint find (t : node) (p : path) : option node :=
  match p with
  | [] => Some t
  | n :: q =>
      match t with
      | Dir kids => match alookup n kids with Some c => find c q | None => None end
      | _ => None
      end
  end.

(** Store [v] at [p]; the parent of [p] has to be a directory. *)
Fixpoint put (t : node) (p : path) (v : node) : option node :=
  match p with
  | [] => Some v
  | n :: q =>
      match t with
      | Dir kids =>
          match q with
          | [] => Some (Dir (aset n v kids))
          | _ =>
              match alookup n kids with
              | Some c =>
                  match put c q v with
                  | Some c' => Some (Dir (aset n c' kids))
                  | None => None
                  end
              | None => None
              end
          end
      | _ => None
      end
  end.

(** Unlink the entry at [p]. *)
Fixpoint remove (t : node) (p : path) : option node :=
  match p with
  | [] => None
  | n :: q =>
      match t with
      | Dir kids =>
          match q with
          | [] => match alookup n kids with Some _ => Some (Dir (adel n kids)) | None => None end
          | _ =>
              match alookup n kids with
              | Some c =>
                  match remove c q with
                  | Some c' => Some (Dir (aset n c' kids))
                  | None => None
                  end
              | None => None
              end
          end
      | _ => None
      end
  end.

(** The operating system gives up on a chain of more than this many links. *)
Definition symloop_max : nat := 40.

Fixpoint follow (fuel : nat) (root t : node) : option node :=
  match t with
  | Link tgt _ =>
      match fuel with
      | O => None
      | S k => match find root tgt with Some c => follow k root c | None => None end
      end
  | _ => Some t
  end.

(** [stat]: the entry at [p], links followed; [None] is [OSError]. *)
Definition stat (root : node) (p : path) : option node :=
  match find root p with
  | Some c => follow symloop_max root c
  | None => None
  end.

Definition node_is_dir (root t : node) : bool :=
  match follow symloop_max root t with Some (Dir _) => true | _ => false end.

(** [Path.exists()], [Path.is_dir()], [Path.is_symlink()] *)
Definition exists_ (root : node) (p : path) : bool :=
  match stat root p with Some _ => true | None => false end.

Definition is_dir (root : node) (p : path) : bool :=
  match stat root p with Some (Dir _) => true | _ => false end.

Definition is_symlink (root : node) (p : path) : bool :=
  match find root p with Some (Link _ Symlink) => true | _ => false end.

(** [DirEntry.is_dir()] of an entry found by [os.scandir]: a symbolic link is
    resolved; a junction is not, its directory attribute answers, whether or
    not its target is there. *)
Definition entry_is_dir (root c : node) : bool :=
  match c with
  | Link _ Junction => true
  | _ => node_is_dir root c
  end.

(** [Path.mkdir(parents=True, exist_ok=True)]: missing components are created;
    a component that is there has to be a directory ([None] is the [OSError]
    raised otherwise). *)
Fixpoint mkdir_p_at (root t : node) (p : path) : option node :=
  match p with
  | [] => if node_is_dir root t then Some t else None
  | n :: q =>
      match t with
      | Dir kids =>
          match mkdir_p_at root (default (Dir []) (alookup n kids)) q with
          | Some c' => Some (Dir (aset n c' kids))
          | None => None
          end
      | _ => None
      end
  end.

Definition mkdir_p (root : node) (p : path) : option node := mkdir_p_at root root p.

(** The path of the final file a write through [p] lands on: a symbolic link
    at [p] is followed ([open(p, 'wb')]); [None] when the chain loops, and
    when [p] is a junction, which cannot be opened as a file. *)
Fixpoint write_target (fuel : nat) (root : node) (p : path) : option path :=
  match find root p with
  | Some (Link tgt Symlink) =>
      match fuel with
      | O => None
      | S k => write_target k root tgt
      end
  | Some (Link _ Junction) => None
  | _ => Some p
  end.

(** [p] is [q] or an ancestor of [q]. *)
Fixpoint is_prefix (p q : path) : bool :=
  match p, q with
  | [], _ => true
  | a :: p', b :: q' => String.eqb a b && is_prefix p' q'
  | _ :: _, [] => false
  end.

(** Neither path is at or below the other. *)
Definition apart (p q : path) : bool := negb (is_prefix p q) && negb (is_prefix q p).

(** [b] is the entry [a] still in place: the same file, the same link, or a
    directory where a directory was. *)
Definition same_kind (a b : node) : Prop :=
  match a with
  | File d => b = File d
  | Link x k => b = Link x k
  | Dir _ => exists kids, b = Dir kids
  end.

(** Every entry of [a] at a path in [S] is still in place in [b]. *)
Definition keeps_on (S : path -> Prop) (a b : node) : Prop :=
  forall q c, S q -> find a q = Some c -> exists c', find b q = Some c' /\ same_kind c c'.

Definition keeps (a b : node) : Prop := keeps_on (fun _ => True) a b.

(** [str(path)] *)
Definition path_str (p : path) : string :=
  match p with
  | [] => "/"
  | _ => fold_right (fun c s => "/" +:+ c +:+ s) "" p
  end.

End FS.

(** ** The machine the program runs on

    What the filesystem tree does not decide is a parameter of the run: how
    [Path.resolve()] names a path, whether robocopy is installed and what it
    does, which entries cannot be deleted, whether [mklink] is allowed. *)

Module Sys.
Import FS.

Inductive runtime_msg :=
  | LinkPathOccupied (link_path : path)
  | JunctionFailed (returncode : Z).

Inductive exn :=
  | OSError
  | RuntimeError (m : runtime_msg)
  | EOFError
  | SystemExit.

Inductive result (A : Type) :=
  | Ok (a : A)
  | Raise (e : exn).
Arguments Ok {A} a.
Arguments Raise {A} e.

(** The mutating phases of a relocation. *)
Inductive phase := PhOverwrite | PhCopy | PhDelete | PhLink.

(** What a run did: the calls that touch the filesystem, in order, and, at
    each mutating call site of a front end, the phase with the source and the
    target the front end holds at that moment. *)
Inductive event :=
  | EvMkdir (p : path)
  | EvRobocopy (source target : path)
  | EvFallback (source target : path)
  | EvCopy2 (from_path to_path : path)
  | EvRmtree (p : path)
  | EvMklink (link_path target_path : path)
  | EvBegin (ph : phase) (source target : path).

Record platform := Platform {
  is_windows : bool;
  (** [Path(text).expanduser().resolve()] on the filesystem the run starts
      with: the path it names runs through no link.  It is taken to return; a
      text on which it raises (a loop of links, no home directory) ends the
      run where the text is read. *)
  resolve : string -> path;
  (** [None]: robocopy is not installed.  Otherwise what robocopy, which is
      not part of the program, does when it is run: its exit code and the
      files it leaves, named relative to the destination.  That it writes
      below its destination and nowhere else is what [/E /COPYALL] is
      documented to do, and is taken for granted here. *)
  robocopy : option (Z * list (path * string));
  (** entries that cannot be unlinked (open in another process, no permission) *)
  locked : path -> bool;
  (** [mklink /J] is refused *)
  mklink_denied : bool;
}.

Record world := World {
  fs : node;
  (** the lines [input()] will read *)
  stdin : list string;
  (** the answers the message boxes will get *)
  dialogs : list bool;
  trace : list event;
}.

Definition M (A : Type) : Type := world -> result A * world.

Definition ret {A} (a : A) : M A := fun w => (Ok a, w).
Definition raise {A} (e : exn) : M A := fun w => (Raise e, w).
Definition bind {A B} (m : M A) (k : A -> M B) : M B :=
  fun w => match m w with
           | (Ok a, w') => k a w'
           | (Raise e, w') => (Raise e, w')
           end.

Notation "'do' x <- m ; k" := (bind m (fun x => k))
  (at level 10, x name, m at level 100, k at level 200).
Notation "'run' m ; k" := (bind m (fun _ => k))
  (at level 10, m at level 100, k at level 200).

Definition gets {A} (f : world -> A) : M A := fun w => (Ok (f w), w).
Definition set_fs (t : node) : M unit :=
  fun w => (Ok tt, World t (stdin w) (dialogs w) (trace w)).
Definition emit (e : event) : M unit :=
  fun w => (Ok tt, World (fs w) (stdin w) (dialogs w) (trace w ++ [e])).

(** [input()] *)
Definition input : M string :=
  fun w => match stdin w with
           | [] => (Raise EOFError, w)
           | l :: rest => (Ok l, World (fs w) rest (dialogs w) (trace w))
           end.

(** [messagebox.askyesno]; a box that gets no answer is closed, which is "no". *)
Definition askyesno : M bool :=
  fun w => match dialogs w with
           | [] => (Ok false, w)
           | b :: rest => (Ok b, World (fs w) (stdin w) rest (trace w))
           end.

End Sys.

(** ** The components *)

Module Ops.
Import FS Sys.

(** *** Path inspector *)

Definition st_size (data : string) : Z := Z.of_nat (String.length data).

(** [os.walk(top, topdown=True)] below a directory node: an entry counts as a
    directory when [DirEntry.is_dir()] says so, and every other entry is a
    file.  A link found below the top is not entered.  For a symbolic link
    that is what [os.walk] does; a junction it enters, and there this walk
    stops short, the paths behind a junction being paths through a link. *)
Fixpoint walk_counts (root t : node) {struct t} : nat * nat :=
  match t with
  | Dir kids =>
      (fix entries (l : kids_t) : nat * nat :=
         match l with
         | [] => (O, O)
         | (_, c) :: l' =>
             let '(d, f) := entries l' in
             match c with
             | Dir _ => let '(d1, f1) := walk_counts root c in (S (d1 + d), (f1 + f)%nat)
             | _ => if entry_is_dir root c then (S d, f) else (d, S f)
             end
         end) kids
  | _ => (O, O)
  end.

(** [walk_dir_size]: the sizes of the files of the walk; a file whose [stat]
    fails adds nothing. *)
Fixpoint walk_dir_size_node (root t : node) {struct t} : Z :=
  match t with
  | Dir kids =>
      (fix entries (l : kids_t) : Z :=
         match l with
         | [] => 0%Z
         | (_, c) :: l' =>
             (match c with
              | Dir _ => walk_dir_size_node root c
              | _ =>
                  match follow symloop_max root c with
                  | Some (File data) => st_size data
                  | _ => 0
                  end
              end + entries l')%Z
         end) kids
  | _ => 0%Z
  end.

(** [os.walk] follows its top: the walk starts at what [top] resolves to, and
    yields nothing when that is not a directory. *)
Definition walk_top (root : node) (top : path) : node :=
  match stat root top with
  | Some t => t
  | None => File ""
  end.

Definition walk_dir_size (root : node) (directory : path) : Z :=
  walk_dir_size_node root (walk_top root directory).

Record dir_info := DirInfo {
  info_exists : bool;
  info_is_dir : bool;
  file_count : nat;
  dir_count : nat;
  total_size : Z;
  is_empty : bool;
}.

Definition inspect (root : node) (p : path) : dir_info :=
  let ex := exists_ root p in
  let isd := is_dir root p in
  if ex && isd then
    let '(dirs, files) := walk_counts root (walk_top root p) in
    DirInfo ex isd files dirs (walk_dir_size root p)
            (Nat.eqb files 0 && Nat.eqb dirs 0)
  else DirInfo ex isd 0 0 0%Z true.

Definition collect_dir_info (p : path) : M dir_info :=
  gets (fun w => inspect (fs w) p).

(** *** Bulk copier *)

Definition ensure_directory (p : path) : M unit :=
  run emit (EvMkdir p);
  do t <- gets fs;
  match mkdir_p t p with
  | Some t' => set_fs t'
  | None => raise OSError
  end.

Definition parent (p : path) : path := removelast p.

(** One file written by robocopy below the destination; a file it cannot
    place is left out. *)
Definition robocopy_write (target : path) (t : node) (f : path * string) : node :=
  let to_path := target ++ fst f in
  match mkdir_p t (parent to_path) with
  | Some t1 =>
      match find t1 to_path with
      | Some (Dir _) | Some (Link _ _) => t
      | _ => default t (put t1 to_path (File (snd f)))
      end
  | None => t
  end.

Definition run_robocopy (pf : platform) (source target : path) : M bool :=
  run emit (EvRobocopy source target);
  match robocopy pf with
  | Some (returncode, written) =>
      do t <- gets fs;
      run set_fs (fold_left (robocopy_write target) written t);
      if (returncode <=? 7)%Z then ret true else ret false
  | None => ret false
  end.

(** [shutil.copy2(from_path, to_path)]: the source is read through links, the
    destination is opened for writing through links. *)
Definition copy2 (from_path to_path : path) : M unit :=
  run emit (EvCopy2 from_path to_path);
  do t <- gets fs;
  match stat t from_path, write_target symloop_max t to_path with
  | Some (File data), Some dest =>
      match put t dest (File data) with
      | Some t' => set_fs t'
      | None => raise OSError
      end
  | _, _ => raise OSError
  end.

(** [if not to_path.exists(): shutil.copy2(from_path, to_path)] *)
Definition copy_if_absent (from_path to_path : path) : M unit :=
  do t <- gets fs;
  if exists_ t to_path then ret tt else copy2 from_path to_path.

(** The loop over [files]; [l] is the listing of the directory, of which the
    entries that are not directories are the files. *)
Fixpoint copy_files (root0 : node) (src dst : path) (l : kids_t) : M unit :=
  match l with
  | [] => ret tt
  | (file_name, c) :: l' =>
      if entry_is_dir root0 c then copy_files root0 src dst l'
      else
        run copy_if_absent (src ++ [file_name]) (dst ++ [file_name]);
        copy_files root0 src dst l'
  end.

(** The loop over [os.walk(source)]: [t] is the directory the walk is at,
    [src] its path and [dst] the mirrored [dest_root].  The subdirectories
    entered are the real ones: a link is not entered (see [walk_counts]). *)
Fixpoint copy_walk (root0 : node) (src dst : path) (t : node) {struct t} : M unit :=
  match t with
  | Dir kids =>
      run ensure_directory dst;
      run copy_files root0 src dst kids;
      (fix subdirs (l : kids_t) : M unit :=
         match l with
         | [] => ret tt
         | (n, c) :: l' =>
             match c with
             | Dir _ => run copy_walk root0 (src ++ [n]) (dst ++ [n]) c; subdirs l'
             | _ => subdirs l'
             end
         end) kids
  | _ => ret tt
  end.

(** The manual copy of [copy_directory].  The walk lists the source as it is
    when the walk starts.  [os.walk] lists a directory when it reaches it:
    that is the same listing unless the copy has by then written into a
    directory of the source that the walk has yet to reach, which takes a
    source and a target of which one lies at or below the other, or a link
    that leads a write into the source.  In that case [os.walk] finds the
    files written as well, and copies them too.  A symbolic link of the
    source is likewise taken for a file or a directory by what it points at
    when the walk starts. *)
Definition fallback_copy (source target : path) : M unit :=
  run emit (EvFallback source target);
  do t <- gets fs;
  copy_walk t source target (walk_top t source).

Definition copy_directory (pf : platform) (source target : path) : M unit :=
  run ensure_directory target;
  do used_robocopy <- run_robocopy pf source target;
  if used_robocopy then ret tt
  else fallback_copy source target.

(** *** Tree remover *)

(** [shutil.rmtree] below [here]: entries are unlinked in listing order,
    children before their directory, and the first one that cannot be
    unlinked stops everything.  [None]: the whole of [t] is gone; [Some t']:
    it stopped, and [t'] is what is left. *)
Fixpoint prune (locked : path -> bool) (here : path) (t : node) {struct t} : option node :=
  match t with
  | Dir kids =>
      match
        (fix entries (l : kids_t) : kids_t * bool :=
           match l with
           | [] => ([], true)
           | (n, c) :: l' =>
               match prune locked (here ++ [n]) c with
               | None => entries l'
               | Some c' => ((n, c') :: l', false)
               end
           end) kids
      with
      | (_, true) => if locked here then Some (Dir []) else None
      | (rest, false) => Some (Dir rest)
      end
  | _ => if locked here then Some t else None
  end.

(** [shutil.rmtree(p, ignore_errors=False)]: refuses a link and anything that
    is not a directory. *)
Definition rmtree (pf : platform) (p : path) : M unit :=
  run emit (EvRmtree p);
  do t <- gets fs;
  match find t p with
  | Some (Dir kids) =>
      match prune (locked pf) p (Dir kids) with
      | None =>
          match remove t p with
          | Some t' => set_fs t'
          | None => raise OSError
          end
      | Some remaining =>
          run set_fs (default t (put t p remaining));
          raise OSError
      end
  | _ => raise OSError
  end.

Definition delete_directory (pf : platform) (p : path) : M unit :=
  do t <- gets fs;
  if negb (exists_ t p) then ret tt
  else rmtree pf p.

(** *** Junction manager *)

(** [cmd /c mklink /J link target]: the return code, and the tree afterwards. *)
Definition mklink (pf : platform) (t : node) (link_path target_path : path) : Z * node :=
  if mklink_denied pf then (1%Z, t)
  else
    match find t link_path with
    | Some _ => (1%Z, t)
    | None =>
        match put t link_path (Link target_path Junction) with
        | Some t' => (0%Z, t')
        | None => (1%Z, t)
        end
    end.

Definition create_junction (pf : platform) (link_path target_path : path) : M unit :=
  do t <- gets fs;
  if exists_ t link_path || is_symlink t link_path then
    raise (RuntimeError (LinkPathOccupied link_path))
  else
    run emit (EvMklink link_path target_path);
    let '(returncode, t') := mklink pf t link_path target_path in
    run set_fs t';
    if negb (returncode =? 0)%Z then raise (RuntimeError (JunctionFailed returncode))
    else ret tt.

Definition ensure_windows (pf : platform) : M unit :=
  if is_windows pf then ret tt else raise SystemExit.

End Ops.

(** ** The command-line front end *)

Module Cli.
Import FS Sys Ops.

(** Text is held as the bytes of its UTF-8 form; a character is one to four
    of them, written here by their codes. *)
Definition bytes (codes : list nat) : list Ascii.ascii := map Ascii.ascii_of_nat codes.

(** The characters [str.strip()] removes, those for which [str.isspace()]
    holds: U+0009 to U+000D, U+001C to U+001F, U+0020, U+0085, U+00A0,
    U+1680, U+2000 to U+200A, U+2028, U+2029, U+202F, U+205F and U+3000. *)
Definition whitespace : list (list Ascii.ascii) :=
  map bytes
    [[9]; [10]; [11]; [12]; [13]; [28]; [29]; [30]; [31]; [32];
     [194; 133]; [194; 160]; [225; 154; 128];
     [226; 128; 128]; [226; 128; 129]; [226; 128; 130]; [226; 128; 131];
     [226; 128; 132]; [226; 128; 133]; [226; 128; 134]; [226; 128; 135];
     [226; 128; 136]; [226; 128; 137]; [226; 128; 138];
     [226; 128; 168]; [226; 128; 169]; [226; 128; 175]; [226; 129; 159];
     [227; 128; 128]].

(** [l] without the leading [c], when it starts with it. *)
Fixpoint without (c l : list Ascii.ascii) : option (list Ascii.ascii) :=
  match c, l with
  | [], _ => Some l
  | a :: c1, b :: l1 => if Ascii.eqb a b then without c1 l1 else None
  | _ :: _, [] => None
  end.

(** [l] without its first character, when that is one of [chars]. *)
Fixpoint without_any (chars : list (list Ascii.ascii)) (l : list Ascii.ascii)
  : option (list Ascii.ascii) :=
  match chars with
  | [] => None
  | c :: chars1 =>
      match without c l with
      | Some rest => Some rest
      | None => without_any chars1 l
      end
  end.

(** Characters of [chars] are dropped from the front of [l], at most [n] of
    them. *)
Fixpoint lstrip_chars (chars : list (list Ascii.ascii)) (n : nat) (l : list Ascii.ascii)
  : list Ascii.ascii :=
  match n with
  | O => l
  | S n1 =>
      match without_any chars l with
      | Some rest => lstrip_chars chars n1 rest
      | None => l
      end
  end.

Definition lstrip (l : list Ascii.ascii) : list Ascii.ascii :=
  lstrip_chars whitespace (length l) l.

(** The same from the end: the text and the characters are read backwards,
    which finds whole characters, a byte that starts a character never being
    one that continues another. *)
Definition rstrip (l : list Ascii.ascii) : list Ascii.ascii :=
  rev (lstrip_chars (map (@rev Ascii.ascii) whitespace) (length l) (rev l)).

(** [str.strip()] *)
Definition strip (s : string) : string :=
  String.string_of_list_ascii (rstrip (lstrip (String.list_ascii_of_string s))).

Definition lower_ascii (a : Ascii.ascii) : Ascii.ascii :=
  let n := Ascii.nat_of_ascii a in
  if (65 <=? n)%nat && (n <=? 90)%nat then Ascii.ascii_of_nat (n + 32) else a.

(** [str.lower()] as far as the program can tell: the letters A to Z, and the
    two characters outside ASCII whose lower case has an ASCII letter in it,
    the Kelvin sign U+212A (k) and the dotted capital I U+0130 (i and the
    combining dot U+0307).  Any other character outside ASCII is left as it
    is: where [str.lower()] changes one, what it gives is again outside
    ASCII and is none of the characters of the words that the program
    compares the result with. *)
Fixpoint lower_chars (l : list Ascii.ascii) : list Ascii.ascii :=
  match l with
  | [] => []
  | a :: l1 =>
      match l1 with
      | b :: l2 =>
          if (Ascii.nat_of_ascii a =? 196)%nat && (Ascii.nat_of_ascii b =? 176)%nat
          then bytes [105; 204; 135] ++ lower_chars l2
          else
            match l2 with
            | c :: l3 =>
                if (Ascii.nat_of_ascii a =? 226)%nat && (Ascii.nat_of_ascii b =? 132)%nat
                   && (Ascii.nat_of_ascii c =? 170)%nat
                then bytes [107] ++ lower_chars l3
                else lower_ascii a :: lower_chars l1
            | [] => lower_ascii a :: lower_chars l1
            end
      | [] => [lower_ascii a]
      end
  end.

Definition lower (s : string) : string :=
  String.string_of_list_ascii (lower_chars (String.list_ascii_of_string s)).

Definition str_in (s : string) (l : list string) : bool :=
  existsb (String.eqb s) l.

Definition yes_words : list string := ["y"; "yes"; "是"; "好"; "确认"].
Definition no_words : list string := ["n"; "no"; "否"; "不"; "取消"].

(** The [while True] of [ask_yes_no] over the lines still to be read: the
    answer and the lines left. *)
Fixpoint ask_yes_no_lines (default : option string) (lines : list string)
  : result bool * list string :=
  match lines with
  | [] => (Raise EOFError, [])
  | l :: rest =>
      let answer := lower (strip l) in
      match default with
      | Some d =>
          if String.eqb answer "" then (Ok (String.eqb (lower d) "y"), rest)
          else if str_in answer yes_words then (Ok true, rest)
          else if str_in answer no_words then (Ok false, rest)
          else ask_yes_no_lines default rest
      | None =>
          if str_in answer yes_words then (Ok true, rest)
          else if str_in answer no_words then (Ok false, rest)
          else ask_yes_no_lines default rest
      end
  end.

Definition ask_yes_no (default : option string) : M bool :=
  fun w =>
    let '(r, rest) := ask_yes_no_lines default (stdin w) in
    (r, World (fs w) rest (dialogs w) (trace w)).

(** The [while True] of [prompt_for_path]. *)
Fixpoint prompt_for_path_lines (pf : platform) (default : option path) (lines : list string)
  : result path * list string :=
  match lines with
  | [] => (Raise EOFError, [])
  | l :: rest =>
      let text := strip l in
      match (if String.eqb text "" then default else None) with
      | Some d => (Ok d, rest)
      | None =>
          let candidate := resolve pf text in
          if negb (String.eqb (path_str candidate) "") then (Ok candidate, rest)
          else prompt_for_path_lines pf default rest
      end
  end.

Definition prompt_for_path (pf : platform) (default : option path) : M path :=
  fun w =>
    let '(r, rest) := prompt_for_path_lines pf default (stdin w) in
    (r, World (fs w) rest (dialogs w) (trace w)).

(** How a run ends.  [Failed ph e]: the call of phase [ph] raised [e], the
    front end reported it and returned.  [Crashed ph e]: the call of phase
    [ph] raised [e] and nothing caught it, so nothing after it ran. *)
Inductive outcome :=
  | Done (verified : bool)
  | Finished
  | Cancelled
  | Rejected
  | Failed (ph : phase) (e : exn)
  | Crashed (ph : phase) (e : exn).

(** The call site of a mutating phase: the phase and both paths are noted,
    [op] runs, and when it raises the rest of the run is skipped. *)
Definition phase_call {A} (fail : phase -> exn -> A) (ph : phase)
    (source target : path) (op : M unit) (k : M A) : M A :=
  run emit (EvBegin ph source target);
  fun w => match op w with
           | (Ok _, w') => k w'
           | (Raise e, w') => (Ok (fail ph e), w')
           end.

Definition default_source (pf : platform) : path := resolve pf "~/.lmstudio".
Definition default_target (pf : platform) : path := resolve pf "D:/LMstudio_AIModels".

(** The copy, delete and link steps of [run_cli], each in its [try]. *)
Definition cli_migrate (pf : platform) (source_dir target_dir : path) : M outcome :=
  phase_call Failed PhCopy source_dir target_dir (copy_directory pf source_dir target_dir) (
  phase_call Failed PhDelete source_dir target_dir (delete_directory pf source_dir) (
  phase_call Failed PhLink source_dir target_dir (create_junction pf source_dir target_dir) (
  do t <- gets fs;
  ret (Done (exists_ t source_dir && is_dir t source_dir))))).

(** Option 3 of the menu: no copy, the source is deleted and linked to the
    target that is there. *)
Definition cli_link_only (pf : platform) (source_dir target_dir : path) : M outcome :=
  do t <- gets fs;
  (if exists_ t source_dir
   then phase_call Crashed PhDelete source_dir target_dir (delete_directory pf source_dir)
   else fun k => k) (
  phase_call Crashed PhLink source_dir target_dir (create_junction pf source_dir target_dir) (
  ret Finished)).

Inductive decision :=
  | Proceed (target_dir : path)
  | Stop (o : outcome).

(** The [while True] that settles the target.  Every turn reads a line, so
    [fuel] above the number of lines left is never used up. *)
Fixpoint choose_target (pf : platform) (fuel : nat) (source_dir : path) : M decision :=
  match fuel with
  | O => raise EOFError
  | S fuel' =>
      do target_dir <- prompt_for_path pf (Some (default_target pf));
      do target_info <- collect_dir_info target_dir;
      if info_exists target_info then
        do line <- input;
        let choice := strip line in
        if String.eqb choice "1" then choose_target pf fuel' source_dir
        else if String.eqb choice "2" then
          do yes <- ask_yes_no (Some "n");
          if negb yes then choose_target pf fuel' source_dir
          else
            phase_call (fun ph e => Stop (Crashed ph e)) PhOverwrite source_dir target_dir
              (rmtree pf target_dir) (ret (Proceed target_dir))
        else if String.eqb choice "3" then
          do yes <- ask_yes_no (Some "n");
          if negb yes then choose_target pf fuel' source_dir
          else
            do o <- cli_link_only pf source_dir target_dir;
            ret (Stop o)
        else if String.eqb choice "4" then ret (Stop Cancelled)
        else choose_target pf fuel' source_dir
      else ret (Proceed target_dir)
  end.

(** [run_cli].  What it prints is left out, and with it the two advisory
    queries ([is_admin], [detect_lmstudio_processes]) that are only printed. *)
Definition run_cli (pf : platform) : M outcome :=
  run ensure_windows pf;
  do source_dir <- prompt_for_path pf (Some (default_source pf));
  do source_info <- collect_dir_info source_dir;
  do created <-
    (if negb (info_exists source_info) then
       do yes <- ask_yes_no (Some "y");
       if yes then
         run ensure_directory source_dir;
         do i <- collect_dir_info source_dir;
         ret (Some i)
       else ret None
     else ret (Some source_info));
  match created with
  | None => ret Cancelled
  | Some source_info =>
      do go <-
        (if info_exists source_info && info_is_dir source_info && is_empty source_info
         then ask_yes_no (Some "n") else ret true);
      if negb go then ret Cancelled
      else
        do lines <- gets (fun w => length (stdin w));
        do d <- choose_target pf (S lines) source_dir;
        match d with
        | Stop o => ret o
        | Proceed target_dir =>
            do yes <- ask_yes_no (Some "n");
            if negb yes then ret Cancelled
            else cli_migrate pf source_dir target_dir
        end
  end.

End Cli.

(** ** The graphical front end *)

Module Gui.
Import FS Sys Ops Cli.

Record form := Form {
  source_var : string;
  target_var : string;
  overwrite_var : bool;
  link_only_var : bool;
}.

(** [worker] of [MoveApp._start]: nothing in it catches an exception. *)
Definition worker (pf : platform) (link_only overwrite : bool) (source target : path)
  : M outcome :=
  if link_only then
    do t <- gets fs;
    (if exists_ t source
     then phase_call Crashed PhDelete source target (delete_directory pf source)
     else fun k => k) (
    phase_call Crashed PhLink source target (create_junction pf source target) (
    ret Finished))
  else
    do t <- gets fs;
    (if overwrite && exists_ t target
     then phase_call Crashed PhOverwrite source target (rmtree pf target)
     else fun k => k) (
    phase_call Crashed PhCopy source target (copy_directory pf source target) (
    phase_call Crashed PhDelete source target (delete_directory pf source) (
    phase_call Crashed PhLink source target (create_junction pf source target) (
    ret Finished)))).

(** [MoveApp._start]; the worker thread it starts is run to its end. *)
Definition start (pf : platform) (f : form) : M outcome :=
  run ensure_windows pf;
  let source := resolve pf (source_var f) in
  let target := resolve pf (target_var f) in
  let link_only := link_only_var f in
  let overwrite := overwrite_var f in
  if String.eqb (path_str source) "" then ret Rejected
  else if String.eqb (path_str target) "" then ret Rejected
  else
    do si <- collect_dir_info source;
    do ti <- collect_dir_info target;
    do created <-
      (if negb (info_exists si) then
         do yes <- askyesno;
         if negb yes then ret (Some Cancelled)
         else
           fun w => match ensure_directory source w with
                    | (Ok _, w') => (Ok None, w')
                    | (Raise _, w') => (Ok (Some Rejected), w')
                    end
       else ret None);
    match created with
    | Some o => ret o
    | None =>
        do si <- (if negb (info_exists si) then collect_dir_info source else ret si);
        do go <- (if info_is_dir si && is_empty si then askyesno else ret true);
        if negb go then ret Cancelled
        else
          do go <-
            (if negb link_only && info_exists ti then
               if overwrite then
                 do yes <- askyesno;
                 ret (if yes then None else Some Cancelled)
               else ret (Some Rejected)
             else ret None);
          match go with
          | Some o => ret o
          | None =>
              do yes <- askyesno;
              if negb yes then ret Cancelled
              else worker pf link_only overwrite source target
          end
    end.

End Gui.

(** ** A small machine to run the program on *)

Module Demo.
Import FS Sys Ops Cli Gui.

(** Splits a path at its slashes. *)
Fixpoint split_on (acc s : string) : list string :=
  match s with
  | EmptyString => if String.eqb acc "" then [] else [acc]
  | String a s' =>
      if (Ascii.nat_of_ascii a =? 47)%nat
      then (if String.eqb acc "" then [] else [acc]) ++ split_on "" s'
      else split_on (acc +:+ String a EmptyString) s'
  end.

Definition pf_plain : platform :=
  Platform true (split_on "") None (fun _ => false) false.

(** robocopy is there and ends with [rc], having written nothing. *)
Definition pf_robocopy (rc : Z) : platform :=
  Platform true (split_on "") (Some (rc, [])) (fun _ => false) false.

(** robocopy is there, leaves a cut-off copy of the model file at the
    destination and ends with 8, "some files could not be copied". *)
Definition pf_partial : platform :=
  Platform true (split_on "") (Some (8%Z, [(["a.bin"], "ab")])) (fun _ => false) false.

(** The model file of the source cannot be unlinked. *)
Definition pf_locked : platform :=
  Platform true (split_on "") None
    (fun p => String.eqb (path_str p) "/home/lm/a.bin") false.

(** A file further down the source cannot be unlinked. *)
Definition pf_locked_b : platform :=
  Platform true (split_on "") None
    (fun p => String.eqb (path_str p) "/home/lm/sub/b") false.

Definition models : node :=
  Dir [("a.bin", File "abc"); ("sub", Dir [("b", File "12345")])].

Definition disk : node :=
  Dir [("home", Dir [("lm", models)]);
       ("d", Dir [("old", Dir [("a.bin", File "zz")]); ("note", File "x");
                  ("gone", Link ["nowhere"] Symlink);
                  ("stale", Link ["d"; "lost"] Junction)])].

Definition boot (lines : list string) (answers : list bool) : world :=
  World disk lines answers [].

(** The ideographic space U+3000, as typed by a Chinese input method. *)
Definition wide_space : string := String.string_of_list_ascii (bytes [227; 128; 128]).

(** A source ["/a/b"] that lies below its target ["/a"], with a subdirectory
    named like itself. *)
Definition nested : node :=
  Dir [("a", Dir [("b", Dir [("b", Dir [("x", File "1")])])])].

(** A target ["/dst"] that holds a symbolic link into the source ["/src"],
    to a file that is not there. *)
Definition redirected : node :=
  Dir [("src", Dir [("x", File "1")]);
       ("dst", Dir [("x", Link ["src"; "y"] Symlink)])].

End Demo.

(** * Properties *)

(** ** Byte formatting *)

Module FmtFacts.
Import Fmt.
Local Open Scope Z_scope.

(** A byte count below 2^53 is its own float. *)
Lemma float_of_int_exact (n : Z) : Z.abs n < 2 ^ 53 -> float_of_int n = n.
Proof.
  intros H. unfold float_of_int.
  destruct (Z.eq_dec n 0) as [->|Hn]; [reflexivity|].
  assert (Z.log2 (Z.abs n) < 53) by (apply Z.log2_lt_pow2; lia).
  destruct (Z.leb_spec (Z.log2 (Z.abs n) + 1) 53); [reflexivity | lia].
Qed.

Lemma format_loop_spec (us : list string) (a : amount) :
  let k := unit_index (length us) (num a) (den a) in
  format_loop us a
  = fmt2 (Amount (num a) (1024 ^ Z.of_nat k * den a)) +:+ " " +:+ nth k (us ++ ["PB"]) "PB".
Proof.
  revert a. induction us as [|u us IH]; intros [n d]; cbn [format_loop length unit_index num den].
  - change (1024 ^ Z.of_nat 0) with 1. rewrite Z.mul_1_l. reflexivity.
  - unfold amount_lt_1024; cbn [num den].
    destruct (n <? 1024 * d) eqn:E.
    + change (1024 ^ Z.of_nat 0) with 1. rewrite Z.mul_1_l. reflexivity.
    + rewrite IH. cbn [num den amount_div_1024 app nth].
      replace (1024 ^ Z.of_nat (S (unit_index (length us) n (1024 * d))) * d)
        with (1024 ^ Z.of_nat (unit_index (length us) n (1024 * d)) * (1024 * d)).
      * reflexivity.
      * rewrite Nat2Z.inj_succ, Z.pow_succ_r by lia. lia.
Qed.

(** C9: the formatter divides by 1024 from unit to unit through B, KB, MB,
    GB, TB and ends at PB, printing the quotient with two decimals; 0 bytes
    is "0.00 B", 1536 is "1.50 KB" and 1073741824 is "1.00 GB". *)
Theorem format_bytes_units :
  (forall n : Z,
     let a := float_of_int n in
     let k := unit_index 5 a 1 in
     format_bytes n = fmt2 (Amount a (1024 ^ Z.of_nat k)) +:+ " " +:+ unit_name k)
  /\ units ++ ["PB"] = ["B"; "KB"; "MB"; "GB"; "TB"; "PB"]
  /\ format_bytes 0 = "0.00 B"
  /\ format_bytes 1536 = "1.50 KB"
  /\ format_bytes 1073741824 = "1.00 GB".
Proof.
  split; [|repeat split; vm_compute; reflexivity].
  intros n a k. unfold format_bytes.
  rewrite (format_loop_spec units (Amount (float_of_int n) 1)).
  cbn [num den]. fold a. change (length units) with 5%nat. fold k.
  rewrite Z.mul_1_r. reflexivity.
Qed.

End FmtFacts.

(** ** Path inspector and junction manager *)

Module OpsFacts.
Import FS Sys Ops Cli Gui.

Lemma stat_none_not_dir (root : node) (p : path) :
  exists_ root p = false -> is_dir root p = false.
Proof.
  unfold exists_, is_dir. destruct (stat root p); [discriminate | reflexivity].
Qed.

Lemma inspect_missing (root : node) (p : path) :
  exists_ root p = false -> inspect root p = DirInfo false false 0 0 0%Z true.
Proof.
  intros H. unfold inspect. rewrite (stat_none_not_dir _ _ H), H. reflexivity.
Qed.

(** C7: for a path that does not exist the inspector returns, without
    raising, a report with exists false, every count zero and is_empty true;
    and it leaves the machine as it found it, so that asking again gives the
    same report. *)
Theorem collect_dir_info_missing (w : world) (p : path) :
  exists_ (fs w) p = false ->
  collect_dir_info p w = (Ok (DirInfo false false 0 0 0%Z true), w)
  /\ forall q : path,
       exists i, collect_dir_info q w = (Ok i, w)
                 /\ (run collect_dir_info q; collect_dir_info q) w = (Ok i, w).
Proof.
  intros H. split.
  - unfold collect_dir_info, gets. rewrite (inspect_missing _ _ H). reflexivity.
  - intros q. exists (inspect (fs w) q). split; reflexivity.
Qed.

Lemma collect_dir_info_missing_witness :
  exists_ Demo.disk ["d"; "t"] = false
  /\ collect_dir_info ["d"; "t"] (Demo.boot [] [])
     = (Ok (DirInfo false false 0 0 0%Z true), Demo.boot [] []).
Proof.
  split; [reflexivity|].
  apply (collect_dir_info_missing (Demo.boot [] []) ["d"; "t"]). reflexivity.
Defined.

(** What the guard of [create_junction] catches: whatever is at the link
    path, except a junction whose target is gone. *)
Lemma occupied_detected (root : node) (p : path) (c : node) :
  find root p = Some c ->
  (forall x, c = Link x Junction -> exists_ root p = true) ->
  exists_ root p || is_symlink root p = true.
Proof.
  intros H Hj. unfold is_symlink. rewrite H.
  destruct c as [d|kids|x [|]].
  - unfold exists_, stat. rewrite H. reflexivity.
  - unfold exists_, stat. rewrite H. reflexivity.
  - apply orb_true_r.
  - rewrite (Hj x eq_refl). reflexivity.
Qed.

(** C3, what the code does: the guard of [create_junction] asks [exists()],
    which follows a link, and [is_symlink()], which is false for a junction.
    A junction whose target is gone passes both: [mklink] is invoked on the
    occupied path, and the error is that of the failed [mklink], not the
    precondition error.  Here the junction ["/d/stale"] points at ["/d/lost"],
    which is not there. *)
Theorem create_junction_misses_dangling_junction :
  let w := Demo.boot [] [] in
  find (fs w) ["d"; "stale"] = Some (Link ["d"; "lost"] Junction)
  /\ exists_ (fs w) ["d"; "stale"] = false
  /\ is_symlink (fs w) ["d"; "stale"] = false
  /\ create_junction Demo.pf_plain ["d"; "stale"] ["d"; "old"] w
     = (Raise (RuntimeError (JunctionFailed 1)),
        World Demo.disk [] [] [EvMklink ["d"; "stale"] ["d"; "old"]]).
Proof. vm_compute. repeat split. Qed.

(** X24: what the guard of [create_junction] catches and what it lets
    through.  With a file, a directory, a symbolic link (broken or not) or a
    junction that resolves at the link path, [create_junction] raises the
    link-path-occupied error at once: [mklink] is not called and the machine
    is left as it was.  A junction whose target is gone is the one entry that
    gets past the guard: [mklink] is then called, fails on the occupied path,
    and [create_junction] raises the error of the failed [mklink], the
    filesystem being as it was. *)
Theorem create_junction_guard (pf : platform) (w : world)
    (link_path target_path : path) (c : node) :
  find (fs w) link_path = Some c ->
  ((forall x, c = Link x Junction -> exists_ (fs w) link_path = true) ->
   create_junction pf link_path target_path w
   = (Raise (RuntimeError (LinkPathOccupied link_path)), w))
  /\ ((exists x, c = Link x Junction) -> exists_ (fs w) link_path = false ->
      create_junction pf link_path target_path w
      = (Raise (RuntimeError (JunctionFailed 1)),
         World (fs w) (stdin w) (dialogs w) (trace w ++ [EvMklink link_path target_path]))).
Proof.
  intros H. split.
  - intros Hj. unfold create_junction, bind, gets.
    rewrite (occupied_detected _ _ _ H Hj). reflexivity.
  - intros [x ->] He. unfold create_junction, bind, gets, is_symlink. cbv beta.
    rewrite He, H. cbn [orb].
    unfold emit, mklink, set_fs, raise. cbn [fs stdin dialogs trace].
    rewrite H. destruct (mklink_denied pf); reflexivity.
Qed.

Lemma create_junction_guard_witness :
  create_junction Demo.pf_plain ["d"; "note"] ["d"; "old"] (Demo.boot [] [])
  = (Raise (RuntimeError (LinkPathOccupied ["d"; "note"])), Demo.boot [] []).
Proof.
  apply (create_junction_guard Demo.pf_plain (Demo.boot [] []) _ _ (File "x")).
  - reflexivity.
  - discriminate.
Defined.

(** C10: a symbolic link whose target is not there makes the inspector
    report that nothing exists at the link path, and [create_junction] still
    raises the link-path-occupied error there before [mklink] is called. *)
Theorem create_junction_dangling (pf : platform) (w : world)
    (link_path target_path gone : path) :
  find (fs w) link_path = Some (Link gone Symlink) ->
  exists_ (fs w) link_path = false ->
  info_exists (inspect (fs w) link_path) = false
  /\ create_junction pf link_path target_path w
     = (Raise (RuntimeError (LinkPathOccupied link_path)), w).
Proof.
  intros Hl He. split.
  - rewrite (inspect_missing _ _ He). reflexivity.
  - unfold create_junction, bind, gets, is_symlink. rewrite He, Hl. reflexivity.
Qed.

Lemma create_junction_dangling_witness :
  info_exists (inspect Demo.disk ["d"; "gone"]) = false
  /\ create_junction Demo.pf_plain ["d"; "gone"] ["d"; "old"] (Demo.boot [] [])
     = (Raise (RuntimeError (LinkPathOccupied ["d"; "gone"])), Demo.boot [] []).
Proof.
  apply (create_junction_dangling Demo.pf_plain (Demo.boot [] []) _ _ ["nowhere"]);
    reflexivity.
Defined.

(** C1, what the code does: when robocopy runs and ends with a code above 7,
    [run_robocopy] answers [False] as it does when robocopy is missing, and
    [copy_directory] goes on to the manual copy.  Here robocopy ends with 8
    having written nothing; the manual copy then fills the target,
    [copy_directory] returns without an error, and the run of [run_cli] goes
    on to delete the source and ends as done. *)
Theorem copy_directory_robocopy_exit_8 :
  let '(r, w) := copy_directory (Demo.pf_robocopy 8) ["home"; "lm"] ["d"; "t"]
                   (Demo.boot [] []) in
  run_robocopy (Demo.pf_robocopy 8) ["home"; "lm"] ["d"; "t"] (Demo.boot [] [])
  = (Ok false,
     World Demo.disk [] [] [EvRobocopy ["home"; "lm"] ["d"; "t"]])
  /\ r = Ok tt
  /\ In (EvFallback ["home"; "lm"] ["d"; "t"]) (trace w)
  /\ find (fs w) ["d"; "t"] = Some Demo.models
  /\ fst (run_cli (Demo.pf_robocopy 8) (Demo.boot ["/home/lm"; "/d/t"; "y"] []))
     = Ok (Done true).
Proof.
  vm_compute. repeat split; auto 10.
Qed.

End OpsFacts.

(** ** What a run records

    A property of events that holds of the record so far and of everything a
    computation adds is kept by the computation; the rules below carry such a
    property through the monad. *)

Module TraceFacts.
Import FS Sys Ops Cli Gui.

Section Node_induction.
Variable P : node -> Prop.
Hypothesis HFile : forall d, P (File d).
Hypothesis HLink : forall x k, P (Link x k).
Hypothesis HDir : forall kids, Forall (fun nc => P (snd nc)) kids -> P (Dir kids).

Fixpoint node_ind_nested (t : node) : P t :=
  match t with
  | File d => HFile d
  | Link x k => HLink x k
  | Dir kids =>
      HDir kids
        ((fix go (l : kids_t) : Forall (fun nc => P (snd nc)) l :=
            match l with
            | [] => List.Forall_nil _
            | nc :: l' => List.Forall_cons _ nc l' (node_ind_nested (snd nc)) (go l')
            end) kids)
  end.
End Node_induction.

Section Invariants.
Variable P : event -> Prop.

(** [m] adds only events that satisfy [P]. *)
Definition inv {A} (m : M A) : Prop :=
  forall w r w', m w = (r, w') -> Forall P (trace w) -> Forall P (trace w').

(** The same, asked only of the runs of [m] that return a value in [C]. *)
Definition inv_if {A} (C : A -> Prop) (m : M A) : Prop :=
  forall w a w', m w = (Ok a, w') -> C a -> Forall P (trace w) -> Forall P (trace w').

Lemma inv_inv_if {A} (C : A -> Prop) (m : M A) : inv m -> inv_if C m.
Proof. intros Hi w a w' E _. exact (Hi _ _ _ E). Qed.

Lemma inv_if_never {A} (C : A -> Prop) (m : M A) :
  (forall w a w', m w = (Ok a, w') -> ~ C a) -> inv_if C m.
Proof. intros Hn w a w' E HC. destruct (Hn _ _ _ E HC). Qed.

Lemma inv_ret {A} (a : A) : inv (ret a).
Proof. intros w r w' E. injection E as <- <-. auto. Qed.

Lemma inv_raise {A} (e : exn) : inv (@raise A e).
Proof. intros w r w' E. injection E as <- <-. auto. Qed.

Lemma inv_gets {A} (f : world -> A) : inv (gets f).
Proof. intros w r w' E. injection E as <- <-. auto. Qed.

Lemma inv_set_fs (t : node) : inv (set_fs t).
Proof. intros w r w' E. injection E as <- <-. auto. Qed.

Lemma inv_emit (e : event) : P e -> inv (emit e).
Proof.
  intros He w r w' E H. injection E as <- <-. cbn.
  apply Forall_app. split; [exact H | constructor; [exact He | constructor]].
Qed.

Lemma inv_bind {A B} (m : M A) (k : A -> M B) :
  inv m -> (forall a, inv (k a)) -> inv (bind m k).
Proof.
  intros Hm Hk w r w' E H. unfold bind in E.
  destruct (m w) as [[a|e] w1] eqn:Em.
  - exact (Hk a _ _ _ E (Hm _ _ _ Em H)).
  - injection E as <- <-. exact (Hm _ _ _ Em H).
Qed.

Lemma inv_if_bind {A B} (C : B -> Prop) (m : M A) (k : A -> M B) :
  inv m -> (forall a, inv_if C (k a)) -> inv_if C (bind m k).
Proof.
  intros Hm Hk w b w' E HC H. unfold bind in E.
  destruct (m w) as [[a|e] w1] eqn:Em; [|discriminate].
  exact (Hk a _ _ _ E HC (Hm _ _ _ Em H)).
Qed.

(** A bind whose first part is only known to keep [P] on the runs that
    matter for the whole. *)
Lemma inv_if_bind_via {A B} (C1 : A -> Prop) (C : B -> Prop) (m : M A) (k : A -> M B) :
  inv_if C1 m -> (forall a, inv_if C (k a)) ->
  (forall a w b w', k a w = (Ok b, w') -> C b -> C1 a) ->
  inv_if C (bind m k).
Proof.
  intros Hm Hk Hc w b w' E HC H. unfold bind in E.
  destruct (m w) as [[a|e] w1] eqn:Em; [|discriminate].
  exact (Hk a _ _ _ E HC (Hm _ _ _ Em (Hc _ _ _ _ E HC) H)).
Qed.

Lemma inv_input : inv input.
Proof.
  intros w r w' E H. unfold input in E.
  destruct (stdin w); injection E as <- <-; exact H.
Qed.

Lemma inv_askyesno : inv askyesno.
Proof.
  intros w r w' E H. unfold askyesno in E.
  destruct (dialogs w); injection E as <- <-; exact H.
Qed.

Lemma inv_ask_yes_no (d : option string) : inv (ask_yes_no d).
Proof.
  intros w r w' E H. unfold ask_yes_no in E.
  destruct (ask_yes_no_lines d (stdin w)). injection E as <- <-. exact H.
Qed.

Lemma inv_prompt_for_path (pf : platform) (d : option path) : inv (prompt_for_path pf d).
Proof.
  intros w r w' E H. unfold prompt_for_path in E.
  destruct (prompt_for_path_lines pf d (stdin w)). injection E as <- <-. exact H.
Qed.

Lemma inv_collect_dir_info (p : path) : inv (collect_dir_info p).
Proof. apply inv_gets. Qed.

Lemma inv_ensure_windows (pf : platform) : inv (ensure_windows pf).
Proof. unfold ensure_windows. destruct (is_windows pf); [apply inv_ret | apply inv_raise]. Qed.

End Invariants.

Arguments inv P {A} m.
Arguments inv_if P {A} C m.

Ltac inv_step :=
  first
    [ apply inv_bind; [|intros ?]
    | apply inv_ret | apply inv_raise | apply inv_gets | apply inv_set_fs
    | apply inv_input | apply inv_askyesno | apply inv_ask_yes_no
    | apply inv_prompt_for_path | apply inv_collect_dir_info
    | apply inv_ensure_windows
    | apply inv_emit; solve [auto]
    | match goal with
      | |- inv _ (match ?x with _ => _ end) => destruct x
      end ].

Ltac inv_auto := repeat inv_step.

Definition copy_event (ev : event) : Prop :=
  match ev with
  | EvMkdir _ | EvRobocopy _ _ | EvFallback _ _ | EvCopy2 _ _ => True
  | _ => False
  end.

Section Ops_invariants.
Variable P : event -> Prop.
Variable pf : platform.

Lemma inv_ensure_directory (p : path) : P (EvMkdir p) -> inv P (ensure_directory p).
Proof. intros. unfold ensure_directory. inv_auto. Qed.

Hypothesis Hcopy : forall ev, copy_event ev -> P ev.

Lemma inv_run_robocopy (s t : path) : inv P (run_robocopy pf s t).
Proof.
  unfold run_robocopy. apply inv_bind; [apply inv_emit, Hcopy; exact I|intros _].
  inv_auto.
Qed.

Lemma inv_copy2 (a b : path) : inv P (copy2 a b).
Proof.
  unfold copy2. apply inv_bind; [apply inv_emit, Hcopy; exact I|intros _].
  inv_auto.
Qed.

Lemma inv_copy_if_absent (a b : path) : inv P (copy_if_absent a b).
Proof.
  unfold copy_if_absent. apply inv_bind; [apply inv_gets|intros t].
  destruct (exists_ t b); [apply inv_ret | apply inv_copy2].
Qed.

Lemma inv_copy_files (root0 : node) (src dst : path) (l : kids_t) :
  inv P (copy_files root0 src dst l).
Proof.
  induction l as [|[n c] l IH]; cbn [copy_files]; [apply inv_ret|].
  destruct (entry_is_dir root0 c); [exact IH|].
  apply inv_bind; [apply inv_copy_if_absent | intros _; exact IH].
Qed.

Lemma inv_copy_walk (root0 : node) (t : node) :
  forall src dst, inv P (copy_walk root0 src dst t).
Proof.
  induction t as [d|x|kids IH] using node_ind_nested; intros src dst;
    cbn [copy_walk]; try apply inv_ret.
  apply inv_bind; [apply inv_ensure_directory, Hcopy; exact I|intros _].
  apply inv_bind; [apply inv_copy_files|intros _].
  induction IH as [|[n c] l Hc _ IHl]; [apply inv_ret|].
  destruct c; try exact IHl.
  apply inv_bind; [apply Hc | intros _; exact IHl].
Qed.

Lemma inv_fallback_copy (s t : path) : inv P (fallback_copy s t).
Proof.
  unfold fallback_copy. apply inv_bind; [apply inv_emit, Hcopy; exact I|intros _].
  apply inv_bind; [apply inv_gets|intros r]. apply inv_copy_walk.
Qed.

Lemma inv_copy_directory (s t : path) : inv P (copy_directory pf s t).
Proof.
  unfold copy_directory.
  apply inv_bind; [apply inv_ensure_directory, Hcopy; exact I|intros _].
  apply inv_bind; [apply inv_run_robocopy|intros used].
  destruct used; [apply inv_ret | apply inv_fallback_copy].
Qed.

End Ops_invariants.

Section Ops_invariants2.
Variable P : event -> Prop.
Variable pf : platform.

Lemma inv_rmtree (p : path) : P (EvRmtree p) -> inv P (rmtree pf p).
Proof. intros. unfold rmtree. inv_auto. Qed.

Lemma inv_delete_directory (p : path) : P (EvRmtree p) -> inv P (delete_directory pf p).
Proof.
  intros. unfold delete_directory. apply inv_bind; [apply inv_gets|intros t].
  destruct (negb _); [apply inv_ret | apply inv_rmtree; assumption].
Qed.

Lemma inv_create_junction (l t : path) : P (EvMklink l t) -> inv P (create_junction pf l t).
Proof. intros. unfold create_junction. inv_auto. Qed.

Lemma inv_phase_call {A} (fail : phase -> exn -> A) (ph : phase) (s t : path)
    (op : M unit) (k : M A) :
  P (EvBegin ph s t) -> inv P op -> inv P k -> inv P (phase_call fail ph s t op k).
Proof.
  intros Hb Hop Hk. unfold phase_call.
  apply inv_bind; [apply inv_emit; exact Hb|intros _].
  intros w r w' E H. destruct (op w) as [[[]|e] w1] eqn:Eo.
  - exact (Hk _ _ _ E (Hop _ _ _ Eo H)).
  - injection E as <- <-. exact (Hop _ _ _ Eo H).
Qed.

(** A phase that a run in [C] got past, or failed in. *)
Lemma inv_if_phase_call {A} (C : A -> Prop) (fail : phase -> exn -> A) (ph : phase)
    (s t : path) (op : M unit) (k : M A) :
  P (EvBegin ph s t) -> inv P op -> inv_if P C k ->
  inv_if P C (phase_call fail ph s t op k).
Proof.
  intros Hb Hop Hk. unfold phase_call.
  apply inv_if_bind; [apply inv_emit; exact Hb|intros _].
  intros w r w' E HC H. destruct (op w) as [[[]|e] w1] eqn:Eo.
  - exact (Hk _ _ _ E HC (Hop _ _ _ Eo H)).
  - injection E as <- <-. exact (Hop _ _ _ Eo H).
Qed.

End Ops_invariants2.

(** *** Phases in order *)

Definition rank (ph : phase) : nat :=
  match ph with PhOverwrite => 0 | PhCopy => 1 | PhDelete => 2 | PhLink => 3 end.

(** Nothing of a phase after [ph0] is in the record: no call site of a later
    phase was reached, and [mklink] was not called before the link phase. *)
Definition upto (ph0 : phase) (ev : event) : Prop :=
  match ev with
  | EvBegin ph _ _ => rank ph <= rank ph0
  | EvMklink _ _ => ph0 = PhLink
  | _ => True
  end.

(** The run ended because the call of phase [ph0] raised. *)
Definition failed_at (ph0 : phase) (o : outcome) : Prop :=
  match o with
  | Failed ph _ | Crashed ph _ => ph = ph0
  | _ => False
  end.

Definition decided (C : outcome -> Prop) (d : decision) : Prop :=
  match d with
  | Proceed _ => True
  | Stop o => C o
  end.

Lemma upto_copy_event (ph0 : phase) (ev : event) : copy_event ev -> upto ph0 ev.
Proof. destruct ev; cbn; tauto. Qed.

Ltac run_cases :=
  repeat match goal with
    | H : (_, _) = (_, _) |- _ => injection H as <- <-
    | H : context [match ?x with _ => _ end] |- _ => destruct x eqn:?
    | H : (Raise _, _) = (Ok _, _) |- _ => discriminate H
    end.

Ltac never_tac :=
  let E := fresh "E" in
  intros ? ? ? E;
  unfold phase_call, bind, emit, ret, gets in E;
  run_cases; cbn; congruence.

Section Phase_order.
Variable pf : platform.

Lemma inv_upto_copy ph0 (s t : path) : inv (upto ph0) (copy_directory pf s t).
Proof. apply inv_copy_directory. apply upto_copy_event. Qed.

Lemma inv_upto_delete ph0 (s : path) : inv (upto ph0) (delete_directory pf s).
Proof. apply inv_delete_directory. exact I. Qed.

Lemma inv_upto_rmtree ph0 (s : path) : inv (upto ph0) (rmtree pf s).
Proof. apply inv_rmtree. exact I. Qed.

Lemma inv_upto_mkdir ph0 (s : path) : inv (upto ph0) (ensure_directory s).
Proof. apply inv_ensure_directory. exact I. Qed.

Lemma inv_upto_link (s t : path) : inv (upto PhLink) (create_junction pf s t).
Proof. apply inv_create_junction. reflexivity. Qed.

End Phase_order.

Ltac phase_steps :=
  repeat first
    [ apply inv_if_phase_call;
      [ solve [cbn; lia]
      | solve [ apply inv_upto_copy | apply inv_upto_delete | apply inv_upto_rmtree
              | apply inv_upto_link ]
      | ]
    | apply inv_if_never; solve [never_tac]
    | apply inv_inv_if; solve [inv_auto]
    | apply inv_if_bind; [solve [inv_auto] | intros ?] ].

Section Front_ends.
Variable pf : platform.
Variable ph0 : phase.
Hypothesis Hph : ph0 = PhCopy \/ ph0 = PhDelete.

Lemma cli_migrate_order (s t : path) :
  inv_if (upto ph0) (failed_at ph0) (cli_migrate pf s t).
Proof. unfold cli_migrate. destruct Hph; subst ph0; phase_steps. Qed.

Lemma cli_link_only_order (s t : path) :
  inv_if (upto ph0) (failed_at ph0) (cli_link_only pf s t).
Proof.
  unfold cli_link_only. apply inv_if_bind; [apply inv_gets|intros r].
  destruct (exists_ r s); destruct Hph; subst ph0; phase_steps.
Qed.

Lemma choose_target_order (fuel : nat) (s : path) :
  inv_if (upto ph0) (decided (failed_at ph0)) (choose_target pf fuel s).
Proof.
  induction fuel as [|fuel IH]; cbn [choose_target].
  - apply inv_inv_if, inv_raise.
  - apply inv_if_bind; [apply inv_prompt_for_path|intros t].
    apply inv_if_bind; [apply inv_collect_dir_info|intros ti].
    destruct (info_exists ti); [|apply inv_inv_if, inv_ret].
    apply inv_if_bind; [apply inv_input|intros line].
    repeat match goal with |- inv_if _ _ (if ?b then _ else _) => destruct b end;
      try exact IH; try (apply inv_inv_if, inv_ret).
    + apply inv_if_bind; [apply inv_ask_yes_no|intros yes].
      destruct (negb yes); [exact IH|].
      apply inv_inv_if, inv_phase_call;
        [destruct Hph; subst ph0; cbn; lia | apply inv_upto_rmtree | apply inv_ret].
    + apply inv_if_bind; [apply inv_ask_yes_no|intros yes].
      destruct (negb yes); [exact IH|].
      intros w d w' E HC H. unfold bind in E.
      destruct (cli_link_only pf s t w) as [[o|e] w1] eqn:El; [|discriminate].
      injection E as <- <-.
      exact (cli_link_only_order s t _ _ _ El HC H).
Qed.

Lemma run_cli_order : inv_if (upto ph0) (failed_at ph0) (run_cli pf).
Proof.
  unfold run_cli.
  apply inv_if_bind; [apply inv_ensure_windows|intros _].
  apply inv_if_bind; [apply inv_prompt_for_path|intros s].
  apply inv_if_bind; [apply inv_collect_dir_info|intros si].
  apply inv_if_bind.
  { destruct (negb (info_exists si)); [|apply inv_ret].
    apply inv_bind; [apply inv_ask_yes_no|intros yes].
    destruct yes; [|apply inv_ret].
    apply inv_bind; [apply inv_upto_mkdir|intros _]. inv_auto. }
  intros [si'|]; [|apply inv_inv_if, inv_ret].
  apply inv_if_bind.
  { destruct (_ && _); [apply inv_ask_yes_no | apply inv_ret]. }
  intros go. destruct (negb go); [apply inv_inv_if, inv_ret|].
  apply inv_if_bind; [apply inv_gets|intros n].
  apply (inv_if_bind_via (upto ph0) (decided (failed_at ph0))).
  - apply choose_target_order.
  - intros [t|o]; [|apply inv_inv_if, inv_ret].
    apply inv_if_bind; [apply inv_ask_yes_no|intros yes].
    destruct (negb yes); [apply inv_inv_if, inv_ret|].
    apply cli_migrate_order.
  - intros [t|o] w b w' E HC; [exact I|].
    injection E as <- <-. exact HC.
Qed.

Lemma worker_order (link_only overwrite : bool) (s t : path) :
  inv_if (upto ph0) (failed_at ph0) (worker pf link_only overwrite s t).
Proof.
  unfold worker. destruct link_only.
  - apply inv_if_bind; [apply inv_gets|intros r].
    destruct (exists_ r s); destruct Hph; subst ph0; phase_steps.
  - apply inv_if_bind; [apply inv_gets|intros r].
    destruct (overwrite && exists_ r t); destruct Hph; subst ph0; phase_steps.
Qed.

Lemma start_order (f : form) : inv_if (upto ph0) (failed_at ph0) (start pf f).
Proof.
  unfold start.
  apply inv_if_bind; [apply inv_ensure_windows|intros _].
  destruct (String.eqb _ ""); [apply inv_inv_if, inv_ret|].
  destruct (String.eqb _ ""); [apply inv_inv_if, inv_ret|].
  apply inv_if_bind; [apply inv_collect_dir_info|intros si].
  apply inv_if_bind; [apply inv_collect_dir_info|intros ti].
  apply inv_if_bind.
  { destruct (negb (info_exists si)); [|apply inv_ret].
    apply inv_bind; [apply inv_askyesno|intros yes].
    destruct (negb yes); [apply inv_ret|].
    intros w r w' E H.
    destruct (ensure_directory _ w) as [[[]|e] w1] eqn:Em; injection E as <- <-;
      exact (inv_upto_mkdir ph0 _ _ _ _ Em H). }
  intros [o|]; [apply inv_inv_if, inv_ret|].
  apply inv_if_bind.
  { destruct (negb (info_exists si)); [apply inv_collect_dir_info | apply inv_ret]. }
  intros si'. apply inv_if_bind.
  { destruct (_ && _); [apply inv_askyesno | apply inv_ret]. }
  intros go. destruct (negb go); [apply inv_inv_if, inv_ret|].
  apply inv_if_bind.
  { destruct (_ && _); [|apply inv_ret].
    destruct (overwrite_var f); [|apply inv_ret].
    apply inv_bind; [apply inv_askyesno|intros yes]. apply inv_ret. }
  intros [o|]; [apply inv_inv_if, inv_ret|].
  apply inv_if_bind; [apply inv_askyesno|intros yes].
  destruct (negb yes); [apply inv_inv_if, inv_ret|].
  apply worker_order.
Qed.

End Front_ends.

End TraceFacts.

(** ** The filesystem operations keep what is there *)

Module FSFacts.
Import FS.

Lemma alookup_aset (m n : string) (v : node) (l : kids_t) :
  alookup m (aset n v l) = if String.eqb m n then Some v else alookup m l.
Proof.
  induction l as [|[k c] l IH]; cbn.
  - destruct (String.eqb m n); reflexivity.
  - destruct (String.eqb n k) eqn:Enk; cbn.
    + apply String.eqb_eq in Enk. subst k.
      destruct (String.eqb m n); reflexivity.
    + rewrite IH. destruct (String.eqb m k) eqn:Emk; [|reflexivity].
      apply String.eqb_eq in Emk. subst k.
      rewrite String.eqb_sym, Enk. reflexivity.
Qed.

Lemma alookup_adel_ne (m n : string) (l : kids_t) :
  String.eqb m n = false -> alookup m (adel n l) = alookup m l.
Proof.
  intros H. induction l as [|[k c] l IH]; cbn; [reflexivity|].
  destruct (String.eqb n k) eqn:Enk; cbn.
  - apply String.eqb_eq in Enk. subst k. rewrite H. exact IH.
  - rewrite IH. reflexivity.
Qed.

Lemma aset_same (n : string) (c : node) (l : kids_t) :
  alookup n l = Some c -> aset n c l = l.
Proof.
  induction l as [|[k c0] l IH]; cbn; [discriminate|].
  destruct (String.eqb n k) eqn:E.
  - intros [= ->]. reflexivity.
  - intros H. rewrite (IH H). reflexivity.
Qed.

Lemma same_kind_refl (c : node) : same_kind c c.
Proof. destruct c; cbn; eauto. Qed.

Lemma same_kind_trans (a b c : node) : same_kind a b -> same_kind b c -> same_kind a c.
Proof.
  destruct a; cbn.
  - intros ->. cbn. auto.
  - intros [k ->]. cbn. auto.
  - intros ->. cbn. auto.
Qed.

Lemma keeps_on_refl (S : path -> Prop) (a : node) : keeps_on S a a.
Proof. intros q c _ H. exists c. split; [exact H | apply same_kind_refl]. Qed.

Lemma keeps_on_trans (S : path -> Prop) (a b c : node) :
  keeps_on S a b -> keeps_on S b c -> keeps_on S a c.
Proof.
  intros Hab Hbc q x Hq Hx.
  destruct (Hab q x Hq Hx) as (y & Hy & Kxy).
  destruct (Hbc q y Hq Hy) as (z & Hz & Kyz).
  exists z. split; [exact Hz | exact (same_kind_trans _ _ _ Kxy Kyz)].
Qed.

Lemma keeps_on_weaken (S S' : path -> Prop) (a b : node) :
  (forall q, S' q -> S q) -> keeps_on S a b -> keeps_on S' a b.
Proof. intros HS H q c Hq. apply H, HS, Hq. Qed.

Lemma find_file_below (d : string) (q : path) (c : node) :
  find (File d) q = Some c -> q = [].
Proof. destruct q; [reflexivity | discriminate]. Qed.

(** A write at a path where nothing or a file is keeps every other entry. *)
Lemma put_keeps (p : path) :
  forall (t t' v : node),
    put t p v = Some t' ->
    (find t p = None \/ exists d, find t p = Some (File d)) ->
    keeps_on (fun q => q <> p) t t'.
Proof.
  induction p as [|n p IH]; intros t t' v Hput Hfree q c Hq Hc.
  - cbn in Hfree. destruct Hfree as [H|[d H]]; [discriminate|].
    injection H as ->. apply find_file_below in Hc. contradiction.
  - destruct t as [d|kids|x]; try discriminate Hput.
    destruct q as [|m q].
    + cbn in Hc. injection Hc as <-.
      cbn in Hput. destruct p.
      * injection Hput as <-. exists (Dir (aset n v kids)). split; cbn; eauto.
      * destruct (alookup n kids); [|discriminate].
        destruct (put _ _ _); [|discriminate].
        injection Hput as <-. eexists. split; cbn; eauto.
    + cbn in Hc. destruct (String.eqb m n) eqn:Emn.
      * apply String.eqb_eq in Emn. subst m.
        assert (Hqp : q <> p) by congruence.
        cbn in Hfree. destruct (alookup n kids) as [c0|] eqn:En; [|discriminate].
        cbn in Hput. destruct p as [|n' p'].
        -- destruct Hfree as [H|[d H]]; [discriminate|]. injection H as ->.
           apply find_file_below in Hc. contradiction.
        -- rewrite En in Hput. destruct (put c0 (n' :: p') v) as [c0'|] eqn:Ep; [|discriminate].
           injection Hput as <-.
           destruct (IH c0 c0' v Ep Hfree q c Hqp Hc) as (c' & Hc' & K).
           exists c'. split; [|exact K].
           cbn. rewrite alookup_aset, String.eqb_refl. exact Hc'.
      * assert (Hsame : forall kids', alookup m kids' = alookup m kids ->
                                      find (Dir kids') (m :: q) = Some c).
        { intros kids' E. cbn. rewrite E. exact Hc. }
        cbn in Hput. destruct p.
        -- injection Hput as <-. exists c. split; [|apply same_kind_refl].
           apply Hsame. rewrite alookup_aset, Emn. reflexivity.
        -- destruct (alookup n kids); [|discriminate].
           destruct (put _ _ _); [|discriminate].
           injection Hput as <-. exists c. split; [|apply same_kind_refl].
           apply Hsame. rewrite alookup_aset, Emn. reflexivity.
Qed.

(** Creating directories keeps every entry. *)
Lemma mkdir_p_at_keeps (root : node) (p : path) :
  forall t t', mkdir_p_at root t p = Some t' -> keeps t t'.
Proof.
  induction p as [|n p IH]; intros t t' H q c _ Hc.
  - cbn in H. destruct (node_is_dir root t); [|discriminate].
    injection H as <-. exists c. split; [exact Hc | apply same_kind_refl].
  - destruct t as [d|kids|x]; try discriminate H.
    cbn in H.
    destruct (mkdir_p_at root (default (Dir []) (alookup n kids)) p) as [c0'|] eqn:E;
      [|discriminate].
    injection H as <-.
    destruct q as [|m q].
    + cbn in Hc. injection Hc as <-. eexists. split; cbn; eauto.
    + cbn in Hc. cbn. rewrite alookup_aset.
      destruct (String.eqb m n) eqn:Emn.
      * apply String.eqb_eq in Emn. subst m.
        destruct (alookup n kids) as [c0|]; [|discriminate].
        exact (IH _ _ E q c I Hc).
      * exists c. split; [exact Hc | apply same_kind_refl].
Qed.

Lemma mkdir_p_keeps (t t' : node) (p : path) : mkdir_p t p = Some t' -> keeps t t'.
Proof. apply mkdir_p_at_keeps. Qed.

Lemma keeps_follow (a b : node) :
  keeps a b ->
  forall k c c' r, follow k a c = Some r -> same_kind c c' ->
                   exists r', follow k b c' = Some r' /\ same_kind r r'.
Proof.
  intros Hab k. induction k as [|k IH]; intros c c' r Hf K.
  - destruct c as [d|kids|x]; cbn in K.
    + subst c'. cbn in *. injection Hf as <-. eexists; split; cbn; eauto.
    + destruct K as [kids' ->]. cbn in *. injection Hf as <-. eexists; split; cbn; eauto.
    + subst c'. cbn in *. discriminate.
  - destruct c as [d|kids|x]; cbn in K.
    + subst c'. cbn in *. injection Hf as <-. eexists; split; cbn; eauto.
    + destruct K as [kids' ->]. cbn in *. injection Hf as <-. eexists; split; cbn; eauto.
    + subst c'. cbn in *.
      destruct (find a x) as [c1|] eqn:E1; [|discriminate].
      destruct (Hab x c1 I E1) as (c1' & E1' & K1).
      rewrite E1'. exact (IH _ _ _ Hf K1).
Qed.

Lemma keeps_stat (a b : node) (p : path) (r : node) :
  keeps a b -> stat a p = Some r -> exists r', stat b p = Some r' /\ same_kind r r'.
Proof.
  intros Hab. unfold stat. destruct (find a p) as [c|] eqn:E; [|discriminate].
  destruct (Hab p c I E) as (c' & E' & K). rewrite E'.
  intros Hf. exact (keeps_follow a b Hab _ _ _ _ Hf K).
Qed.

Lemma keeps_exists (a b : node) (p : path) :
  keeps a b -> exists_ a p = true -> exists_ b p = true.
Proof.
  intros Hab. unfold exists_. destruct (stat a p) as [r|] eqn:E; [|discriminate].
  destruct (keeps_stat a b p r Hab E) as (r' & -> & _). reflexivity.
Qed.

Lemma keeps_node_is_dir (a b : node) (c c' : node) :
  keeps a b -> same_kind c c' -> node_is_dir a c = true -> node_is_dir b c' = true.
Proof.
  intros Hab K. unfold node_is_dir.
  destruct (follow symloop_max a c) as [r|] eqn:E; [|discriminate].
  destruct (keeps_follow a b Hab _ _ _ _ E K) as (r' & -> & Kr).
  destruct r; try discriminate. destruct Kr as [kids' ->]. reflexivity.
Qed.

Lemma keeps_entry_is_dir (a b : node) (c c' : node) :
  keeps a b -> same_kind c c' -> entry_is_dir a c = true -> entry_is_dir b c' = true.
Proof.
  intros Hab K. destruct c as [d|kids|x [|]]; cbn in K.
  - subst c'. exact (keeps_node_is_dir a b _ _ Hab (same_kind_refl _)).
  - destruct K as [kids' ->]. intros _. reflexivity.
  - subst c'. exact (keeps_node_is_dir a b _ _ Hab (same_kind_refl _)).
  - subst c'. intros _. reflexivity.
Qed.

(** Where a write through [p] lands there is nothing, when [p] does not exist. *)
Lemma write_target_fresh (t : node) (k : nat) :
  forall p dest,
    write_target k t p = Some dest ->
    match find t p with Some c => follow k t c | None => None end = None ->
    find t dest = None.
Proof.
  induction k as [|k IH]; intros p dest Hw Hs.
  - cbn in Hw. destruct (find t p) as [[d|kids|x [|]]|] eqn:E; try discriminate;
      injection Hw as <-; rewrite E; try discriminate Hs; reflexivity.
  - cbn in Hw. destruct (find t p) as [[d|kids|x [|]]|] eqn:E; try discriminate Hw;
      try (injection Hw as <-; rewrite E; try discriminate Hs; reflexivity).
    cbn in Hs. exact (IH _ _ Hw Hs).
Qed.

Lemma is_prefix_app (p r : path) : is_prefix p (p ++ r) = true.
Proof. induction p as [|a p IH]; cbn; [reflexivity|]. rewrite String.eqb_refl. exact IH. Qed.

(** Two ancestors of one path: one is an ancestor of the other. *)
Lemma is_prefix_comparable (p q r : path) :
  is_prefix p r = true -> is_prefix q r = true ->
  is_prefix p q = true \/ is_prefix q p = true.
Proof.
  revert q r. induction p as [|a p IH]; intros q r Hp Hq; [left; reflexivity|].
  destruct q as [|b q]; [right; reflexivity|].
  destruct r as [|c r]; [discriminate|].
  cbn in *. apply andb_true_iff in Hp as [Hac Hp]. apply andb_true_iff in Hq as [Hbc Hq].
  apply String.eqb_eq in Hac, Hbc. subst a b. rewrite String.eqb_refl. cbn.
  exact (IH _ _ Hp Hq).
Qed.

Lemma find_none_below (r : node) (t q : path) :
  find r t = None -> is_prefix t q = true -> find r q = None.
Proof.
  revert r q. induction t as [|n t IH]; intros r q Hn Hp; [discriminate Hn|].
  destruct q as [|m q]; [discriminate Hp|].
  cbn in Hp. apply andb_true_iff in Hp as [Hnm Hp]. apply String.eqb_eq in Hnm. subst m.
  cbn in *. destruct r as [d|kids|x]; try reflexivity.
  destruct (alookup n kids) as [c|]; [|reflexivity].
  exact (IH _ _ Hn Hp).
Qed.

(** Where nothing is at [t], keeping what is off [t] is keeping everything. *)
Lemma keeps_on_absent (t : path) (a b : node) :
  find a t = None -> keeps_on (fun q => is_prefix t q = false) a b -> keeps a b.
Proof.
  intros Hn Hk q c _ Hc. destruct (is_prefix t q) eqn:Hp.
  - rewrite (find_none_below _ _ _ Hn Hp) in Hc. discriminate.
  - exact (Hk q c Hp Hc).
Qed.

Lemma apart_off (s t q : path) :
  apart s t = true -> is_prefix s q = true -> is_prefix t q = false.
Proof.
  unfold apart. intros Ha Hs. apply andb_true_iff in Ha as [H1 H2].
  destruct (is_prefix t q) eqn:Ht; [|reflexivity].
  destruct (is_prefix_comparable _ _ _ Hs Ht) as [H|H]; rewrite H in *; discriminate.
Qed.

(** A write or an unlink at [p] keeps every entry that is not at or below [p]. *)
Lemma put_keeps_off (p : path) :
  forall t t' v, put t p v = Some t' -> keeps_on (fun q => is_prefix p q = false) t t'.
Proof.
  induction p as [|n p IH]; intros t t' v Hput q c Hq Hc; [discriminate Hq|].
  destruct t as [d|kids|x]; try discriminate Hput.
  destruct q as [|m q].
  - cbn in Hc. injection Hc as <-. cbn in Hput. destruct p.
    + injection Hput as <-. eexists. split; cbn; eauto.
    + destruct (alookup n kids); [|discriminate].
      destruct (put _ _ _); [|discriminate].
      injection Hput as <-. eexists. split; cbn; eauto.
  - cbn in Hq, Hc. destruct (String.eqb n m) eqn:Enm.
    + apply String.eqb_eq in Enm. subst m. cbn in Hq.
      destruct (alookup n kids) as [c0|] eqn:En; [|discriminate].
      cbn in Hput. destruct p as [|n' p']; [discriminate Hq|].
      rewrite En in Hput.
      destruct (put c0 (n' :: p') v) as [c0'|] eqn:Ep; [|discriminate].
      injection Hput as <-.
      destruct (IH c0 c0' v Ep q c Hq Hc) as (c' & Hc' & K).
      exists c'. split; [|exact K]. cbn. rewrite alookup_aset, String.eqb_refl. exact Hc'.
    + rewrite String.eqb_sym in Enm.
      exists c. split; [|apply same_kind_refl].
      cbn in Hput. destruct p.
      * injection Hput as <-. cbn. rewrite alookup_aset, Enm. exact Hc.
      * destruct (alookup n kids); [|discriminate].
        destruct (put _ _ _); [|discriminate].
        injection Hput as <-. cbn. rewrite alookup_aset, Enm. exact Hc.
Qed.

Lemma remove_keeps_off (p : path) :
  forall t t', remove t p = Some t' -> keeps_on (fun q => is_prefix p q = false) t t'.
Proof.
  induction p as [|n p IH]; intros t t' Hrm q c Hq Hc; [discriminate Hq|].
  destruct t as [d|kids|x]; try discriminate Hrm.
  destruct q as [|m q].
  - cbn in Hc. injection Hc as <-. cbn in Hrm.
    destruct (alookup n kids) as [c0|]; [|destruct p; discriminate].
    destruct p.
    + injection Hrm as <-. eexists. split; cbn; eauto.
    + destruct (remove _ _); [|discriminate].
      injection Hrm as <-. eexists. split; cbn; eauto.
  - cbn in Hq, Hc. destruct (String.eqb n m) eqn:Enm.
    + apply String.eqb_eq in Enm. subst m. cbn in Hq.
      destruct (alookup n kids) as [c0|] eqn:En; [|discriminate].
      cbn in Hrm. destruct p as [|n' p']; [discriminate Hq|].
      rewrite En in Hrm.
      destruct (remove c0 (n' :: p')) as [c0'|] eqn:Ep; [|discriminate].
      injection Hrm as <-.
      destruct (IH c0 c0' Ep q c Hq Hc) as (c' & Hc' & K).
      exists c'. split; [|exact K]. cbn. rewrite alookup_aset, String.eqb_refl. exact Hc'.
    + rewrite String.eqb_sym in Enm.
      exists c. split; [|apply same_kind_refl].
      cbn in Hrm. destruct (alookup n kids) as [c0|]; [|destruct p; discriminate].
      destruct p.
      * injection Hrm as <-. cbn. rewrite alookup_adel_ne by exact Enm. exact Hc.
      * destruct (remove _ _); [|discriminate].
        injection Hrm as <-. cbn. rewrite alookup_aset, Enm. exact Hc.
Qed.

(** A write or an unlink at [p] leaves the tree at a path apart from [p] as
    it is. *)
Lemma find_put_apart (p : path) :
  forall t t' v q, put t p v = Some t' -> apart p q = true -> find t' q = find t q.
Proof.
  induction p as [|n p IH]; intros t t' v q Hput Ha; [discriminate Ha|].
  destruct q as [|m q]; [unfold apart in Ha; cbn in Ha; discriminate Ha|].
  destruct t as [d|kids|x]; try discriminate Hput.
  unfold apart in Ha. cbn in Ha. rewrite (String.eqb_sym m n) in Ha.
  destruct (String.eqb n m) eqn:Enm.
  - apply String.eqb_eq in Enm. subst m. cbn in Ha.
    cbn in Hput. destruct p as [|n' p']; [discriminate Ha|].
    destruct (alookup n kids) as [c0|] eqn:En; [|discriminate].
    destruct (put c0 (n' :: p') v) as [c0'|] eqn:Ep; [|discriminate].
    injection Hput as <-. cbn. rewrite alookup_aset, String.eqb_refl, En.
    exact (IH c0 c0' v q Ep Ha).
  - rewrite String.eqb_sym in Enm. cbn in Hput. destruct p.
    + injection Hput as <-. cbn. rewrite alookup_aset, Enm. reflexivity.
    + destruct (alookup n kids); [|discriminate].
      destruct (put _ _ _); [|discriminate].
      injection Hput as <-. cbn. rewrite alookup_aset, Enm. reflexivity.
Qed.

Lemma find_remove_apart (p : path) :
  forall t t' q, remove t p = Some t' -> apart p q = true -> find t' q = find t q.
Proof.
  induction p as [|n p IH]; intros t t' q Hrm Ha; [discriminate Ha|].
  destruct q as [|m q]; [unfold apart in Ha; cbn in Ha; discriminate Ha|].
  destruct t as [d|kids|x]; try discriminate Hrm.
  unfold apart in Ha. cbn in Ha. rewrite (String.eqb_sym m n) in Ha.
  destruct (String.eqb n m) eqn:Enm.
  - apply String.eqb_eq in Enm. subst m. cbn in Ha.
    cbn in Hrm. destruct p as [|n' p']; [discriminate Ha|].
    destruct (alookup n kids) as [c0|] eqn:En; [|discriminate].
    destruct (remove c0 (n' :: p')) as [c0'|] eqn:Ep; [|discriminate].
    injection Hrm as <-. cbn. rewrite alookup_aset, String.eqb_refl, En.
    exact (IH c0 c0' q Ep Ha).
  - rewrite String.eqb_sym in Enm. cbn in Hrm.
    destruct (alookup n kids) as [c0|]; [|destruct p; discriminate].
    destruct p.
    + injection Hrm as <-. cbn. rewrite alookup_adel_ne by exact Enm. reflexivity.
    + destruct (remove _ _); [|discriminate].
      injection Hrm as <-. cbn. rewrite alookup_aset, Enm. reflexivity.
Qed.

Lemma apart_sym (p q : path) : apart p q = apart q p.
Proof. unfold apart. apply andb_comm. Qed.

Lemma is_prefix_app_l (p r q : path) : is_prefix (p ++ r) q = true -> is_prefix p q = true.
Proof.
  revert q. induction p as [|a p IH]; intros q H; [reflexivity|].
  destruct q as [|b q]; [discriminate H|].
  cbn in *. apply andb_true_iff in H as [Hab H]. rewrite Hab. exact (IH _ H).
Qed.

(** What lies at or below [t] lies apart from whatever lies apart from [t]. *)
Lemma apart_below (s t r : path) : apart s t = true -> apart (t ++ r) s = true.
Proof.
  intros Ha. unfold apart. apply andb_true_iff. split; apply negb_true_iff.
  - destruct (is_prefix (t ++ r) s) eqn:E; [|reflexivity].
    apply is_prefix_app_l in E. unfold apart in Ha. rewrite E in Ha.
    rewrite andb_false_r in Ha. discriminate Ha.
  - rewrite apart_sym in Ha. exact (apart_off t s (t ++ r) Ha (is_prefix_app t r)).
Qed.

Lemma find_app (p q : path) :
  forall t, find t (p ++ q) = match find t p with Some c => find c q | None => None end.
Proof.
  induction p as [|n p IH]; intros t; [reflexivity|].
  cbn. destruct t as [d|kids|x k]; try reflexivity.
  destruct (alookup n kids) as [c|]; [apply IH | reflexivity].
Qed.

(** Creating directories along [p] leaves the tree at a path apart from [p]
    as it is. *)
Lemma find_mkdir_p_at_apart (root0 : node) (p : path) :
  forall t t' q, mkdir_p_at root0 t p = Some t' -> apart p q = true -> find t' q = find t q.
Proof.
  induction p as [|n p IH]; intros t t' q H Ha; [discriminate Ha|].
  destruct q as [|m q]; [unfold apart in Ha; cbn in Ha; discriminate Ha|].
  destruct t as [d|kids|x k]; try discriminate H.
  cbn in H.
  destruct (mkdir_p_at root0 (default (Dir []) (alookup n kids)) p) as [c'|] eqn:E;
    [|discriminate].
  injection H as <-.
  unfold apart in Ha. cbn in Ha. rewrite (String.eqb_sym m n) in Ha.
  cbn [find]. rewrite alookup_aset. rewrite (String.eqb_sym m n).
  destruct (String.eqb n m) eqn:Enm; [|reflexivity].
  apply String.eqb_eq in Enm. subst m. cbn in Ha.
  rewrite (IH _ _ q E Ha).
  destruct (alookup n kids) as [c0|]; [reflexivity|].
  cbn. destruct q; [|reflexivity].
  cbn in Ha. rewrite andb_false_r in Ha. discriminate Ha.
Qed.

(** A file written and directories created add no link: a link that is
    there afterwards was there before. *)
Lemma put_file_links (p : path) :
  forall t t' d q x k,
    put t p (File d) = Some t' -> find t' q = Some (Link x k) -> find t q = Some (Link x k).
Proof.
  induction p as [|n p IH]; intros t t' d q x k H Hq.
  - injection H as <-. destruct q; discriminate Hq.
  - destruct t as [d0|kids|y ky]; try discriminate H.
    cbn in H. destruct p as [|n' p'].
    + injection H as <-. destruct q as [|m q]; [discriminate Hq|].
      cbn in Hq |- *. rewrite alookup_aset in Hq.
      destruct (String.eqb m n); [destruct q; discriminate Hq | exact Hq].
    + destruct (alookup n kids) as [c0|] eqn:En; [|discriminate].
      destruct (put c0 (n' :: p') (File d)) as [c0'|] eqn:Ep; [|discriminate].
      injection H as <-. destruct q as [|m q]; [discriminate Hq|].
      cbn in Hq |- *. rewrite alookup_aset in Hq.
      destruct (String.eqb m n) eqn:Emn; [|exact Hq].
      apply String.eqb_eq in Emn. subst m. rewrite En.
      exact (IH _ _ _ _ _ _ Ep Hq).
Qed.

Lemma mkdir_p_at_links (root0 : node) (p : path) :
  forall t t' q x k,
    mkdir_p_at root0 t p = Some t' -> find t' q = Some (Link x k) -> find t q = Some (Link x k).
Proof.
  induction p as [|n p IH]; intros t t' q x k H Hq.
  - cbn in H. destruct (node_is_dir root0 t); [|discriminate].
    injection H as <-. exact Hq.
  - destruct t as [d0|kids|y ky]; try discriminate H.
    cbn in H.
    destruct (mkdir_p_at root0 (default (Dir []) (alookup n kids)) p) as [c'|] eqn:E;
      [|discriminate].
    injection H as <-. destruct q as [|m q]; [discriminate Hq|].
    cbn in Hq |- *. rewrite alookup_aset in Hq.
    destruct (String.eqb m n) eqn:Emn; [|exact Hq].
    apply String.eqb_eq in Emn. subst m.
    specialize (IH _ _ _ _ _ E Hq).
    destruct (alookup n kids) as [c0|]; [exact IH|].
    cbn in IH. destruct q; discriminate IH.
Qed.

(** A write through a path that is not a link lands at the path. *)
Lemma write_target_here (root : node) (p : path) (k : nat) :
  (forall x lk, find root p <> Some (Link x lk)) -> write_target k root p = Some p.
Proof.
  intros H. destruct k; cbn [write_target];
    destruct (find root p) as [[d|kids|x [|]]|] eqn:E; try reflexivity;
    destruct (H _ _ eq_refl).
Qed.


End FSFacts.

(** ** The bulk copier removes nothing *)

Module CopyFacts.
Import FS Sys Ops Cli Gui FSFacts TraceFacts.

(** Whatever [m] does, the entries at the paths in [S] stay in place. *)
Definition mono (S : path -> Prop) {A} (m : M A) : Prop :=
  forall w r w', m w = (r, w') -> keeps_on S (fs w) (fs w').

Section Mono.
Variable S : path -> Prop.

Lemma mono_ret {A} (a : A) : mono S (ret a).
Proof. intros w r w' E. injection E as <- <-. apply keeps_on_refl. Qed.

Lemma mono_bind {A B} (m : M A) (k : A -> M B) :
  mono S m -> (forall a, mono S (k a)) -> mono S (bind m k).
Proof.
  intros Hm Hk w r w' E. unfold bind in E.
  destruct (m w) as [[a|e] w1] eqn:Em.
  - exact (keeps_on_trans _ _ _ _ (Hm _ _ _ Em) (Hk a _ _ _ E)).
  - injection E as <- <-. exact (Hm _ _ _ Em).
Qed.

Lemma mono_weaken {A} (S' : path -> Prop) (m : M A) :
  (forall q, S q -> S' q) -> mono S' m -> mono S m.
Proof. intros HS Hm w r w' E. exact (keeps_on_weaken _ _ _ _ HS (Hm _ _ _ E)). Qed.

Lemma mono_ensure_directory (p : path) : mono S (ensure_directory p).
Proof.
  intros w r w' E. unfold ensure_directory, bind, emit, gets, set_fs, raise in E.
  cbn in E. destruct (mkdir_p (fs w) p) as [t'|] eqn:Em; injection E as <- <-; cbn.
  - apply (keeps_on_weaken (fun _ => True)); [auto|]. exact (mkdir_p_keeps _ _ _ Em).
  - apply keeps_on_refl.
Qed.

Lemma put_fresh_keeps (t t' v : node) (p : path) :
  find t p = None -> put t p v = Some t' -> keeps_on S t t'.
Proof.
  intros Hn Hp q c _ Hc. destruct (decide (q = p)) as [->|Hq].
  - congruence.
  - exact (put_keeps p t t' v Hp (or_introl Hn) q c Hq Hc).
Qed.

Lemma mono_copy_if_absent (a b : path) : mono S (copy_if_absent a b).
Proof.
  intros w r w' E. unfold copy_if_absent, bind, gets in E.
  destruct (exists_ (fs w) b) eqn:Ex.
  - injection E as <- <-. apply keeps_on_refl.
  - unfold copy2, bind, emit, gets, set_fs, raise in E. cbn [fs stdin dialogs trace] in E.
    destruct (stat (fs w) a) as [[data|kids|x]|];
      destruct (write_target symloop_max (fs w) b) as [dest|] eqn:Ew;
      try (destruct (put (fs w) dest (File data)) as [t'|] eqn:Ep);
      injection E as <- <-; cbn; try apply keeps_on_refl.
    refine (put_fresh_keeps _ _ _ _ _ Ep).
    apply (write_target_fresh _ _ _ _ Ew).
    unfold exists_, stat in Ex.
    destruct (find (fs w) b) as [c|]; [|reflexivity].
    destruct (follow symloop_max (fs w) c); [discriminate | reflexivity].
Qed.

Lemma mono_copy_files (root0 : node) (src dst : path) (l : kids_t) :
  mono S (copy_files root0 src dst l).
Proof.
  induction l as [|[n c] l IH]; cbn [copy_files]; [apply mono_ret|].
  destruct (entry_is_dir root0 c); [exact IH|].
  apply mono_bind; [apply mono_copy_if_absent | intros _; exact IH].
Qed.

Lemma mono_copy_walk (root0 : node) (t : node) :
  forall src dst, mono S (copy_walk root0 src dst t).
Proof.
  induction t as [d|x|kids IH] using node_ind_nested; intros src dst;
    cbn [copy_walk]; try apply mono_ret.
  apply mono_bind; [apply mono_ensure_directory|intros _].
  apply mono_bind; [apply mono_copy_files|intros _].
  induction IH as [|[n c] l Hc _ IHl]; [apply mono_ret|].
  destruct c; try exact IHl.
  apply mono_bind; [apply Hc | intros _; exact IHl].
Qed.

Lemma mono_fallback_copy (s t : path) : mono S (fallback_copy s t).
Proof.
  intros w r w' E. unfold fallback_copy, bind, emit, gets in E. cbn in E.
  exact (mono_copy_walk _ _ _ _ _ _ _ E).
Qed.

End Mono.

Definition off (t : path) (q : path) : Prop := is_prefix t q = false.

Lemma robocopy_write_keeps (target : path) (t : node) (f : path * string) :
  keeps_on (off target) t (robocopy_write target t f).
Proof.
  unfold robocopy_write.
  destruct (mkdir_p t (parent (target ++ f.1))) as [t1|] eqn:Em; [|apply keeps_on_refl].
  assert (K1 : keeps_on (off target) t t1).
  { apply (keeps_on_weaken (fun _ => True)); [auto|]. exact (mkdir_p_keeps _ _ _ Em). }
  assert (Hw : forall t2, put t1 (target ++ f.1) (File f.2) = Some t2 ->
                          (find t1 (target ++ f.1) = None
                           \/ exists d, find t1 (target ++ f.1) = Some (File d)) ->
                          keeps_on (off target) t t2).
  { intros t2 Hp Hfree. apply (keeps_on_trans _ _ t1); [exact K1|].
    apply (keeps_on_weaken (fun q => q <> target ++ f.1)).
    - intros q Hq ->. unfold off in Hq. rewrite is_prefix_app in Hq. discriminate.
    - exact (put_keeps _ _ _ _ Hp Hfree). }
  destruct (find t1 (target ++ f.1)) as [[d|kids|x]|] eqn:Ef; try apply keeps_on_refl.
  - destruct (put t1 (target ++ f.1) (File f.2)) as [t2|] eqn:Ep; cbn;
      [apply (Hw t2); eauto | apply keeps_on_refl].
  - destruct (put t1 (target ++ f.1) (File f.2)) as [t2|] eqn:Ep; cbn;
      [apply (Hw t2); eauto | apply keeps_on_refl].
Qed.

Lemma mono_run_robocopy (pf : platform) (s t : path) : mono (off t) (run_robocopy pf s t).
Proof.
  intros w r w' E. unfold run_robocopy, bind, emit, gets, set_fs in E. cbn in E.
  destruct (robocopy pf) as [[rc written]|]; [|injection E as <- <-; apply keeps_on_refl].
  cbn in E.
  assert (K : keeps_on (off t) (fs w) (fold_left (robocopy_write t) written (fs w))).
  { clear E. generalize (fs w). induction written as [|f l IH]; intros r0; cbn.
    - apply keeps_on_refl.
    - exact (keeps_on_trans _ _ _ _ (robocopy_write_keeps t r0 f) (IH _)). }
  destruct (rc <=? 7)%Z; injection E as <- <-; exact K.
Qed.

(** The copier keeps every entry that is not at or below the target. *)
Lemma mono_copy_directory (pf : platform) (s t : path) : mono (off t) (copy_directory pf s t).
Proof.
  unfold copy_directory.
  apply mono_bind; [apply mono_ensure_directory|intros _].
  apply mono_bind; [apply mono_run_robocopy|intros used].
  destruct used; [apply mono_ret | apply mono_fallback_copy].
Qed.

End CopyFacts.

(** ** Failing phases *)

Module RunFacts.
Import FS Sys Ops Cli Gui FSFacts TraceFacts CopyFacts.

(** The call of a phase that raises ends the run there: whatever [k] would
    have done is not done. *)
Lemma phase_call_raise {A} (fail : phase -> exn -> A) (ph : phase) (s t : path)
    (op : M unit) (k : M A) (w w1 : world) (e : exn) :
  op (World (fs w) (stdin w) (dialogs w) (trace w ++ [EvBegin ph s t])) = (Raise e, w1) ->
  phase_call fail ph s t op k w = (Ok (fail ph e), w1).
Proof. intros H. unfold phase_call, bind, emit. rewrite H. reflexivity. Qed.

(** Without robocopy the copier is [mkdir] and the manual copy, which keep
    every entry. *)
Lemma copy_directory_keeps (pf : platform) (s t : path) :
  robocopy pf = None -> mono (fun _ => True) (copy_directory pf s t).
Proof.
  intros Hr. unfold copy_directory.
  apply mono_bind; [apply mono_ensure_directory|intros _].
  apply mono_bind.
  - intros w r w' E. unfold run_robocopy, bind, emit, ret in E. rewrite Hr in E.
    injection E as <- <-. apply keeps_on_refl.
  - intros used. destruct used; [apply mono_ret | apply mono_fallback_copy].
Qed.

Lemma copy_step_keeps (pf : platform) (fail : phase -> exn -> outcome) (s t : path)
    (k : M outcome) :
  (forall w a w', k w = (Ok a, w') -> ~ failed_at PhCopy a) ->
  forall w o w',
    robocopy pf = None ->
    phase_call fail PhCopy s t (copy_directory pf s t) k w = (Ok o, w') ->
    failed_at PhCopy o ->
    keeps (fs w) (fs w').
Proof.
  intros Hk w o w' Hr E Ho. unfold phase_call, bind, emit in E.
  match type of E with
  | context [copy_directory pf s t ?w0] =>
      destruct (copy_directory pf s t w0) as [[[]|e] w1] eqn:Ec
  end.
  - destruct (Hk _ _ _ E Ho).
  - injection E as <- <-. exact (copy_directory_keeps pf s t Hr _ _ _ Ec).
Qed.

(** The world in which the call of a phase runs: the call site is noted. *)
Definition noted (ph : phase) (s t : path) (w : world) : world :=
  World (fs w) (stdin w) (dialogs w) (trace w ++ [EvBegin ph s t]).

Lemma phase_call_ok {A} (fail : phase -> exn -> A) (ph : phase) (s t : path)
    (op : M unit) (k : M A) (w w1 : world) :
  op (noted ph s t w) = (Ok tt, w1) ->
  phase_call fail ph s t op k w = k w1.
Proof. intros H. unfold phase_call, bind, emit. fold (noted ph s t w). rewrite H. reflexivity. Qed.

Lemma phase_call_stops {A} (fail : phase -> exn -> A) (ph : phase) (s t : path)
    (op : M unit) (k : M A) (w w1 : world) (e : exn) :
  op (noted ph s t w) = (Raise e, w1) ->
  phase_call fail ph s t op k w = (Ok (fail ph e), w1).
Proof. exact (phase_call_raise fail ph s t op k w w1 e). Qed.

(** C4, what the code does: a robocopy that fails does not fail the copy
    phase.  Here robocopy leaves a cut-off copy of the model file at the
    destination and ends with 8; [run_robocopy] answers [False], the manual
    copy takes over and skips the file, because something is at its
    destination, and [copy_directory] returns.  The run goes on: it deletes
    the source, creates the link and ends as done, with the cut-off file as
    the only copy of the model. *)
Theorem robocopy_failure_deletes_source :
  let w := Demo.boot ["/home/lm"; "/d/t"; "y"] [] in
  let '(r, w') := run_cli Demo.pf_partial w in
  robocopy Demo.pf_partial = Some (8%Z, [(["a.bin"], "ab")])
  /\ find (fs w) ["home"; "lm"; "a.bin"] = Some (File "abc")
  /\ r = Ok (Done true)
  /\ trace w'
     = [EvBegin PhCopy ["home"; "lm"] ["d"; "t"];
        EvMkdir ["d"; "t"];
        EvRobocopy ["home"; "lm"] ["d"; "t"];
        EvFallback ["home"; "lm"] ["d"; "t"];
        EvMkdir ["d"; "t"];
        EvMkdir ["d"; "t"; "sub"];
        EvCopy2 ["home"; "lm"; "sub"; "b"] ["d"; "t"; "sub"; "b"];
        EvBegin PhDelete ["home"; "lm"] ["d"; "t"];
        EvRmtree ["home"; "lm"];
        EvBegin PhLink ["home"; "lm"] ["d"; "t"];
        EvMklink ["home"; "lm"] ["d"; "t"]]
  /\ find (fs w') ["home"; "lm"] = Some (Link ["d"; "t"] Junction)
  /\ find (fs w') ["d"; "t"; "a.bin"] = Some (File "ab").
Proof. vm_compute. repeat split. Qed.

(** X23: a copy that raises stops the run.  When [copy_directory] raises,
    [run_cli] reports the failed copy and returns and the worker of the
    window ends with the exception; over all runs of both front ends, one
    that ended in that way has not reached the call of the source deletion
    nor that of the link creation, and [mklink] was not called.  Where
    robocopy is not installed, so that the copy is the program's own, every
    file, link and directory that was there when the copy started is still in
    place when such a run ends, files with their contents. *)
Theorem copy_raise_stops_run :
  (forall (pf : platform) (s t : path) (w w1 : world) (e : exn),
      copy_directory pf s t (noted PhCopy s t w) = (Raise e, w1) ->
      cli_migrate pf s t w = (Ok (Failed PhCopy e), w1)
      /\ worker pf false false s t w = (Ok (Crashed PhCopy e), w1))
  /\ (forall (pf : platform) (f : form) (root : node) (lines : list string)
          (answers : list bool) (o : outcome) (w' : world),
      let w := World root lines answers [] in
      run_cli pf w = (Ok o, w') \/ start pf f w = (Ok o, w') ->
      failed_at PhCopy o ->
      forall s t, ~ In (EvBegin PhDelete s t) (trace w')
                  /\ ~ In (EvBegin PhLink s t) (trace w')
                  /\ ~ In (EvMklink s t) (trace w'))
  /\ (forall (pf : platform) (s t : path) (w : world) (o : outcome) (w' : world),
        robocopy pf = None ->
        cli_migrate pf s t w = (Ok o, w') \/ worker pf false false s t w = (Ok o, w') ->
        failed_at PhCopy o ->
        keeps (fs w) (fs w')).
Proof.
  split; [|split].
  - intros pf s t w w1 e E. split.
    + unfold cli_migrate. exact (phase_call_stops _ _ _ _ _ _ _ _ _ E).
    + unfold worker, bind, gets. cbn [andb]. exact (phase_call_stops _ _ _ _ _ _ _ _ _ E).
  - intros pf f root lines answers o w' w Hrun Ho s t.
    assert (H : Forall (upto PhCopy) (trace w')).
    { destruct Hrun as [E|E].
      + exact (run_cli_order pf PhCopy (or_introl eq_refl) _ _ _ E Ho (List.Forall_nil _)).
      + exact (start_order pf PhCopy (or_introl eq_refl) f _ _ _ E Ho (List.Forall_nil _)). }
    rewrite List.Forall_forall in H.
    repeat split; intros Hin; apply H in Hin; cbn in Hin; try lia; discriminate.
  - intros pf s t w o w' Hr Hrun Ho.
    destruct Hrun as [E|E].
    + unfold cli_migrate in E.
      refine (copy_step_keeps pf Failed s t _ _ w o w' Hr E Ho). never_tac.
    + unfold worker, bind, gets in E. cbn [andb] in E.
      refine (copy_step_keeps pf Crashed s t _ _ w o w' Hr E Ho). never_tac.
Qed.

(** C5: a run that ends because the deletion of the source raised has not
    reached the call of the link creation, and [mklink] was not called.  A
    deletion that raises does end the run in that way, after a copy and in
    the link-only path alike. *)
Theorem delete_failure_skips_link :
  (forall (pf : platform) (s t : path) (w w1 w2 : world) (e : exn),
      copy_directory pf s t (noted PhCopy s t w) = (Ok tt, w1) ->
      delete_directory pf s (noted PhDelete s t w1) = (Raise e, w2) ->
      cli_migrate pf s t w = (Ok (Failed PhDelete e), w2)
      /\ worker pf false false s t w = (Ok (Crashed PhDelete e), w2))
  /\ (forall (pf : platform) (overwrite : bool) (s t : path) (w w2 : world) (e : exn),
        exists_ (fs w) s = true ->
        delete_directory pf s (noted PhDelete s t w) = (Raise e, w2) ->
        cli_link_only pf s t w = (Ok (Crashed PhDelete e), w2)
        /\ worker pf true overwrite s t w = (Ok (Crashed PhDelete e), w2))
  /\ (forall (pf : platform) (f : form) (root : node) (lines : list string)
             (answers : list bool) (o : outcome) (w' : world),
        let w := World root lines answers [] in
        run_cli pf w = (Ok o, w') \/ start pf f w = (Ok o, w') ->
        failed_at PhDelete o ->
        forall s t, ~ In (EvBegin PhLink s t) (trace w') /\ ~ In (EvMklink s t) (trace w')).
Proof.
  split; [|split].
  - intros pf s t w w1 w2 e Ec Ed. split.
    + unfold cli_migrate. rewrite (phase_call_ok _ _ _ _ _ _ _ _ Ec).
      exact (phase_call_stops _ _ _ _ _ _ _ _ _ Ed).
    + unfold worker, bind, gets. cbn [andb]. rewrite (phase_call_ok _ _ _ _ _ _ _ _ Ec).
      exact (phase_call_stops _ _ _ _ _ _ _ _ _ Ed).
  - intros pf overwrite s t w w2 e Hs Ed.
    assert (E : cli_link_only pf s t w = (Ok (Crashed PhDelete e), w2)).
    { unfold cli_link_only, bind, gets. rewrite Hs.
      exact (phase_call_stops _ _ _ _ _ _ _ _ _ Ed). }
    split; exact E.
  - intros pf f root lines answers o w' w Hrun Ho s t.
    assert (H : Forall (upto PhDelete) (trace w')).
    { destruct Hrun as [E|E].
      + exact (run_cli_order pf PhDelete (or_intror eq_refl) _ _ _ E Ho (List.Forall_nil _)).
      + exact (start_order pf PhDelete (or_intror eq_refl) f _ _ _ E Ho (List.Forall_nil _)). }
    rewrite List.Forall_forall in H.
    split; intros Hin; apply H in Hin; cbn in Hin; try lia; discriminate.
Qed.

Lemma copy_raise_stops_run_witness :
  let w := Demo.boot ["/home/lm"; "/d/note/t"; "y"] [] in
  let w' := snd (run_cli Demo.pf_plain w) in
  fst (run_cli Demo.pf_plain w) = Ok (Failed PhCopy OSError)
  /\ (forall s t, ~ In (EvBegin PhDelete s t) (trace w')
                  /\ ~ In (EvBegin PhLink s t) (trace w')
                  /\ ~ In (EvMklink s t) (trace w'))
  /\ find (fs w') ["home"; "lm"] = Some Demo.models.
Proof.
  split; [vm_compute; reflexivity|]. split; [|vm_compute; reflexivity].
  apply (proj1 (proj2 copy_raise_stops_run) Demo.pf_plain (Form "" "" false false) Demo.disk
           ["/home/lm"; "/d/note/t"; "y"] [] (Failed PhCopy OSError)).
  - left. vm_compute. reflexivity.
  - reflexivity.
Defined.

Lemma delete_failure_skips_link_witness :
  let w := Demo.boot ["/home/lm"; "/d/t"; "y"] [] in
  let w' := snd (run_cli Demo.pf_locked w) in
  fst (run_cli Demo.pf_locked w) = Ok (Failed PhDelete OSError)
  /\ forall s t, ~ In (EvBegin PhLink s t) (trace w') /\ ~ In (EvMklink s t) (trace w').
Proof.
  split; [vm_compute; reflexivity|].
  apply (proj2 (proj2 delete_failure_skips_link) Demo.pf_locked (Form "" "" false false)
           Demo.disk
           ["/home/lm"; "/d/t"; "y"] [] (Failed PhDelete OSError)).
  - left. vm_compute. reflexivity.
  - reflexivity.
Defined.

End RunFacts.


(** ** The paths a run works on *)

Module PathFacts.
Import FS Sys Ops Cli Gui TraceFacts.

(** [p] came out of [Path.resolve()]. *)
Definition resolved (pf : platform) (p : path) : Prop :=
  exists text, p = resolve pf text.

(** The two paths noted at a call site are resolved paths. *)
Definition begin_resolved (pf : platform) (ev : event) : Prop :=
  match ev with
  | EvBegin _ s t => resolved pf s /\ resolved pf t
  | _ => True
  end.

(** [m] returns only values in [Q]. *)
Definition returns {A} (m : M A) (Q : A -> Prop) : Prop :=
  forall w a w', m w = (Ok a, w') -> Q a.

Lemma inv_bind_ret (P : event -> Prop) {A B} (Q : A -> Prop) (m : M A) (k : A -> M B) :
  inv P m -> returns m Q -> (forall a, Q a -> inv P (k a)) -> inv P (bind m k).
Proof.
  intros Hm Hr Hk w r w' E H. unfold bind in E.
  destruct (m w) as [[a|e] w1] eqn:Em.
  - exact (Hk a (Hr _ _ _ Em) _ _ _ E (Hm _ _ _ Em H)).
  - injection E as <- <-. exact (Hm _ _ _ Em H).
Qed.

Lemma prompt_for_path_lines_resolved (pf : platform) (d : option path) (lines : list string) :
  (forall p, d = Some p -> resolved pf p) ->
  forall p rest, prompt_for_path_lines pf d lines = (Ok p, rest) -> resolved pf p.
Proof.
  intros Hd. induction lines as [|l lines IH]; intros p rest E; cbn in E; [discriminate|].
  destruct (if String.eqb (strip l) "" then d else None) as [p0|] eqn:Ed.
  - injection E as <- <-. apply Hd. destruct (String.eqb (strip l) ""); congruence.
  - destruct (negb _).
    + injection E as <- <-. eexists. reflexivity.
    + exact (IH _ _ E).
Qed.

Lemma prompt_for_path_resolved (pf : platform) (d : option path) :
  (forall p, d = Some p -> resolved pf p) ->
  returns (prompt_for_path pf d) (resolved pf).
Proof.
  intros Hd w p w' E. unfold prompt_for_path in E.
  destruct (prompt_for_path_lines pf d (stdin w)) as [r rest] eqn:El.
  injection E as -> <-. exact (prompt_for_path_lines_resolved pf d _ Hd _ _ El).
Qed.

Section Resolved.
Variable pf : platform.
Let P := begin_resolved pf.

Lemma begin_resolved_copy_event (ev : event) : copy_event ev -> P ev.
Proof. destruct ev; cbn; tauto. Qed.

Lemma cli_migrate_resolved (s t : path) :
  resolved pf s -> resolved pf t -> inv P (cli_migrate pf s t).
Proof.
  intros Hs Ht. unfold cli_migrate.
  apply inv_phase_call; [split; assumption | apply inv_copy_directory, begin_resolved_copy_event|].
  apply inv_phase_call; [split; assumption | apply inv_delete_directory; exact I|].
  apply inv_phase_call; [split; assumption | apply inv_create_junction; exact I|].
  inv_auto.
Qed.

Lemma cli_link_only_resolved (s t : path) :
  resolved pf s -> resolved pf t -> inv P (cli_link_only pf s t).
Proof.
  intros Hs Ht. unfold cli_link_only. apply inv_bind; [apply inv_gets|intros r].
  assert (Hl : inv P (phase_call Crashed PhLink s t (create_junction pf s t) (ret Finished))).
  { apply inv_phase_call; [split; assumption | apply inv_create_junction; exact I|].
    apply inv_ret. }
  destruct (exists_ r s); [|exact Hl].
  apply inv_phase_call; [split; assumption | apply inv_delete_directory; exact I | exact Hl].
Qed.

Lemma choose_target_resolved (fuel : nat) (s : path) :
  resolved pf s ->
  inv P (choose_target pf fuel s)
  /\ returns (choose_target pf fuel s)
       (fun d => match d with Proceed t => resolved pf t | Stop _ => True end).
Proof.
  intros Hs. induction fuel as [|fuel [IHi IHr]]; cbn [choose_target].
  - split; [apply inv_raise | intros w a w' E; discriminate E].
  - assert (Hd : forall p, Some (default_target pf) = Some p -> resolved pf p).
    { intros p [= <-]. eexists. reflexivity. }
    split.
    + apply (inv_bind_ret P (resolved pf));
        [apply inv_prompt_for_path | apply prompt_for_path_resolved, Hd | intros t Ht].
      apply inv_bind; [apply inv_collect_dir_info|intros ti].
      destruct (info_exists ti); [|apply inv_ret].
      apply inv_bind; [apply inv_input|intros line].
      repeat match goal with |- inv _ (if ?b then _ else _) => destruct b end;
        try exact IHi; try apply inv_ret.
      * apply inv_bind; [apply inv_ask_yes_no|intros yes].
        destruct (negb yes); [exact IHi|].
        apply inv_phase_call; [split; assumption | apply inv_rmtree; exact I | apply inv_ret].
      * apply inv_bind; [apply inv_ask_yes_no|intros yes].
        destruct (negb yes); [exact IHi|].
        apply inv_bind; [apply cli_link_only_resolved; assumption | intros o; apply inv_ret].
    + intros w d w' E. unfold bind in E.
      destruct (prompt_for_path pf _ w) as [[t|e] w1] eqn:Ep; [|discriminate].
      pose proof (prompt_for_path_resolved pf _ Hd _ _ _ Ep) as Ht.
      unfold collect_dir_info, gets in E.
      destruct (info_exists _).
      * destruct (input w1) as [[line|e] w2]; [|discriminate].
        repeat match type of E with
               | (if ?b then _ else _) _ = _ => destruct b
               end; try exact (IHr _ _ _ E).
        -- destruct (ask_yes_no _ w2) as [[yes|e] w3]; [|discriminate].
           destruct (negb yes); [exact (IHr _ _ _ E)|].
           unfold phase_call, bind, emit, ret in E.
           destruct (rmtree _ _ _) as [[[]|e] w4]; injection E as <- <-; [exact Ht | exact I].
        -- destruct (ask_yes_no _ w2) as [[yes|e] w3]; [|discriminate].
           destruct (negb yes); [exact (IHr _ _ _ E)|].
           destruct (cli_link_only _ _ _ _) as [[o|e] w4]; [|discriminate].
           injection E as <- <-. exact I.
        -- injection E as <- <-. exact I.
      * injection E as <- <-. exact Ht.
Qed.

Lemma run_cli_resolved : inv P (run_cli pf).
Proof.
  unfold run_cli.
  apply inv_bind; [apply inv_ensure_windows|intros _].
  apply (inv_bind_ret P (resolved pf)); [apply inv_prompt_for_path| |intros s Hs].
  { apply prompt_for_path_resolved. intros p [= <-]. eexists. reflexivity. }
  apply inv_bind; [apply inv_collect_dir_info|intros si].
  apply inv_bind.
  { destruct (negb (info_exists si)); [|apply inv_ret].
    apply inv_bind; [apply inv_ask_yes_no|intros yes].
    destruct yes; [|apply inv_ret].
    apply inv_bind; [apply inv_ensure_directory; exact I|intros _]. inv_auto. }
  intros [si'|]; [|apply inv_ret].
  apply inv_bind.
  { destruct (_ && _); [apply inv_ask_yes_no | apply inv_ret]. }
  intros go. destruct (negb go); [apply inv_ret|].
  apply inv_bind; [apply inv_gets|intros n].
  destruct (choose_target_resolved (S n) s Hs) as [Hi Hr].
  apply (inv_bind_ret P _ _ _ Hi Hr).
  intros [t|o] Ht; [|apply inv_ret].
  apply inv_bind; [apply inv_ask_yes_no|intros yes].
  destruct (negb yes); [apply inv_ret|].
  apply cli_migrate_resolved; assumption.
Qed.

Lemma worker_resolved (link_only overwrite : bool) (s t : path) :
  resolved pf s -> resolved pf t -> inv P (worker pf link_only overwrite s t).
Proof.
  intros Hs Ht. unfold worker.
  assert (Hl : inv P (phase_call Crashed PhLink s t (create_junction pf s t) (ret Finished))).
  { apply inv_phase_call; [split; assumption | apply inv_create_junction; exact I|].
    apply inv_ret. }
  assert (Hd : inv P (phase_call Crashed PhDelete s t (delete_directory pf s)
                        (phase_call Crashed PhLink s t (create_junction pf s t) (ret Finished)))).
  { apply inv_phase_call; [split; assumption | apply inv_delete_directory; exact I | exact Hl]. }
  destruct link_only; apply inv_bind; try apply inv_gets; intros r.
  - destruct (exists_ r s); [exact Hd | exact Hl].
  - assert (Hc : inv P (phase_call Crashed PhCopy s t (copy_directory pf s t)
                          (phase_call Crashed PhDelete s t (delete_directory pf s)
                             (phase_call Crashed PhLink s t (create_junction pf s t)
                                (ret Finished))))).
    { apply inv_phase_call;
        [split; assumption | apply inv_copy_directory, begin_resolved_copy_event | exact Hd]. }
    destruct (overwrite && exists_ r t); [|exact Hc].
    apply inv_phase_call; [split; assumption | apply inv_rmtree; exact I | exact Hc].
Qed.

Lemma start_resolved (f : form) : inv P (start pf f).
Proof.
  unfold start.
  apply inv_bind; [apply inv_ensure_windows|intros _].
  destruct (String.eqb _ ""); [apply inv_ret|].
  destruct (String.eqb _ ""); [apply inv_ret|].
  apply inv_bind; [apply inv_collect_dir_info|intros si].
  apply inv_bind; [apply inv_collect_dir_info|intros ti].
  apply inv_bind.
  { destruct (negb (info_exists si)); [|apply inv_ret].
    apply inv_bind; [apply inv_askyesno|intros yes].
    destruct (negb yes); [apply inv_ret|].
    intros w r w' E H.
    destruct (ensure_directory _ w) as [[[]|e] w1] eqn:Em; injection E as <- <-;
      exact (inv_ensure_directory P _ I _ _ _ Em H). }
  intros [o|]; [apply inv_ret|].
  apply inv_bind.
  { destruct (negb (info_exists si)); [apply inv_collect_dir_info | apply inv_ret]. }
  intros si'. apply inv_bind.
  { destruct (_ && _); [apply inv_askyesno | apply inv_ret]. }
  intros go. destruct (negb go); [apply inv_ret|].
  apply inv_bind.
  { destruct (_ && _); [|apply inv_ret].
    destruct (overwrite_var f); [|apply inv_ret].
    apply inv_bind; [apply inv_askyesno|intros yes]. apply inv_ret. }
  intros [o|]; [apply inv_ret|].
  apply inv_bind; [apply inv_askyesno|intros yes].
  destruct (negb yes); [apply inv_ret|].
  apply worker_resolved; eexists; reflexivity.
Qed.

End Resolved.

(** C2, as the code has it: at the call site of every mutating phase of a
    run, of either front end, the source and the target are paths that came
    out of [Path.resolve()].  Nothing compares the two. *)
Theorem phase_paths_resolved (pf : platform) (f : form) (root : node)
    (lines : list string) (answers : list bool) (r : result outcome) (w' : world) :
  let w := World root lines answers [] in
  run_cli pf w = (r, w') \/ start pf f w = (r, w') ->
  forall ph s t, In (EvBegin ph s t) (trace w') -> resolved pf s /\ resolved pf t.
Proof.
  intros w Hrun ph s t Hin.
  assert (H : Forall (begin_resolved pf) (trace w')).
  { destruct Hrun as [E|E].
    - exact (run_cli_resolved pf _ _ _ E (List.Forall_nil _)).
    - exact (start_resolved pf f _ _ _ E (List.Forall_nil _)). }
  rewrite List.Forall_forall in H. exact (H _ Hin).
Qed.

Lemma phase_paths_resolved_witness :
  resolved Demo.pf_plain ["home"; "lm"] /\ resolved Demo.pf_plain ["d"; "t"].
Proof.
  refine (phase_paths_resolved Demo.pf_plain (Form "" "" false false) Demo.disk
            ["/home/lm"; "/d/t"; "y"] []
            (fst (run_cli Demo.pf_plain (Demo.boot ["/home/lm"; "/d/t"; "y"] [])))
            (snd (run_cli Demo.pf_plain (Demo.boot ["/home/lm"; "/d/t"; "y"] [])))
            _ PhCopy _ _ _).
  - left. vm_compute. reflexivity.
  - vm_compute. left. reflexivity.
Defined.

(** C2 fails as stated: the same path typed for the source and for the
    target, with "delete the target and copy" chosen and confirmed, starts
    the overwrite deletion on source = target; the run deletes the models,
    finds nothing left to copy, and ends with a link that points at itself. *)
Lemma phase_paths_not_distinct :
  let w' := snd (run_cli Demo.pf_plain
                   (Demo.boot ["/home/lm"; "/home/lm"; "2"; "y"; "y"] [])) in
  hd_error (trace w') = Some (EvBegin PhOverwrite ["home"; "lm"] ["home"; "lm"])
  /\ find Demo.disk ["home"; "lm"] = Some Demo.models
  /\ find (fs w') ["home"; "lm"] = Some (Link ["home"; "lm"] Junction).
Proof. vm_compute. repeat split. Qed.

End PathFacts.

(** ** Linking to a target that is there *)

Module LinkFacts.
Import FS Sys Ops Cli Gui FSFacts TraceFacts.


Lemma find_put_same (p : path) :
  forall t t' v, put t p v = Some t' -> find t' p = Some v.
Proof.
  induction p as [|n p IH]; intros t t' v H.
  - injection H as <-. reflexivity.
  - destruct t as [d|kids|x]; try discriminate H. cbn in H. destruct p as [|n' p'].
    + injection H as <-. cbn. rewrite alookup_aset, String.eqb_refl. reflexivity.
    + destruct (alookup n kids) as [c0|]; [|discriminate].
      destruct (put c0 (n' :: p') v) as [c0'|] eqn:Ep; [|discriminate].
      injection H as <-. cbn [find]. rewrite alookup_aset, String.eqb_refl.
      exact (IH _ _ _ Ep).
Qed.



Lemma create_junction_effect (pf : platform) (l t : path) (w w' : world) (r : result unit) :
  create_junction pf l t w = (r, w') ->
  (r = Ok tt -> find (fs w') l = Some (Link t Junction))
  /\ (forall q, apart l q = true -> find (fs w') q = find (fs w) q).
Proof.
  intros E. unfold create_junction, bind, gets, raise in E.
  destruct (exists_ (fs w) l || is_symlink (fs w) l).
  { injection E as <- <-. split; [discriminate | reflexivity]. }
  unfold mklink, emit, set_fs, ret in E. cbn [fs stdin dialogs trace] in E.
  destruct (mklink_denied pf).
  { cbn in E. injection E as <- <-. split; [discriminate | reflexivity]. }
  destruct (find (fs w) l).
  { cbn in E. injection E as <- <-. split; [discriminate | reflexivity]. }
  destruct (put (fs w) l (Link t Junction)) as [t'|] eqn:Ep; cbn in E; injection E as <- <-.
  - split; cbn.
    + intros _. exact (find_put_same _ _ _ _ Ep).
    + intros q Ha. exact (find_put_apart _ _ _ _ _ Ep Ha).
  - split; [discriminate | reflexivity].
Qed.






End LinkFacts.


(** ** The manual copy *)

Module FallbackFacts.
Import FS Sys Ops Cli Gui FSFacts TraceFacts CopyFacts.

(** [stat] with [k] links allowed after the first entry. *)
Definition stat_k (k : nat) (t : node) (p : path) : option node :=
  match find t p with
  | Some c => follow k t c
  | None => None
  end.

(** After a write through [p] landed, [p] names the file written. *)
Lemma write_target_lands (t t' : node) (d : string) (dest : path) (k : nat) :
  keeps t t' -> find t' dest = Some (File d) ->
  forall p, write_target k t p = Some dest -> stat_k k t' p = Some (File d).
Proof.
  intros Hk Hd. induction k as [|k IH]; intros p Hw; unfold stat_k.
  - cbn in Hw. destruct (find t p) as [[d0|kids|x [|]]|] eqn:E; try discriminate;
      injection Hw as <-; rewrite Hd; reflexivity.
  - cbn in Hw. destruct (find t p) as [[d0|kids|x [|]]|] eqn:E; try discriminate Hw;
      try (injection Hw as <-; rewrite Hd; reflexivity).
    destruct (Hk p _ I E) as (c' & Ec' & K). cbn in K. subst c'.
    rewrite Ec'. cbn. exact (IH _ Hw).
Qed.

(** The property of the world that the manual copy maintains, [w0] being the
    world it started in: nothing that was there is gone, and [copy2] was only
    called for a destination that did not exist. *)
Definition careful (w0 w : world) : Prop :=
  keeps (fs w0) (fs w)
  /\ forall a b, In (EvCopy2 a b) (trace w) ->
                 In (EvCopy2 a b) (trace w0) \/ exists_ (fs w0) b = false.

Definition pres (I : world -> Prop) {A} (m : M A) : Prop :=
  forall w r w', m w = (r, w') -> I w -> I w'.

Section Careful.
Variable w0 : world.

Lemma pres_ret {A} (a : A) : pres (careful w0) (ret a).
Proof. intros w r w' E H. injection E as <- <-. exact H. Qed.

Lemma pres_bind {A B} (m : M A) (k : A -> M B) :
  pres (careful w0) m -> (forall a, pres (careful w0) (k a)) -> pres (careful w0) (bind m k).
Proof.
  intros Hm Hk w r w' E H. unfold bind in E.
  destruct (m w) as [[a|e] w1] eqn:Em.
  - exact (Hk a _ _ _ E (Hm _ _ _ Em H)).
  - injection E as <- <-. exact (Hm _ _ _ Em H).
Qed.

Lemma pres_ensure_directory (p : path) : pres (careful w0) (ensure_directory p).
Proof.
  intros w r w' E [Hk Hc]. split.
  - exact (keeps_on_trans _ _ _ _ Hk (mono_ensure_directory _ p _ _ _ E)).
  - intros a b Hin. apply Hc.
    unfold ensure_directory, bind, emit, gets, set_fs, raise in E.
    cbn [fs stdin dialogs trace] in E.
    destruct (mkdir_p (fs w) p); injection E as <- <-; cbn in Hin;
      apply in_app_or in Hin as [Hin|[Hin|[]]]; try exact Hin; discriminate Hin.
Qed.

Lemma pres_copy_if_absent (a b : path) : pres (careful w0) (copy_if_absent a b).
Proof.
  intros w r w' E [Hk Hc]. split.
  - exact (keeps_on_trans _ _ _ _ Hk (mono_copy_if_absent _ a b _ _ _ E)).
  - intros a' b' Hin.
    unfold copy_if_absent, bind, gets in E.
    destruct (exists_ (fs w) b) eqn:Ex.
    + injection E as <- <-. exact (Hc _ _ Hin).
    + assert (Ht : trace w' = trace w ++ [EvCopy2 a b]).
      { unfold copy2, bind, emit, gets, set_fs, raise in E.
        cbn [fs stdin dialogs trace] in E.
        destruct (stat (fs w) a) as [[data|kids|x]|];
          destruct (write_target symloop_max (fs w) b) as [dest|];
          try (destruct (put (fs w) dest (File data)) as [t'|]);
          injection E as <- <-; reflexivity. }
      rewrite Ht in Hin. apply in_app_or in Hin as [Hin|[Hin|[]]]; [exact (Hc _ _ Hin)|].
      injection Hin as <- <-. right.
      destruct (exists_ (fs w0) b) eqn:E0; [|reflexivity].
      rewrite (keeps_exists _ _ _ Hk E0) in Ex. discriminate.
Qed.

Lemma pres_copy_files (root0 : node) (src dst : path) (l : kids_t) :
  pres (careful w0) (copy_files root0 src dst l).
Proof.
  induction l as [|[n c] l IH]; cbn [copy_files]; [apply pres_ret|].
  destruct (entry_is_dir root0 c); [exact IH|].
  apply pres_bind; [apply pres_copy_if_absent | intros _; exact IH].
Qed.

Lemma pres_copy_walk (root0 : node) (t : node) :
  forall src dst, pres (careful w0) (copy_walk root0 src dst t).
Proof.
  induction t as [d|x|kids IH] using node_ind_nested; intros src dst;
    cbn [copy_walk]; try apply pres_ret.
  apply pres_bind; [apply pres_ensure_directory|intros _].
  apply pres_bind; [apply pres_copy_files|intros _].
  induction IH as [|[n c] l Hc _ IHl]; [apply pres_ret|].
  destruct c; try exact IHl.
  apply pres_bind; [apply Hc | intros _; exact IHl].
Qed.

End Careful.

Lemma fallback_copy_careful (s t : path) (w : world) (r : result unit) (w' : world) :
  fallback_copy s t w = (r, w') -> careful w w'.
Proof.
  intros E. unfold fallback_copy, bind, emit, gets in E. cbn [fs stdin dialogs trace] in E.
  refine (pres_copy_walk w _ _ _ _ _ _ _ E _). split.
  - apply keeps_on_refl.
  - intros a b Hin. cbn in Hin. apply in_app_or in Hin as [Hin|[Hin|[]]];
      [left; exact Hin | discriminate Hin].
Qed.

(** *** Running the manual copy again *)

(** Every component of [p] is there below [t] as a directory, the last one
    possibly through a link: [mkdir] has nothing to do. *)
Fixpoint ready (root t : node) (p : path) : Prop :=
  match p with
  | [] => node_is_dir root t = true
  | n :: q =>
      match t with
      | Dir kids =>
          match alookup n kids with
          | Some c => ready root c q
          | None => False
          end
      | _ => False
      end
  end.

Lemma mkdir_p_at_ready (root : node) (p : path) :
  forall t t', mkdir_p_at root t p = Some t' -> ready root t' p.
Proof.
  induction p as [|n p IH]; intros t t' H.
  - cbn in H. destruct (node_is_dir root t) eqn:E; [|discriminate].
    injection H as <-. exact E.
  - destruct t as [d|kids|x]; try discriminate H. cbn in H.
    destruct (mkdir_p_at root (default (Dir []) (alookup n kids)) p) as [c'|] eqn:E;
      [|discriminate].
    injection H as <-. cbn. rewrite alookup_aset, String.eqb_refl. exact (IH _ _ E).
Qed.

Lemma keeps_child (n : string) (kids kids2 : kids_t) (c : node) :
  keeps (Dir kids) (Dir kids2) -> alookup n kids = Some c ->
  exists c2, alookup n kids2 = Some c2 /\ keeps c c2.
Proof.
  intros Hk En.
  destruct (Hk [n] c I) as (c2 & E2 & _); [cbn; rewrite En; reflexivity|].
  cbn in E2. destruct (alookup n kids2) as [c2'|] eqn:En2; [|discriminate].
  injection E2 as ->. exists c2. split; [reflexivity|].
  intros q x _ Hx. destruct (Hk (n :: q) x I) as (x' & Ex' & K).
  - cbn. rewrite En. exact Hx.
  - cbn in Ex'. rewrite En2 in Ex'. exists x'. split; assumption.
Qed.

Lemma ready_keeps (root root2 : node) (p : path) :
  keeps root root2 ->
  forall t t2, keeps t t2 -> ready root t p -> ready root2 t2 p.
Proof.
  intros Hr. induction p as [|n p IH]; intros t t2 Ht H.
  - cbn in *. destruct (Ht [] t I eq_refl) as (c' & Ec & K).
    cbn in Ec. injection Ec as <-.
    exact (keeps_node_is_dir _ _ _ _ Hr K H).
  - cbn in H. destruct t as [d|kids|x]; try contradiction.
    destruct (alookup n kids) as [c|] eqn:En; [|contradiction].
    destruct (Ht [] _ I eq_refl) as (c' & Ec & [kids2 K]).
    cbn in Ec. injection Ec as <-. subst t2.
    destruct (keeps_child _ _ _ _ Ht En) as (c2 & En2 & Hc).
    cbn. rewrite En2. exact (IH _ _ Hc H).
Qed.

Lemma ready_mkdir (root : node) (p : path) :
  forall t, ready root t p -> mkdir_p_at root t p = Some t.
Proof.
  induction p as [|n p IH]; intros t H.
  - cbn in *. rewrite H. reflexivity.
  - cbn in H. destruct t as [d|kids|x]; try contradiction.
    destruct (alookup n kids) as [c|] eqn:En; [|contradiction].
    cbn. rewrite En. cbn. rewrite (IH _ H), (aset_same _ _ _ En). reflexivity.
Qed.

(** The files of a listing are all there at the destination. *)
Definition files_there (root0 cur : node) (dst : path) (l : kids_t) : Prop :=
  Forall (fun nc => entry_is_dir root0 (snd nc) = false ->
                    exists_ cur (dst ++ [fst nc]) = true) l.

(** In [cur], the walk of [t] with destination [dst] finds every directory
    made and every file in place. *)
Fixpoint settled (root0 cur : node) (dst : path) (t : node) {struct t} : Prop :=
  match t with
  | Dir kids =>
      ready cur cur dst
      /\ files_there root0 cur dst kids
      /\ (fix subdirs (l : kids_t) : Prop :=
            match l with
            | [] => True
            | (n, c) :: l' =>
                match c with
                | Dir _ => settled root0 cur (dst ++ [n]) c
                | _ => True
                end /\ subdirs l'
            end) kids
  | _ => True
  end.

Lemma ensure_directory_ok (p : path) (w w1 : world) :
  ensure_directory p w = (Ok tt, w1) -> mkdir_p (fs w) p = Some (fs w1).
Proof.
  unfold ensure_directory, bind, emit, gets, set_fs, raise.
  cbn [fs stdin dialogs trace].
  destruct (mkdir_p (fs w) p); intros E; [|discriminate].
  injection E as <-. reflexivity.
Qed.

Lemma copy_if_absent_exists (a b : path) (w w' : world) :
  copy_if_absent a b w = (Ok tt, w') -> exists_ (fs w') b = true.
Proof.
  intros E. unfold copy_if_absent, bind, gets in E.
  destruct (exists_ (fs w) b) eqn:Ex.
  - injection E as <-. exact Ex.
  - unfold copy2, bind, emit, gets, set_fs, raise in E.
    cbn [fs stdin dialogs trace] in E.
    destruct (stat (fs w) a) as [[data|kids|x]|];
      destruct (write_target symloop_max (fs w) b) as [dest|] eqn:Ew;
      try (destruct (put (fs w) dest (File data)) as [t'|] eqn:Ep);
      try discriminate E.
    injection E as <-. cbn [fs].
    assert (Hn : find (fs w) dest = None).
    { apply (write_target_fresh _ _ _ _ Ew).
      unfold exists_, stat in Ex.
      destruct (find (fs w) b) as [c|]; [|reflexivity].
      destruct (follow symloop_max (fs w) c); [discriminate | reflexivity]. }
    pose proof (write_target_lands (fs w) t' data dest symloop_max
                  (put_fresh_keeps _ _ _ _ _ Hn Ep)
                  (LinkFacts.find_put_same _ _ _ _ Ep) b Ew) as Hs.
    unfold exists_, stat. unfold stat_k in Hs. rewrite Hs. reflexivity.
Qed.

Lemma copy_files_there (root0 : node) (src dst : path) (l : kids_t) :
  forall w w', copy_files root0 src dst l w = (Ok tt, w') ->
  forall cur, keeps (fs w') cur -> files_there root0 cur dst l.
Proof.
  induction l as [|[n c] l IH]; intros w w' E cur Hk; [constructor|].
  cbn [copy_files] in E. destruct (entry_is_dir root0 c) eqn:Ed.
  - constructor; [cbn; congruence | exact (IH _ _ E cur Hk)].
  - unfold bind in E.
    destruct (copy_if_absent (src ++ [n]) (dst ++ [n]) w) as [[[]|e] w1] eqn:Ec;
      [|discriminate].
    constructor; [|exact (IH _ _ E cur Hk)].
    intros _. cbn.
    apply (keeps_exists (fs w') cur _ Hk).
    apply (keeps_exists (fs w1) (fs w') _ (mono_copy_files _ _ _ _ _ _ _ _ E)).
    exact (copy_if_absent_exists _ _ _ _ Ec).
Qed.

Lemma files_there_later (root0 root0' cur : node) (dst : path) (l : kids_t) :
  keeps root0 root0' -> files_there root0 cur dst l -> files_there root0' cur dst l.
Proof.
  intros Hk H. unfold files_there in *.
  induction H as [|[n c] l Hc _ IH]; constructor; [|exact IH].
  cbn in *. intros Hd. apply Hc.
  destruct (entry_is_dir root0 c) eqn:E; [|reflexivity].
  rewrite (keeps_entry_is_dir _ _ _ _ Hk (same_kind_refl c) E) in Hd. discriminate.
Qed.

(** A walk that went through leaves its destination settled, and it stays
    settled whatever is added later. *)
Lemma copy_walk_settles (root0 : node) (t : node) :
  forall src dst w w',
    copy_walk root0 src dst t w = (Ok tt, w') ->
    forall cur root0', keeps (fs w') cur -> keeps root0 root0' ->
                       settled root0' cur dst t.
Proof.
  induction t as [d|x|kids IH] using node_ind_nested; intros src dst w w' E cur root0' Hc Hr;
    try exact I.
  cbn [copy_walk] in E. unfold bind at 1 in E.
  destruct (ensure_directory dst w) as [[[]|e] w1] eqn:E1; [|discriminate].
  unfold bind at 1 in E.
  destruct (copy_files root0 src dst kids w1) as [[[]|e] w2] eqn:E2; [|discriminate].
  assert (Hsub : keeps (fs w2) (fs w')
                 /\ (keeps (fs w') cur ->
                     (fix subdirs (l : kids_t) : Prop :=
                        match l with
                        | [] => True
                        | (n, c) :: l' =>
                            match c with
                            | Dir _ => settled root0' cur (dst ++ [n]) c
                            | _ => True
                            end /\ subdirs l'
                        end) kids)).
  { clear E1 E2 Hc. revert w2 E.
    induction IH as [|[n c] l Hn _ IHl]; intros w2 E.
    - injection E as <-. split; [apply keeps_on_refl | intros _; exact I].
    - cbn in Hn. destruct c as [d|kids'|x].
      + destruct (IHl _ E) as [K S]. split; [exact K | intros Hc; split; [exact I | exact (S Hc)]].
      + unfold bind in E.
        destruct (copy_walk root0 (src ++ [n]) (dst ++ [n]) (Dir kids') w2)
          as [[[]|e] w3] eqn:E3; [|discriminate].
        destruct (IHl _ E) as [K S].
        pose proof (mono_copy_walk (fun _ => True) _ _ _ _ _ _ _ E3) as K3.
        split; [exact (keeps_on_trans _ _ _ _ K3 K)|].
        intros Hc. split; [|exact (S Hc)].
        exact (Hn _ _ _ _ E3 cur root0' (keeps_on_trans _ _ _ _ K Hc) Hr).
      + destruct (IHl _ E) as [K S]. split; [exact K | intros Hc; split; [exact I | exact (S Hc)]]. }
  destruct Hsub as [K2 Hsub].
  pose proof (mono_ensure_directory (fun _ => True) _ _ _ _ E1) as K0.
  pose proof (mono_copy_files (fun _ => True) _ _ _ _ _ _ _ E2) as K1.
  assert (Kw1 : keeps (fs w1) cur).
  { exact (keeps_on_trans _ _ _ _ K1 (keeps_on_trans _ _ _ _ K2 Hc)). }
  cbn [settled]. split; [|split].
  - apply (ready_keeps (fs w) cur dst (keeps_on_trans _ _ _ _ K0 Kw1) (fs w1) cur Kw1).
    apply (mkdir_p_at_ready (fs w) dst (fs w)). exact (ensure_directory_ok _ _ _ E1).
  - apply (files_there_later root0 root0' _ _ _ Hr).
    exact (copy_files_there _ _ _ _ _ _ E2 cur (keeps_on_trans _ _ _ _ K2 Hc)).
  - exact (Hsub Hc).
Qed.

(** Worlds that differ only in what was recorded, with no [copy2] added. *)
Definition only_looked (w w1 : world) : Prop :=
  fs w1 = fs w /\ stdin w1 = stdin w /\ dialogs w1 = dialogs w
  /\ forall a b, In (EvCopy2 a b) (trace w1) -> In (EvCopy2 a b) (trace w).

Lemma only_looked_refl (w : world) : only_looked w w.
Proof. repeat split; auto. Qed.

Lemma only_looked_trans (w w1 w2 : world) :
  only_looked w w1 -> only_looked w1 w2 -> only_looked w w2.
Proof.
  intros (F1 & S1 & D1 & T1) (F2 & S2 & D2 & T2).
  repeat split; try congruence. auto.
Qed.

Lemma copy_if_absent_skip (a b : path) (w : world) :
  exists_ (fs w) b = true -> copy_if_absent a b w = (Ok tt, w).
Proof.
  intros H. unfold copy_if_absent, bind, gets. cbv beta iota. rewrite H. reflexivity.
Qed.

Lemma copy_files_settled (root0 : node) (src dst : path) (l : kids_t) (w : world) :
  files_there root0 (fs w) dst l -> copy_files root0 src dst l w = (Ok tt, w).
Proof.
  intros H. unfold files_there in H.
  induction H as [|[n c] l Hc _ IH]; [reflexivity|].
  cbn [copy_files]. cbn in Hc. destruct (entry_is_dir root0 c); [exact IH|].
  unfold bind. rewrite (copy_if_absent_skip _ _ _ (Hc eq_refl)). exact IH.
Qed.

Lemma ensure_directory_settled (p : path) (w : world) :
  ready (fs w) (fs w) p ->
  exists w1, ensure_directory p w = (Ok tt, w1) /\ only_looked w w1.
Proof.
  intros H. unfold ensure_directory, bind, emit, gets, set_fs.
  cbn [fs stdin dialogs trace]. unfold mkdir_p. rewrite (ready_mkdir _ _ _ H).
  eexists. split; [reflexivity|]. repeat split. cbn.
  intros a b Hin. apply in_app_or in Hin as [Hin|[Hin|[]]]; [exact Hin | discriminate Hin].
Qed.

(** In a settled world the walk only looks. *)
Lemma settled_noop (root0 : node) (t : node) :
  forall src dst w,
    settled root0 (fs w) dst t ->
    exists w1, copy_walk root0 src dst t w = (Ok tt, w1) /\ only_looked w w1.
Proof.
  induction t as [d|x|kids IH] using node_ind_nested; intros src dst w H;
    try (exists w; split; [reflexivity | apply only_looked_refl]).
  cbn [settled] in H. destruct H as (Hr & Hf & Hs).
  destruct (ensure_directory_settled dst w Hr) as (w1 & E1 & L1).
  cbn [copy_walk]. unfold bind at 1. rewrite E1.
  unfold bind at 1.
  assert (F1 : fs w1 = fs w) by exact (proj1 L1).
  rewrite copy_files_settled by (rewrite F1; exact Hf).
  rewrite <- F1 in Hs. clear Hr Hf E1.
  assert (G : exists w2,
            (fix subdirs (l : kids_t) : M unit :=
               match l with
               | [] => ret tt
               | (n, c) :: l' =>
                   match c with
                   | Dir _ => run copy_walk root0 (src ++ [n]) (dst ++ [n]) c; subdirs l'
                   | _ => subdirs l'
                   end
               end) kids w1 = (Ok tt, w2) /\ only_looked w1 w2).
  { clear L1 F1. revert w1 Hs.
    induction IH as [|[n c] l Hn _ IHl]; intros w1 Hs.
    - exists w1. split; [reflexivity | apply only_looked_refl].
    - destruct Hs as [Hc Hs]. cbn in Hn. destruct c as [d|kids'|x]; try exact (IHl _ Hs).
      destruct (Hn (src ++ [n]) (dst ++ [n]) w1 Hc) as (w2 & E2 & L2).
      unfold bind. rewrite E2.
      assert (F2 : fs w2 = fs w1) by exact (proj1 L2).
      rewrite <- F2 in Hs.
      destruct (IHl _ Hs) as (w3 & E3 & L3).
      exists w3. split; [exact E3 | exact (only_looked_trans _ _ _ L2 L3)]. }
  destruct G as (w2 & E2 & L2).
  exists w2. split; [exact E2 | exact (only_looked_trans _ _ _ L1 L2)].
Qed.

(** Every [copy2] goes from a file below the source to the path that
    mirrors it below the target. *)
Definition mirrored (s t : path) (ev : event) : Prop :=
  match ev with
  | EvCopy2 a b => exists rel, a = s ++ rel /\ b = t ++ rel
  | _ => True
  end.

Lemma inv_mirrored_files (s t : path) (root0 : node) (rel : path) (l : kids_t) :
  inv (mirrored s t) (copy_files root0 (s ++ rel) (t ++ rel) l).
Proof.
  induction l as [|[n c] l IH]; cbn [copy_files]; [apply inv_ret|].
  destruct (entry_is_dir root0 c); [exact IH|].
  apply inv_bind; [|intros _; exact IH].
  unfold copy_if_absent. apply inv_bind; [apply inv_gets|intros r].
  destruct (exists_ r _); [apply inv_ret|].
  unfold copy2. apply inv_bind; [|intros _; inv_auto].
  apply inv_emit. exists (rel ++ [n]). rewrite !app_assoc. split; reflexivity.
Qed.

Lemma inv_mirrored_walk (s t : path) (root0 : node) (tr : node) :
  forall rel, inv (mirrored s t) (copy_walk root0 (s ++ rel) (t ++ rel) tr).
Proof.
  induction tr as [d|x|kids IH] using node_ind_nested; intros rel;
    cbn [copy_walk]; try apply inv_ret.
  apply inv_bind; [apply inv_ensure_directory; exact I|intros _].
  apply inv_bind; [apply inv_mirrored_files|intros _].
  induction IH as [|[n c] l Hc _ IHl]; [apply inv_ret|].
  destruct c; try exact IHl.
  apply inv_bind; [|intros _; exact IHl].
  rewrite <- !app_assoc. apply Hc.
Qed.

(** *** When running again writes nothing *)

(** No link and no file is on the way to [p]: every component of [p] short of
    the last that is there is a directory. *)
Fixpoint plain (t : node) (p : path) : bool :=
  match p with
  | [] => true
  | n :: q =>
      match t with
      | Dir kids => match alookup n kids with Some c => plain c q | None => true end
      | _ => false
      end
  end.

Fixpoint link_free (t : node) : bool :=
  match t with
  | File _ => true
  | Link _ _ => false
  | Dir kids =>
      (fix all (l : kids_t) : bool :=
         match l with
         | [] => true
         | (_, c) :: l' => link_free c && all l'
         end) kids
  end.

(** No link lies on the way to [p], at [p] or below it. *)
Definition link_free_below (root : node) (p : path) : bool :=
  plain root p && match find root p with Some c => link_free c | None => true end.

Lemma link_free_child (n : string) (kids : kids_t) (c : node) :
  link_free (Dir kids) = true -> alookup n kids = Some c -> link_free c = true.
Proof.
  induction kids as [|[m c0] l IH]; cbn [alookup]; [discriminate|].
  intros H. change (link_free c0 && link_free (Dir l) = true) in H.
  apply andb_true_iff in H as [H0 Hl].
  destruct (String.eqb n m); [intros [= <-]; exact H0 | exact (IH Hl)].
Qed.

Lemma link_free_find (q : path) :
  forall c x k, link_free c = true -> find c q <> Some (Link x k).
Proof.
  induction q as [|n q IH]; intros c x k H.
  - cbn. intros [= ->]. discriminate H.
  - destruct c as [d|kids|y ky]; try discriminate. cbn [find].
    destruct (alookup n kids) as [c0|] eqn:En; [|discriminate].
    exact (IH c0 x k (link_free_child _ _ _ H En)).
Qed.

Lemma link_free_below_find (root : node) (p r : path) (x : path) (k : link_kind) :
  link_free_below root p = true -> find root (p ++ r) <> Some (Link x k).
Proof.
  unfold link_free_below. intros H. apply andb_true_iff in H as [_ H].
  rewrite find_app. destruct (find root p) as [c|]; [|discriminate].
  exact (link_free_find r c x k H).
Qed.

Lemma pres_ret_any (I : world -> Prop) {A} (a : A) : pres I (ret a).
Proof. intros w r w' E H. injection E as <- <-. exact H. Qed.

Lemma pres_bind_any (I : world -> Prop) {A B} (m : M A) (k : A -> M B) :
  pres I m -> (forall a, pres I (k a)) -> pres I (bind m k).
Proof.
  intros Hm Hk w r w' E H. unfold bind in E.
  destruct (m w) as [[a|e] w1] eqn:Em.
  - exact (Hk a _ _ _ E (Hm _ _ _ Em H)).
  - injection E as <- <-. exact (Hm _ _ _ Em H).
Qed.

Section Rerun.
Variables s t : path.
Variable root0 : node.
Hypothesis Hapart : apart s t = true.

(** Nothing at or below the target is a link, and the source tree is what it
    was in [root0]. *)
Definition tidy (w : world) : Prop :=
  (forall r x k, find (fs w) (t ++ r) <> Some (Link x k))
  /\ find (fs w) s = find root0 s.

Lemma tidy_ensure_directory (rel : path) : pres tidy (ensure_directory (t ++ rel)).
Proof.
  intros w r w' E [Hl Hs]. unfold ensure_directory, bind, emit, gets, set_fs, raise in E.
  cbn [fs stdin dialogs trace] in E.
  destruct (mkdir_p (fs w) (t ++ rel)) as [t'|] eqn:Em; injection E as <- <-; cbn [fs];
    [|split; assumption].
  split.
  - intros r0 x k Hf. exact (Hl r0 x k (mkdir_p_at_links _ _ _ _ _ _ _ Em Hf)).
  - cbn [fs]. rewrite (find_mkdir_p_at_apart _ _ _ _ s Em (apart_below s t rel Hapart)).
    exact Hs.
Qed.

Lemma tidy_copy_if_absent (a rel : path) : pres tidy (copy_if_absent a (t ++ rel)).
Proof.
  intros w r w' E [Hl Hs]. unfold copy_if_absent, bind, gets in E.
  destruct (exists_ (fs w) (t ++ rel)); [injection E as <- <-; split; assumption|].
  unfold copy2, bind, emit, gets, set_fs, raise in E. cbn [fs stdin dialogs trace] in E.
  rewrite (write_target_here (fs w) (t ++ rel) symloop_max (Hl rel)) in E.
  destruct (stat (fs w) a) as [[data|kids|x k]|];
    try (injection E as <- <-; split; assumption).
  destruct (put (fs w) (t ++ rel) (File data)) as [t'|] eqn:Ep; injection E as <- <-; cbn [fs];
    [|split; assumption].
  split.
  - intros r0 x k Hf. exact (Hl r0 x k (put_file_links _ _ _ _ _ _ _ Ep Hf)).
  - cbn [fs]. rewrite (find_put_apart _ _ _ _ s Ep (apart_below s t rel Hapart)). exact Hs.
Qed.

Lemma tidy_copy_files (listed : node) (src rel : path) (l : kids_t) :
  pres tidy (copy_files listed src (t ++ rel) l).
Proof.
  induction l as [|[n c] l IH]; cbn [copy_files]; [apply pres_ret_any|].
  destruct (entry_is_dir listed c); [exact IH|].
  apply pres_bind_any; [|intros _; exact IH].
  rewrite <- app_assoc. apply tidy_copy_if_absent.
Qed.

Lemma tidy_copy_walk (listed : node) (tr : node) :
  forall src rel, pres tidy (copy_walk listed src (t ++ rel) tr).
Proof.
  induction tr as [d|x k|kids IH] using node_ind_nested; intros src rel;
    cbn [copy_walk]; try apply pres_ret_any.
  apply pres_bind_any; [apply tidy_ensure_directory|intros _].
  apply pres_bind_any; [apply tidy_copy_files|intros _].
  induction IH as [|[n c] l Hc _ IHl]; [apply pres_ret_any|].
  destruct c; try exact IHl.
  apply pres_bind_any; [|intros _; exact IHl].
  rewrite <- app_assoc. apply Hc.
Qed.

End Rerun.

(** With source and target apart and no link about either, the manual copy
    leaves the source listing as it found it. *)
Lemma fallback_copy_source_same (s t : path) (w : world) (r : result unit) (w' : world) :
  apart s t = true ->
  link_free_below (fs w) s = true -> link_free_below (fs w) t = true ->
  fallback_copy s t w = (r, w') ->
  walk_top (fs w') s = walk_top (fs w) s.
Proof.
  intros Ha Hs Ht E.
  unfold fallback_copy, bind, emit, gets in E. cbn [fs stdin dialogs trace] in E.
  pose proof (tidy_copy_walk s t (fs w) Ha (fs w) (walk_top (fs w) s) s []) as Hp.
  rewrite app_nil_r in Hp.
  destruct (Hp _ _ _ E) as [_ Hf].
  { split; [|reflexivity]. intros r0 x k. cbn [fs]. exact (link_free_below_find _ _ _ _ _ Ht). }
  unfold walk_top, stat. rewrite Hf.
  destruct (find (fs w) s) as [c|] eqn:Ec; [|reflexivity].
  pose proof (link_free_below_find (fs w) s [] ) as Hn. rewrite app_nil_r, Ec in Hn.
  destruct c as [d|kids|x k]; [reflexivity | reflexivity |].
  destruct (Hn x k Hs eq_refl).
Qed.

(** C8, as the code has it: the manual copy removes nothing and rewrites
    nothing: every entry that was there is in place afterwards, files with
    their contents; it calls [copy2] only for a destination that did not
    exist, and that destination is the path below the target that mirrors the
    file's path below the source.  Once it has gone through, running it again
    writes nothing when neither of source and target is at or below the
    other and no link lies on the way to either of them or below it. *)
Theorem fallback_copy_first_copy_wins (s t : path) (w : world) (r : result unit) (w' : world) :
  fallback_copy s t w = (r, w') ->
  keeps (fs w) (fs w')
  /\ (forall a b, In (EvCopy2 a b) (trace w') ->
                  In (EvCopy2 a b) (trace w) \/ exists_ (fs w) b = false)
  /\ (Forall (mirrored s t) (trace w) -> Forall (mirrored s t) (trace w'))
  /\ (r = Ok tt ->
      apart s t = true ->
      link_free_below (fs w) s = true ->
      link_free_below (fs w) t = true ->
      exists w'', fallback_copy s t w' = (Ok tt, w'')
                  /\ fs w'' = fs w'
                  /\ forall a b, In (EvCopy2 a b) (trace w'') -> In (EvCopy2 a b) (trace w')).
Proof.
  intros E. destruct (fallback_copy_careful _ _ _ _ _ E) as [Hk Hc].
  split; [exact Hk|]. split; [exact Hc|]. split.
  { revert E. unfold fallback_copy.
    assert (Hi : inv (mirrored s t)
                   (run emit (EvFallback s t); do t0 <- gets fs;
                    copy_walk t0 s t (walk_top t0 s))).
    { apply inv_bind; [apply inv_emit; exact I|intros _].
      apply inv_bind; [apply inv_gets|intros r0].
      pose proof (inv_mirrored_walk s t r0 (walk_top r0 s) []) as Hw.
      rewrite !app_nil_r in Hw. exact Hw. }
    intros E. exact (Hi _ _ _ E). }
  intros -> Ha Hls Hlt.
  pose proof (fallback_copy_source_same s t w _ w' Ha Hls Hlt E) as Hsame.
  unfold fallback_copy, bind, emit, gets in E. cbn [fs stdin dialogs trace] in E.
  pose proof (copy_walk_settles _ _ _ _ _ _ E (fs w') (fs w') (keeps_on_refl _ _) Hk) as Hs.
  unfold fallback_copy, bind, emit, gets. cbn [fs stdin dialogs trace].
  rewrite Hsame.
  destruct (settled_noop (fs w') (walk_top (fs w) s) s t
              (World (fs w') (stdin w') (dialogs w') (trace w' ++ [EvFallback s t])) Hs)
    as (w'' & E2 & F & _ & _ & T).
  exists w''. split; [exact E2|]. split; [exact F|].
  intros a b Hin. apply T in Hin. cbn in Hin.
  apply in_app_or in Hin as [Hin|[Hin|[]]]; [exact Hin | discriminate Hin].
Qed.

Lemma fallback_copy_first_copy_wins_witness :
  let w := Demo.boot [] [] in
  let w' := snd (fallback_copy ["home"; "lm"] ["d"; "old"] w) in
  keeps (fs w) (fs w')
  /\ find (fs w') ["d"; "old"; "a.bin"] = Some (File "zz")
  /\ exists w'', fallback_copy ["home"; "lm"] ["d"; "old"] w' = (Ok tt, w'')
                 /\ fs w'' = fs w'
                 /\ forall a b, In (EvCopy2 a b) (trace w'') -> In (EvCopy2 a b) (trace w').
Proof.
  intros w w'.
  destruct (fallback_copy_first_copy_wins ["home"; "lm"] ["d"; "old"] w (Ok tt) w')
    as (H1 & _ & _ & H4).
  - vm_compute. reflexivity.
  - split; [exact H1|]. split; [vm_compute; reflexivity|].
    apply H4; reflexivity.
Defined.

(** C8 fails as stated, in two ways.  With the source below the target, the
    first run copies a file of a subdirectory into the source itself, where
    the second run finds it and copies it on.  With a symbolic link below the
    target that points into the source and at nothing yet, the first run
    writes through the link into the source, and the second run copies what
    it finds there.  Both times the second run writes a file that the first
    run did not leave at the destination. *)
Lemma fallback_copy_rerun_writes :
  (let '(r1, w1) := fallback_copy ["a"; "b"] ["a"] (World Demo.nested [] [] []) in
   let '(r2, w2) := fallback_copy ["a"; "b"] ["a"] w1 in
   r1 = Ok tt /\ r2 = Ok tt
   /\ find (fs w1) ["a"; "x"] = None
   /\ find (fs w2) ["a"; "x"] = Some (File "1")
   /\ In (EvCopy2 ["a"; "b"; "x"] ["a"; "x"]) (trace w2))
  /\ (let '(r1, w1) := fallback_copy ["src"] ["dst"] (World Demo.redirected [] [] []) in
      let '(r2, w2) := fallback_copy ["src"] ["dst"] w1 in
      apart ["src"] ["dst"] = true
      /\ r1 = Ok tt /\ r2 = Ok tt
      /\ find (fs w1) ["dst"; "y"] = None
      /\ find (fs w2) ["dst"; "y"] = Some (File "1")
      /\ In (EvCopy2 ["src"; "y"] ["dst"; "y"]) (trace w2)).
Proof. vm_compute. repeat split; auto 10. Qed.

End FallbackFacts.


(** ** The loop that settles the target always ends *)

Module LoopFacts.
Import FS Sys Ops Cli Gui.

Lemma prompt_for_path_lines_shorter (pf : platform) (d : option path) (lines : list string) :
  forall p rest, prompt_for_path_lines pf d lines = (Ok p, rest) -> length rest < length lines.
Proof.
  induction lines as [|l lines IH]; intros p rest E; cbn in E; [discriminate|].
  destruct (if String.eqb (strip l) "" then d else None).
  - injection E as <- <-. cbn. lia.
  - destruct (negb _).
    + injection E as <- <-. cbn. lia.
    + specialize (IH _ _ E). cbn. lia.
Qed.

Lemma ask_yes_no_lines_shorter (d : option string) (lines : list string) :
  forall r rest, ask_yes_no_lines d lines = (r, rest) -> length rest <= length lines.
Proof.
  induction lines as [|l lines IH]; intros r rest E; cbn in E.
  - injection E as <- <-. cbn. lia.
  - destruct d;
      repeat match type of E with
             | (if ?b then _ else _) = _ => destruct b
             end;
      try (injection E as <- <-; cbn; lia);
      specialize (IH _ _ E); cbn; lia.
Qed.

Lemma prompt_for_path_shorter (pf : platform) (d : option path) (w w1 : world) (p : path) :
  prompt_for_path pf d w = (Ok p, w1) -> length (stdin w1) < length (stdin w).
Proof.
  unfold prompt_for_path.
  destruct (prompt_for_path_lines pf d (stdin w)) as [r rest] eqn:E.
  intros [= -> <-]. cbn. exact (prompt_for_path_lines_shorter _ _ _ _ _ E).
Qed.

Lemma ask_yes_no_shorter (d : option string) (w w1 : world) (r : result bool) :
  ask_yes_no d w = (r, w1) -> length (stdin w1) <= length (stdin w).
Proof.
  unfold ask_yes_no.
  destruct (ask_yes_no_lines d (stdin w)) as [r0 rest] eqn:E.
  intros [= <- <-]. cbn. exact (ask_yes_no_lines_shorter _ _ _ _ E).
Qed.

Lemma input_shorter (w w1 : world) (r : result string) :
  input w = (r, w1) -> length (stdin w1) <= length (stdin w).
Proof.
  unfold input. destruct (stdin w) as [|l rest] eqn:E; intros [= <- <-]; cbn; rewrite ?E; cbn; lia.
Qed.

Lemma bind_ext {A B} (m : M A) (k1 k2 : A -> M B) (w : world) :
  (forall a w1, m w = (Ok a, w1) -> k1 a w1 = k2 a w1) ->
  bind m k1 w = bind m k2 w.
Proof.
  intros H. unfold bind. destruct (m w) as [[a|e] w1]; [apply H|]; reflexivity.
Qed.

(** X22: the loop of [run_cli] that settles the target ends on every input:
    each turn reads at least one line, so any bound on the turns above the
    number of lines left gives the same run, which ends by an answer or by the
    end of the input. *)
Lemma choose_target_fuel (pf : platform) (s : path) (f1 : nat) :
  forall f2 w,
    length (stdin w) < f1 -> length (stdin w) < f2 ->
    choose_target pf f1 s w = choose_target pf f2 s w.
Proof.
  induction f1 as [|f1 IH]; intros f2 w H1 H2; [lia|].
  destruct f2 as [|f2]; [lia|].
  cbn [choose_target].
  apply bind_ext. intros t w1 Ep. apply prompt_for_path_shorter in Ep.
  apply bind_ext. intros ti w1' Ec. injection Ec as _ <-.
  destruct (info_exists ti); [|reflexivity].
  apply bind_ext. intros line w2 Ei. apply input_shorter in Ei.
  assert (Hloop : forall w3, length (stdin w3) <= length (stdin w2) ->
                             choose_target pf f1 s w3 = choose_target pf f2 s w3).
  { intros w3 H3. apply IH; lia. }
  destruct (String.eqb (strip line) "1"); [apply Hloop; lia|].
  destruct (String.eqb (strip line) "2").
  { apply bind_ext. intros yes w3 Ea. apply ask_yes_no_shorter in Ea.
    destruct (negb yes); [apply Hloop; lia | reflexivity]. }
  destruct (String.eqb (strip line) "3").
  { apply bind_ext. intros yes w3 Ea. apply ask_yes_no_shorter in Ea.
    destruct (negb yes); [apply Hloop; lia | reflexivity]. }
  destruct (String.eqb (strip line) "4"); [reflexivity|].
  apply Hloop. lia.
Qed.

Lemma choose_target_fuel_witness :
  choose_target Demo.pf_plain 4 ["home"; "lm"] (Demo.boot ["/d/old"; "1"; "/d/t"] [])
  = choose_target Demo.pf_plain 9 ["home"; "lm"] (Demo.boot ["/d/old"; "1"; "/d/t"] []).
Proof.
  apply (choose_target_fuel Demo.pf_plain ["home"; "lm"] 4 9); cbn; lia.
Defined.

End LoopFacts.


(** * More of the program *)

(** ** Reading answers and paths *)

Module InputFacts.
Import FS Sys Ops Cli Gui.

Definition is_yes (l : string) : Prop := str_in (lower (strip l)) yes_words = true.
Definition is_blank (l : string) : Prop := String.eqb (lower (strip l)) "" = true.

(** Where a "yes" of [ask_yes_no] comes from: a line that says yes, or a
    blank line when the default is "y". *)
Lemma ask_yes_no_lines_true (d : option string) (lines : list string) :
  forall rest, ask_yes_no_lines d lines = (Ok true, rest) ->
  (exists l, In l lines /\ is_yes l)
  \/ (exists dd l, d = Some dd /\ String.eqb (lower dd) "y" = true /\ In l lines /\ is_blank l).
Proof.
  induction lines as [|l lines IH]; intros rest E; cbn [ask_yes_no_lines] in E; [discriminate|].
  assert (Hrec : ask_yes_no_lines d lines = (Ok true, rest) ->
                 (exists l0, In l0 (l :: lines) /\ is_yes l0)
                 \/ (exists dd l0, d = Some dd /\ String.eqb (lower dd) "y" = true
                                   /\ In l0 (l :: lines) /\ is_blank l0)).
  { intros E'. destruct (IH _ E') as [(l0 & Hin & Hy)|(dd & l0 & Hd & Hy & Hin & Hb)].
    - left. exists l0. split; [right; exact Hin | exact Hy].
    - right. exists dd, l0. repeat split; try assumption. right. exact Hin. }
  assert (Hyes : str_in (lower (strip l)) yes_words = true ->
                 (exists l0, In l0 (l :: lines) /\ is_yes l0)
                 \/ (exists dd l0, d = Some dd /\ String.eqb (lower dd) "y" = true
                                   /\ In l0 (l :: lines) /\ is_blank l0)).
  { intros Hy. left. exists l. split; [left; reflexivity | exact Hy]. }
  destruct d as [dd|].
  - destruct (String.eqb (lower (strip l)) "") eqn:Eb.
    + injection E as Ey <-. right. exists dd, l. repeat split; auto. left. reflexivity.
    + destruct (str_in (lower (strip l)) yes_words) eqn:Ey; [exact (Hyes eq_refl)|].
      destruct (str_in (lower (strip l)) no_words); [discriminate | exact (Hrec E)].
  - destruct (str_in (lower (strip l)) yes_words) eqn:Ey; [exact (Hyes eq_refl)|].
    destruct (str_in (lower (strip l)) no_words); [discriminate | exact (Hrec E)].
Qed.

(** X1: a question asked with the default "n" is answered yes only by a line
    that, trimmed of white space as [str.strip()] does and in lower case, is
    one of the words for yes; a blank line, an unknown word or the end of the
    input never confirms. *)
Theorem ask_yes_no_explicit_yes (w w' : world) :
  ask_yes_no (Some "n") w = (Ok true, w') ->
  exists l, In l (stdin w) /\ str_in (lower (strip l)) yes_words = true.
Proof.
  unfold ask_yes_no. destruct (ask_yes_no_lines (Some "n") (stdin w)) as [r rest] eqn:E.
  intros [= -> _].
  destruct (ask_yes_no_lines_true _ _ _ E) as [H|(dd & l & Hd & Hy & _)]; [exact H|].
  injection Hd as <-. vm_compute in Hy. discriminate.
Qed.

Lemma ask_yes_no_explicit_yes_witness :
  exists l, In l [" maybe"; "YES" +:+ Demo.wide_space; "n"]
            /\ str_in (lower (strip l)) yes_words = true.
Proof.
  apply (ask_yes_no_explicit_yes (Demo.boot [" maybe"; "YES" +:+ Demo.wide_space; "n"] [])
           (World Demo.disk ["n"] [] [])).
  vm_compute. reflexivity.
Defined.

Lemma path_str_not_empty (p : path) : String.eqb (path_str p) "" = false.
Proof. destruct p as [|c p]; reflexivity. Qed.

Lemma prompt_for_path_cons (pf : platform) (d : option path)
    (l : string) (rest : list string) (root : node) (answers : list bool) (tr : list event) :
  prompt_for_path pf d (World root (l :: rest) answers tr)
  = (Ok (match (if String.eqb (strip l) "" then d else None) with
         | Some p => p
         | None => resolve pf (strip l)
         end),
     World root rest answers tr).
Proof.
  unfold prompt_for_path. cbn [stdin fs dialogs trace prompt_for_path_lines].
  destruct (if String.eqb (strip l) "" then d else None); [reflexivity|].
  rewrite path_str_not_empty. reflexivity.
Qed.

(** X3: off Windows neither front end does anything: [ensure_windows] ends
    the run with [SystemExit] before a line is read, a dialog is shown or the
    filesystem is looked at. *)
Theorem not_windows_nothing_runs (pf : platform) (f : form) (w : world) :
  is_windows pf = false ->
  run_cli pf w = (Raise SystemExit, w) /\ start pf f w = (Raise SystemExit, w).
Proof.
  intros H. unfold run_cli, start, bind, ensure_windows. rewrite H. split; reflexivity.
Qed.

Lemma not_windows_nothing_runs_witness :
  run_cli (Platform false (Demo.split_on "") None (fun _ => false) false)
    (Demo.boot ["/home/lm"] [])
  = (Raise SystemExit, Demo.boot ["/home/lm"] []).
Proof.
  apply (not_windows_nothing_runs
           (Platform false (Demo.split_on "") None (fun _ => false) false)
           (Form "" "" false false)).
  reflexivity.
Defined.

End InputFacts.


(** ** Making directories, removing trees, linking *)

Module FsOpFacts.
Import FS Sys Ops Cli Gui FSFacts TraceFacts CopyFacts FallbackFacts.

Lemma follow_more (root : node) (k : nat) :
  forall c r, follow k root c = Some r -> follow (S k) root c = Some r.
Proof.
  induction k as [|k IH]; intros c r H.
  - destruct c; cbn in *; try exact H. discriminate.
  - destruct c as [d|kids|x]; try exact H.
    cbn in H. cbn [follow]. destruct (find root x) as [c1|]; [|discriminate].
    exact (IH _ _ H).
Qed.

Lemma ready_find (root : node) (p : path) :
  forall t, ready root t p -> exists c, find t p = Some c /\ node_is_dir root c = true.
Proof.
  induction p as [|n p IH]; intros t H.
  - exists t. split; [reflexivity | exact H].
  - cbn in H. destruct t as [d|kids|x]; try contradiction.
    destruct (alookup n kids) as [c0|] eqn:En; [|contradiction].
    destruct (IH _ H) as (c & Hc & Hd). exists c. split; [|exact Hd].
    cbn. rewrite En. exact Hc.
Qed.

Lemma ready_is_dir (root : node) (p : path) : ready root root p -> is_dir root p = true.
Proof.
  intros H. destruct (ready_find _ _ _ H) as (c & Hc & Hd).
  unfold is_dir, stat. rewrite Hc. unfold node_is_dir in Hd.
  destruct (follow symloop_max root c) as [[d|kids|x]|]; try discriminate. reflexivity.
Qed.

(** X4: [ensure_directory] either makes the path a directory, keeping every
    entry that was there, after which a second call finds nothing to do; or
    it raises, something that is not a directory being in the way, and leaves
    the filesystem as it was. *)
Theorem ensure_directory_result (p : path) (w : world) (r : result unit) (w' : world) :
  ensure_directory p w = (r, w') ->
  match r with
  | Ok _ =>
      is_dir (fs w') p = true
      /\ keeps (fs w) (fs w')
      /\ exists w'', ensure_directory p w' = (Ok tt, w'') /\ fs w'' = fs w'
  | Raise _ => fs w' = fs w
  end.
Proof.
  intros E. destruct r as [[]|e].
  - pose proof (ensure_directory_ok _ _ _ E) as Hm.
    pose proof (mkdir_p_keeps _ _ _ Hm) as Hk.
    assert (Hr : ready (fs w') (fs w') p).
    { apply (ready_keeps (fs w) (fs w') p Hk (fs w') (fs w') (keeps_on_refl _ _)).
      exact (mkdir_p_at_ready _ _ _ _ Hm). }
    split; [exact (ready_is_dir _ _ Hr)|]. split; [exact Hk|].
    destruct (ensure_directory_settled p w' Hr) as (w'' & E2 & F & _).
    exists w''. split; [exact E2 | exact F].
  - unfold ensure_directory, bind, emit, gets, set_fs, raise in E.
    cbn [fs stdin dialogs trace] in E.
    destruct (mkdir_p (fs w) p); [discriminate|]. injection E as _ <-. reflexivity.
Qed.

Lemma alookup_adel_same (n : string) (l : kids_t) : alookup n (adel n l) = None.
Proof.
  induction l as [|[k c] l IH]; cbn; [reflexivity|].
  destruct (String.eqb n k) eqn:E; [exact IH|]. cbn. rewrite E. exact IH.
Qed.

Lemma remove_gone (p : path) :
  forall t t', remove t p = Some t' -> find t' p = None.
Proof.
  induction p as [|n p IH]; intros t t' H; [discriminate|].
  destruct t as [d|kids|x]; try discriminate H. cbn in H.
  destruct (alookup n kids) as [c0|] eqn:En; [|destruct p; discriminate].
  destruct p as [|n' p'].
  - injection H as <-. cbn. rewrite alookup_adel_same. reflexivity.
  - destruct (remove c0 (n' :: p')) as [c0'|] eqn:Er; [|discriminate].
    injection H as <-. cbn [find]. rewrite alookup_aset, String.eqb_refl.
    exact (IH _ _ Er).
Qed.

Lemma remove_total (p : path) :
  forall t c, p <> [] -> find t p = Some c -> exists t', remove t p = Some t'.
Proof.
  induction p as [|n p IH]; intros t c Hp H; [contradiction|].
  destruct t as [d|kids|x]; try discriminate H. cbn in H. cbn [remove].
  destruct (alookup n kids) as [c0|] eqn:En; [|discriminate].
  destruct p as [|n' p'].
  - eexists. reflexivity.
  - destruct (IH c0 c ltac:(discriminate) H) as (c0' & ->). eexists. reflexivity.
Qed.

Lemma put_total (p : path) :
  forall t c v, find t p = Some c -> exists t', put t p v = Some t'.
Proof.
  induction p as [|n p IH]; intros t c v H; [eexists; reflexivity|].
  destruct t as [d|kids|x]; try discriminate H. cbn in H. cbn [put].
  destruct (alookup n kids) as [c0|] eqn:En; [|discriminate].
  destruct p as [|n' p'].
  - eexists. reflexivity.
  - destruct (IH c0 c v H) as (c0' & ->). eexists. reflexivity.
Qed.

(** With nothing locked, [rmtree] gets through a tree. *)
Lemma prune_unlocked (locked : path -> bool) (t : node) :
  (forall q, locked q = false) -> forall here, prune locked here t = None.
Proof.
  intros Hl. induction t as [d|x|kids IH] using node_ind_nested; intros here;
    cbn [prune]; rewrite ?Hl; try reflexivity.
  assert (H : (fix entries (l : kids_t) : kids_t * bool :=
                 match l with
                 | [] => ([], true)
                 | (n, c) :: l' =>
                     match prune locked (here ++ [n]) c with
                     | None => entries l'
                     | Some c' => ((n, c') :: l', false)
                     end
                 end) kids = ([], true)).
  { induction IH as [|[n c] l Hc _ IHl]; [reflexivity|].
    cbn in Hc. rewrite Hc. exact IHl. }
  rewrite H. reflexivity.
Qed.

Lemma prune_dir (locked : path -> bool) (here : path) (kids : kids_t) (r : node) :
  prune locked here (Dir kids) = Some r -> exists kids', r = Dir kids'.
Proof.
  cbn [prune].
  destruct ((fix entries (l : kids_t) : kids_t * bool :=
               match l with
               | [] => ([], true)
               | (n, c) :: l' =>
                   match prune locked (here ++ [n]) c with
                   | None => entries l'
                   | Some c' => ((n, c') :: l', false)
                   end
               end) kids) as [rest [|]].
  - destruct (locked here); intros [= <-]; eexists; reflexivity.
  - intros [= <-]. eexists. reflexivity.
Qed.

(** X5: with nothing locked, [shutil.rmtree] of a directory other than the
    root goes through: afterwards nothing is at the path, [exists()] is false
    there, and every tree that lies apart from the path is what it was. *)
Theorem rmtree_removes (pf : platform) (p : path) (w : world) (kids : kids_t) :
  (forall q, locked pf q = false) ->
  p <> [] ->
  find (fs w) p = Some (Dir kids) ->
  exists w',
    rmtree pf p w = (Ok tt, w')
    /\ find (fs w') p = None
    /\ exists_ (fs w') p = false
    /\ forall q, apart p q = true -> find (fs w') q = find (fs w) q.
Proof.
  intros Hl Hp Hf.
  destruct (remove_total p (fs w) _ Hp Hf) as (t' & Hr).
  assert (E : rmtree pf p w
              = (Ok tt, World t' (stdin w) (dialogs w) (trace w ++ [EvRmtree p]))).
  { unfold rmtree, bind, emit, gets, set_fs. cbn [fs stdin dialogs trace].
    rewrite Hf, (prune_unlocked _ _ Hl), Hr. reflexivity. }
  eexists. split; [exact E|]. cbn [fs].
  pose proof (remove_gone _ _ _ Hr) as Hg.
  split; [exact Hg|]. split.
  - unfold exists_, stat. rewrite Hg. reflexivity.
  - intros q Ha. exact (find_remove_apart _ _ _ _ Hr Ha).
Qed.

Lemma rmtree_removes_witness :
  exists w',
    rmtree Demo.pf_plain ["home"; "lm"] (Demo.boot [] []) = (Ok tt, w')
    /\ find (fs w') ["home"; "lm"] = None
    /\ exists_ (fs w') ["home"; "lm"] = false
    /\ forall q, apart ["home"; "lm"] q = true -> find (fs w') q = find Demo.disk q.
Proof.
  apply (rmtree_removes Demo.pf_plain ["home"; "lm"] (Demo.boot [] [])
           [("a.bin", File "abc"); ("sub", Dir [("b", File "12345")])]).
  - reflexivity.
  - discriminate.
  - reflexivity.
Defined.

(** X6: a [shutil.rmtree] that raises leaves a directory at the path when
    there was one, and leaves the filesystem as it was when the path named a
    file, a link or nothing. *)
Theorem rmtree_raises (pf : platform) (p : path) (w : world) (e : exn) (w' : world) :
  rmtree pf p w = (Raise e, w') ->
  match find (fs w) p with
  | Some (Dir _) => exists kids', find (fs w') p = Some (Dir kids')
  | _ => fs w' = fs w
  end.
Proof.
  intros E. unfold rmtree, bind, emit, gets, set_fs, raise in E.
  cbn [fs stdin dialogs trace] in E.
  destruct (find (fs w) p) as [[d|kids|x]|] eqn:Hf;
    try (injection E as _ <-; reflexivity).
  destruct (prune (locked pf) p (Dir kids)) as [remaining|] eqn:Ep.
  - destruct (prune_dir _ _ _ _ Ep) as (kids' & ->).
    destruct (put_total p (fs w) _ (Dir kids') Hf) as (t' & Hp).
    rewrite Hp in E. cbn in E. injection E as _ <-. cbn [fs].
    exists kids'. exact (LinkFacts.find_put_same _ _ _ _ Hp).
  - destruct (remove (fs w) p); [discriminate|].
    injection E as _ <-. exists kids. exact Hf.
Qed.

Lemma rmtree_raises_witness :
  exists kids',
    find (fs (snd (rmtree Demo.pf_locked_b ["home"; "lm"] (Demo.boot [] []))))
      ["home"; "lm"] = Some (Dir kids').
Proof.
  apply (rmtree_raises Demo.pf_locked_b ["home"; "lm"] (Demo.boot [] []) OSError).
  vm_compute. reflexivity.
Defined.

(** X7: [create_junction] is all or nothing: when it returns, nothing was at
    the link path and the filesystem is the old one with the link added
    there; when it raises, the filesystem is as it was. *)
Theorem create_junction_all_or_nothing (pf : platform) (l t : path)
    (w : world) (r : result unit) (w' : world) :
  create_junction pf l t w = (r, w') ->
  match r with
  | Ok _ => find (fs w) l = None /\ put (fs w) l (Link t Junction) = Some (fs w')
  | Raise _ => fs w' = fs w
  end.
Proof.
  intros E. unfold create_junction, bind, gets, raise in E.
  destruct (exists_ (fs w) l || is_symlink (fs w) l).
  { injection E as <- <-. reflexivity. }
  unfold mklink, emit, set_fs, ret in E. cbn [fs stdin dialogs trace] in E.
  destruct (mklink_denied pf).
  { cbn in E. injection E as <- <-. reflexivity. }
  destruct (find (fs w) l) eqn:Hf.
  { cbn in E. injection E as <- <-. reflexivity. }
  destruct (put (fs w) l (Link t Junction)) as [t'|] eqn:Ep; cbn in E; injection E as <- <-.
  - split; reflexivity.
  - reflexivity.
Qed.

Lemma create_junction_all_or_nothing_witness :
  fs (snd (create_junction (Platform true (Demo.split_on "") None (fun _ => false) true)
             ["d"; "j"] ["d"; "old"] (Demo.boot [] [])))
  = Demo.disk.
Proof.
  apply (create_junction_all_or_nothing
           (Platform true (Demo.split_on "") None (fun _ => false) true)
           ["d"; "j"] ["d"; "old"] (Demo.boot [] [])
           (Raise (RuntimeError (JunctionFailed 1)))).
  vm_compute. reflexivity.
Defined.

Lemma ensure_directory_result_witness :
  is_dir (fs (snd (ensure_directory ["d"; "x"; "y"] (Demo.boot [] [])))) ["d"; "x"; "y"] = true.
Proof.
  apply (ensure_directory_result ["d"; "x"; "y"] (Demo.boot [] []) (Ok tt)).
  vm_compute. reflexivity.
Defined.

End FsOpFacts.

(** ** What the copier achieves *)

Module CopyMoreFacts.
Import FS Sys Ops Cli Gui FSFacts TraceFacts CopyFacts FallbackFacts FsOpFacts.






(** X25: without robocopy the copier stays below its target.  When no link
    lies on the way to the target or below it, [copy_directory] changes
    nothing at a path that is neither at or below the target nor above it:
    what was there is there unchanged, and nothing is added there, however
    the copy ends. *)
Theorem copy_stays_below_target (pf : platform) (s t q : path)
    (w : world) (r : result unit) (w' : world) :
  robocopy pf = None ->
  apart q t = true ->
  link_free_below (fs w) t = true ->
  copy_directory pf s t w = (r, w') ->
  find (fs w') q = find (fs w) q.
Proof.
  intros Hr Ha Ht E.
  assert (Hp : pres (tidy q t (fs w)) (copy_directory pf s t)).
  { unfold copy_directory.
    apply pres_bind_any.
    { pose proof (tidy_ensure_directory q t (fs w) Ha []) as H.
      rewrite app_nil_r in H. exact H. }
    intros _. apply pres_bind_any.
    { intros w1 r1 w2 E1 H. unfold run_robocopy, bind, emit, ret in E1. rewrite Hr in E1.
      injection E1 as _ <-. exact H. }
    intros used. destruct used; [apply pres_ret_any|].
    unfold fallback_copy.
    apply pres_bind_any.
    { intros w1 r1 w2 E1 H. unfold emit in E1. injection E1 as _ <-. exact H. }
    intros _. apply pres_bind_any.
    { intros w1 r1 w2 E1 H. unfold gets in E1. injection E1 as _ <-. exact H. }
    intros listed.
    pose proof (tidy_copy_walk q t (fs w) Ha listed (walk_top listed s) s []) as H.
    rewrite app_nil_r in H. exact H. }
  destruct (Hp _ _ _ E) as [_ Hf]; [|exact Hf].
  split; [|reflexivity].
  intros r0 x k. exact (link_free_below_find _ _ _ _ _ Ht).
Qed.

Lemma copy_stays_below_target_witness :
  find (fs (snd (copy_directory Demo.pf_plain ["home"; "lm"] ["d"; "old"] (Demo.boot [] []))))
    ["d"; "note"]
  = find Demo.disk ["d"; "note"].
Proof.
  apply (copy_stays_below_target Demo.pf_plain ["home"; "lm"] ["d"; "old"] ["d"; "note"]
           (Demo.boot [] [])
           (fst (copy_directory Demo.pf_plain ["home"; "lm"] ["d"; "old"] (Demo.boot [] [])))).
  - reflexivity.
  - reflexivity.
  - reflexivity.
  - vm_compute. reflexivity.
Defined.

End CopyMoreFacts.


(** ** What the inspector reports *)

Module InspectFacts.
Import FS Sys Ops Cli Gui FSFacts TraceFacts.

Lemma walk_counts_cons (root : node) (n : string) (c : node) (l : kids_t) :
  walk_counts root (Dir ((n, c) :: l))
  = let '(d, f) := walk_counts root (Dir l) in
    match c with
    | Dir _ => let '(d1, f1) := walk_counts root c in (S (d1 + d), (f1 + f)%nat)
    | _ => if entry_is_dir root c then (S d, f) else (d, S f)
    end.
Proof. reflexivity. Qed.

Lemma walk_counts_entries (root : node) (kids : kids_t) :
  length kids <= snd (walk_counts root (Dir kids)) + fst (walk_counts root (Dir kids)).
Proof.
  induction kids as [|[n c] l IH]; [cbn; lia|].
  rewrite walk_counts_cons. destruct (walk_counts root (Dir l)) as [d f]. cbn in IH.
  destruct c as [x|k|x lk].
  - destruct (entry_is_dir root (File x)); cbn; lia.
  - destruct (walk_counts root (Dir k)) as [d1 f1]. cbn. lia.
  - destruct (entry_is_dir root (Link x lk)); cbn; lia.
Qed.

Lemma walk_dir_size_cons (root : node) (n : string) (c : node) (l : kids_t) :
  walk_dir_size_node root (Dir ((n, c) :: l))
  = (match c with
     | Dir _ => walk_dir_size_node root c
     | _ => match follow symloop_max root c with
            | Some (File data) => st_size data
            | _ => 0
            end
     end + walk_dir_size_node root (Dir l))%Z.
Proof. reflexivity. Qed.

Lemma walk_dir_size_nonneg (root : node) (t : node) : (0 <= walk_dir_size_node root t)%Z.
Proof.
  induction t as [d|x|kids IH] using node_ind_nested; try (cbn; lia).
  induction IH as [|[n c] l Hc _ IHl]; [cbn; lia|].
  rewrite walk_dir_size_cons. cbn in Hc.
  assert (0 <= match c with
               | Dir _ => walk_dir_size_node root c
               | _ => match follow symloop_max root c with
                      | Some (File data) => st_size data
                      | _ => 0
                      end
               end)%Z.
  { destruct c; try exact Hc;
      destruct (follow symloop_max root _) as [[data0| |]|]; unfold st_size; lia. }
  lia.
Qed.

(** X10: for a path that is a directory the inspector reports exists and
    is_dir; it reports empty exactly when the directory has no entry at all;
    every entry of the directory is counted as a file or as a subdirectory;
    and the total size is never negative. *)
Theorem inspect_directory (root : node) (p : path) (kids : kids_t) :
  stat root p = Some (Dir kids) ->
  let i := inspect root p in
  info_exists i = true
  /\ info_is_dir i = true
  /\ (is_empty i = true <-> kids = [])
  /\ length kids <= file_count i + dir_count i
  /\ (0 <= total_size i)%Z.
Proof.
  intros Hs. unfold inspect, exists_, is_dir, walk_dir_size, walk_top. rewrite Hs.
  cbn [andb]. pose proof (walk_counts_entries root kids) as Hn.
  destruct (walk_counts root (Dir kids)) as [d f] eqn:Ew. cbn in Hn.
  cbn [info_exists info_is_dir is_empty file_count dir_count total_size].
  repeat split; try reflexivity.
  - intros He. apply andb_true_iff in He as [Hf Hd].
    apply Nat.eqb_eq in Hf, Hd. subst. destruct kids; [reflexivity | cbn in Hn; lia].
  - intros ->. cbn in Ew. injection Ew as <- <-. reflexivity.
  - exact Hn.
  - apply walk_dir_size_nonneg.
Qed.

Lemma inspect_directory_witness :
  let i := inspect Demo.disk ["home"; "lm"] in
  info_exists i = true
  /\ info_is_dir i = true
  /\ (is_empty i = true
      <-> [("a.bin", File "abc"); ("sub", Dir [("b", File "12345")])] = [])
  /\ 2 <= file_count i + dir_count i
  /\ (0 <= total_size i)%Z.
Proof.
  apply (inspect_directory Demo.disk ["home"; "lm"]
           [("a.bin", File "abc"); ("sub", Dir [("b", File "12345")])]).
  reflexivity.
Defined.

End InspectFacts.


(** ** How runs end *)

Module RunMoreFacts.
Import FS Sys Ops Cli Gui FSFacts TraceFacts CopyFacts RunFacts FsOpFacts.

(** The two ways through the call site of a phase. *)
Lemma phase_call_cases {A} (fail : phase -> exn -> A) (ph : phase) (s t : path)
    (op : M unit) (k : M A) (w : world) (r : result A) (w' : world) :
  phase_call fail ph s t op k w = (r, w') ->
  (exists w1, op (noted ph s t w) = (Ok tt, w1) /\ k w1 = (r, w'))
  \/ (exists e, op (noted ph s t w) = (Raise e, w') /\ r = Ok (fail ph e)).
Proof.
  unfold phase_call, bind, emit. fold (noted ph s t w).
  destruct (op (noted ph s t w)) as [[[]|e] w1]; intros E.
  - left. exists w1. split; [reflexivity | exact E].
  - injection E as <- <-. right. exists e. split; reflexivity.
Qed.

Lemma is_dir_through_link (root : node) (s t : path) (k : link_kind) :
  find root s = Some (Link t k) -> is_dir root s = true -> is_dir root t = true.
Proof.
  unfold is_dir, stat. intros -> H.
  change symloop_max with (S 39) in H.
  change (follow (S 39) root (Link t k))
    with (match find root t with Some c => follow 39 root c | None => None end) in H.
  destruct (find root t) as [c|]; [|discriminate].
  destruct (follow 39 root c) as [r|] eqn:Ef; [|discriminate].
  change symloop_max with (S 39). rewrite (follow_more _ _ _ _ Ef). exact H.
Qed.

(** X11: a run that gets through copy, delete and link leaves a link at the
    source path that points at the target; and when [run_cli] reports the
    link as verified, the target is a directory. *)
Theorem completed_run_links_source (pf : platform) (overwrite : bool) (s t : path)
    (w : world) (o : outcome) (w' : world) :
  cli_migrate pf s t w = (Ok o, w') \/ worker pf false overwrite s t w = (Ok o, w') ->
  (exists v, o = Done v) \/ o = Finished ->
  find (fs w') s = Some (Link t Junction)
  /\ (o = Done true -> is_dir (fs w') t = true).
Proof.
  intros Hrun Ho.
  assert (Hlink : forall (fail : phase -> exn -> outcome) (k : M outcome) w0,
             (forall ph e, fail ph e <> o) ->
             (forall w1, k w1 = (Ok o, w') -> fs w1 = fs w') ->
             phase_call fail PhLink s t (create_junction pf s t) k w0 = (Ok o, w') ->
             find (fs w') s = Some (Link t Junction)).
  { intros fail k w0 Hfail Hk E.
    destruct (phase_call_cases _ _ _ _ _ _ _ _ _ E) as [(w1 & Ej & Ek)|(e & _ & He)].
    - rewrite <- (Hk _ Ek).
      exact (proj1 (LinkFacts.create_junction_effect _ _ _ _ _ _ Ej) eq_refl).
    - injection He as He. destruct (Hfail _ _ (eq_sym He)). }
  assert (Htail : forall (fail : phase -> exn -> outcome) (k : M outcome) w0,
             (forall ph e, fail ph e <> o) ->
             (forall w1, k w1 = (Ok o, w') -> fs w1 = fs w') ->
             phase_call fail PhCopy s t (copy_directory pf s t)
               (phase_call fail PhDelete s t (delete_directory pf s)
                  (phase_call fail PhLink s t (create_junction pf s t) k)) w0 = (Ok o, w') ->
             find (fs w') s = Some (Link t Junction)).
  { intros fail k w0 Hfail Hk E.
    destruct (phase_call_cases _ _ _ _ _ _ _ _ _ E) as [(w1 & _ & E1)|(e & _ & He)];
      [|injection He as He; destruct (Hfail _ _ (eq_sym He))].
    destruct (phase_call_cases _ _ _ _ _ _ _ _ _ E1) as [(w2 & _ & E2)|(e & _ & He)];
      [|injection He as He; destruct (Hfail _ _ (eq_sym He))].
    exact (Hlink fail k w2 Hfail Hk E2). }
  assert (Hs : find (fs w') s = Some (Link t Junction)).
  { destruct Hrun as [E|E].
    - unfold cli_migrate in E. refine (Htail Failed _ w _ _ E).
      + intros ph e H. destruct Ho as [[v ->]| ->]; discriminate H.
      + intros w1 Ek. unfold bind, gets, ret in Ek. injection Ek as _ <-. reflexivity.
    - unfold worker, bind, gets in E.
      assert (Hf : forall ph e, Crashed ph e <> o).
      { intros ph e H. destruct Ho as [[v ->]| ->]; discriminate H. }
      assert (Hk : forall w1, ret Finished w1 = (Ok o, w') -> fs w1 = fs w').
      { intros w1 Ek. injection Ek as _ <-. reflexivity. }
      destruct (overwrite && exists_ (fs w) t).
      + destruct (phase_call_cases _ _ _ _ _ _ _ _ _ E) as [(w1 & _ & E1)|(e & _ & He)];
          [|injection He as He; destruct (Hf _ _ (eq_sym He))].
        exact (Htail Crashed _ w1 Hf Hk E1).
      + exact (Htail Crashed _ w Hf Hk E). }
  split; [exact Hs|].
  intros ->. destruct Hrun as [E|E].
  - unfold cli_migrate in E.
    destruct (phase_call_cases _ _ _ _ _ _ _ _ _ E) as [(w1 & _ & E1)|(e & _ & He)];
      [|discriminate He].
    destruct (phase_call_cases _ _ _ _ _ _ _ _ _ E1) as [(w2 & _ & E2)|(e & _ & He)];
      [|discriminate He].
    destruct (phase_call_cases _ _ _ _ _ _ _ _ _ E2) as [(w3 & _ & E3)|(e & _ & He)];
      [|discriminate He].
    unfold bind, gets, ret in E3. injection E3 as Hv <-.
    apply andb_true_iff in Hv as [_ Hd].
    exact (is_dir_through_link _ _ _ _ Hs Hd).
  - exfalso. unfold worker, bind, gets in E.
    assert (Hn : forall w0 a w1,
               phase_call Crashed PhCopy s t (copy_directory pf s t)
                 (phase_call Crashed PhDelete s t (delete_directory pf s)
                    (phase_call Crashed PhLink s t (create_junction pf s t) (ret Finished)))
                 w0 = (Ok a, w1) -> a <> Done true).
    { intros w0 a w1 E0. unfold phase_call, bind, emit, ret in E0.
      run_cases; discriminate. }
    destruct (overwrite && exists_ (fs w) t).
    + destruct (phase_call_cases _ _ _ _ _ _ _ _ _ E) as [(w1 & _ & E1)|(e & _ & He)];
        [exact (Hn _ _ _ E1 eq_refl) | discriminate He].
    + exact (Hn _ _ _ E eq_refl).
Qed.

Lemma completed_run_links_source_witness :
  let w' := snd (cli_migrate Demo.pf_plain ["home"; "lm"] ["d"; "t"] (Demo.boot [] [])) in
  find (fs w') ["home"; "lm"] = Some (Link ["d"; "t"] Junction)
  /\ (Done true = Done true -> is_dir (fs w') ["d"; "t"] = true).
Proof.
  apply (completed_run_links_source Demo.pf_plain false ["home"; "lm"] ["d"; "t"]
           (Demo.boot [] [])).
  - left. vm_compute. reflexivity.
  - left. exists true. reflexivity.
Defined.

Lemma prompt_for_path_same (pf : platform) (d : option path) (w w1 : world)
    (r : result path) :
  prompt_for_path pf d w = (r, w1) -> fs w1 = fs w /\ trace w1 = trace w.
Proof.
  unfold prompt_for_path. destruct (prompt_for_path_lines pf d (stdin w)).
  intros [= _ <-]. split; reflexivity.
Qed.

Lemma ask_yes_no_same (d : option string) (w w1 : world) (r : result bool) :
  ask_yes_no d w = (r, w1) -> fs w1 = fs w /\ trace w1 = trace w.
Proof.
  unfold ask_yes_no. destruct (ask_yes_no_lines d (stdin w)).
  intros [= _ <-]. split; reflexivity.
Qed.

Lemma input_same (w w1 : world) (r : result string) :
  input w = (r, w1) -> fs w1 = fs w /\ trace w1 = trace w.
Proof.
  unfold input. destruct (stdin w); intros [= _ <-]; split; reflexivity.
Qed.

Lemma rmtree_ok_gone (pf : platform) (p : path) (w w' : world) :
  rmtree pf p w = (Ok tt, w') -> find (fs w') p = None.
Proof.
  intros E. unfold rmtree, bind, emit, gets, set_fs, raise in E.
  cbn [fs stdin dialogs trace] in E.
  destruct (find (fs w) p) as [[d|kids|x]|]; try discriminate E.
  destruct (prune (locked pf) p (Dir kids)); [discriminate E|].
  destruct (remove (fs w) p) as [t'|] eqn:Er; [|discriminate E].
  injection E as <-. exact (remove_gone _ _ _ Er).
Qed.

Lemma info_exists_inspect (root : node) (p : path) :
  info_exists (inspect root p) = exists_ root p.
Proof.
  unfold inspect. destruct (exists_ root p && is_dir root p); [|reflexivity].
  destruct (walk_counts root (walk_top root p)). reflexivity.
Qed.

(** X12: when the loop of [run_cli] that settles the target lets the run go
    on to the copy, nothing exists at the target: either nothing was there
    when it was inspected, or the user chose to overwrite and the deletion
    went through.  The copy never starts on top of an existing target. *)
Theorem choose_target_proceeds_on_absent (pf : platform) (s : path) (fuel : nat) :
  forall (w : world) (t : path) (w' : world),
    choose_target pf fuel s w = (Ok (Proceed t), w') ->
    exists_ (fs w') t = false.
Proof.
  induction fuel as [|fuel IH]; intros w t w' E; [discriminate E|].
  cbn [choose_target] in E. unfold bind at 1 in E.
  destruct (prompt_for_path pf _ w) as [[t0|e] w1] eqn:Ep; [|discriminate].
  unfold bind at 1 in E. unfold collect_dir_info, gets in E.
  rewrite info_exists_inspect in E.
  destruct (exists_ (fs w1) t0) eqn:Ex.
  - unfold bind at 1 in E.
    destruct (input w1) as [[line|e] w2] eqn:Ei; [|discriminate].
    destruct (String.eqb (strip line) "1"); [exact (IH _ _ _ E)|].
    destruct (String.eqb (strip line) "2").
    { unfold bind at 1 in E.
      destruct (ask_yes_no _ w2) as [[yes|e] w3] eqn:Ea; [|discriminate].
      destruct (negb yes); [exact (IH _ _ _ E)|].
      destruct (phase_call_cases _ _ _ _ _ _ _ _ _ E) as [(w4 & Er & Ek)|(e & _ & He)];
        [|discriminate He].
      injection Ek as <- <-. pose proof (rmtree_ok_gone _ _ _ _ Er) as Hg.
      unfold exists_, stat. rewrite Hg. reflexivity. }
    destruct (String.eqb (strip line) "3").
    { unfold bind at 1 in E.
      destruct (ask_yes_no _ w2) as [[yes|e] w3] eqn:Ea; [|discriminate].
      destruct (negb yes); [exact (IH _ _ _ E)|].
      unfold bind in E. destruct (cli_link_only pf s t0 w3) as [[o|e] w4]; discriminate. }
    destruct (String.eqb (strip line) "4"); [discriminate|].
    exact (IH _ _ _ E).
  - injection E as <- <-. exact Ex.
Qed.

Lemma choose_target_proceeds_on_absent_witness :
  exists_ (fs (snd (choose_target Demo.pf_plain 4 ["home"; "lm"]
                      (Demo.boot ["/d/old"; "2"; "y"] []))))
    ["d"; "old"] = false.
Proof.
  apply (choose_target_proceeds_on_absent Demo.pf_plain ["home"; "lm"] 4
           (Demo.boot ["/d/old"; "2"; "y"] [])).
  vm_compute. reflexivity.
Defined.

Lemma delete_directory_file (pf : platform) (p : path) (d : string) (w : world) :
  find (fs w) p = Some (File d) ->
  delete_directory pf p w
  = (Raise OSError, World (fs w) (stdin w) (dialogs w) (trace w ++ [EvRmtree p])).
Proof.
  intros H. unfold delete_directory, bind, gets. cbv beta.
  unfold exists_, stat. rewrite H. cbn [follow symloop_max negb].
  unfold rmtree, bind, emit, gets, raise. cbn [fs stdin dialogs trace]. rewrite H. reflexivity.
Qed.

(** X14: a source path that is a regular file is never relocated: the
    inspector only remarks that it is not a directory and the run goes on,
    the copy finds nothing to walk, and the deletion raises because
    [shutil.rmtree] refuses a file.  The run ends as a failed copy or a failed
    deletion, with the file still in place, when the source path is not the
    target or below it. *)
Theorem file_source_never_relocated (pf : platform) (s t : path) (d : string)
    (w : world) (o : outcome) (w' : world) :
  find (fs w) s = Some (File d) ->
  is_prefix t s = false ->
  cli_migrate pf s t w = (Ok o, w') \/ worker pf false false s t w = (Ok o, w') ->
  ((exists e, o = Failed PhCopy e \/ o = Crashed PhCopy e)
   \/ o = Failed PhDelete OSError \/ o = Crashed PhDelete OSError)
  /\ find (fs w') s = Some (File d).
Proof.
  intros Hf Ht Hrun.
  assert (H : forall (fail : phase -> exn -> outcome) (k : M outcome),
             phase_call fail PhCopy s t (copy_directory pf s t)
               (phase_call fail PhDelete s t (delete_directory pf s) k) w = (Ok o, w') ->
             ((exists e, o = fail PhCopy e) \/ o = fail PhDelete OSError)
             /\ find (fs w') s = Some (File d)).
  { intros fail k E.
    destruct (phase_call_cases _ _ _ _ _ _ _ _ _ E) as [(w1 & Ec & E1)|(e & Ec & He)].
    - destruct (mono_copy_directory pf s t _ _ _ Ec s _ Ht Hf) as (c' & Hc' & K).
      cbn in K. subst c'.
      destruct (phase_call_cases _ _ _ _ _ _ _ _ _ E1) as [(w2 & Ed & _)|(e & Ed & He)];
        rewrite (delete_directory_file pf s d (noted PhDelete s t w1) Hc') in Ed.
      + discriminate Ed.
      + injection Ed as <- <-. injection He as ->. split; [right; reflexivity | exact Hc'].
    - destruct (mono_copy_directory pf s t _ _ _ Ec s _ Ht Hf) as (c' & Hc' & K).
      cbn in K. subst c'. injection He as ->. split; [left; exists e; reflexivity | exact Hc']. }
  destruct Hrun as [E|E].
  - unfold cli_migrate in E. destruct (H _ _ E) as [[[e ->]| ->] Hs]; split; eauto.
  - unfold worker, bind, gets in E. cbn [andb] in E.
    destruct (H _ _ E) as [[[e ->]| ->] Hs]; split; eauto.
Qed.

Lemma file_source_never_relocated_witness :
  let r := cli_migrate Demo.pf_plain ["d"; "note"] ["d"; "t"] (Demo.boot [] []) in
  ((exists e, fst r = Ok (Failed PhCopy e) \/ fst r = Ok (Crashed PhCopy e))
   \/ fst r = Ok (Failed PhDelete OSError) \/ fst r = Ok (Crashed PhDelete OSError))
  /\ find (fs (snd r)) ["d"; "note"] = Some (File "x").
Proof.
  intros r.
  destruct (file_source_never_relocated Demo.pf_plain ["d"; "note"] ["d"; "t"] "x"
              (Demo.boot [] []) (Failed PhDelete OSError) (snd r)) as [_ H].
  - reflexivity.
  - reflexivity.
  - left. vm_compute. reflexivity.
  - split; [right; left; vm_compute; reflexivity | exact H].
Defined.

End RunMoreFacts.


(** ** Nothing destructive without a yes *)

Module SafetyFacts.
Import FS Sys Ops Cli Gui FSFacts TraceFacts CopyFacts RunFacts FallbackFacts InputFacts.

(** A line that does not say yes. *)
Definition nonyes (l : string) : Prop := str_in (lower (strip l)) yes_words = false.

(** The only event that is not part of a mutating phase: a [mkdir]. *)
Definition harmless (ev : event) : Prop :=
  match ev with
  | EvMkdir _ => True
  | _ => False
  end.

(** No line still to be read says yes, and nothing but [mkdir] was called. *)
Definition calm (w : world) : Prop :=
  Forall nonyes (stdin w) /\ Forall harmless (trace w).

Lemma calm_ret {A} (a : A) : pres calm (ret a).
Proof. intros w r w' E H. injection E as <- <-. exact H. Qed.

Lemma calm_raise {A} (e : exn) : pres calm (@raise A e).
Proof. intros w r w' E H. injection E as <- <-. exact H. Qed.

Lemma calm_gets {A} (f : world -> A) : pres calm (gets f).
Proof. intros w r w' E H. injection E as <- <-. exact H. Qed.

Lemma calm_bind_val {A B} (Q : A -> Prop) (m : M A) (k : A -> M B) :
  (forall w a w', m w = (Ok a, w') -> calm w -> Q a) ->
  pres calm m -> (forall a, Q a -> pres calm (k a)) -> pres calm (bind m k).
Proof.
  intros HQ Hm Hk w r w' E H. unfold bind in E.
  destruct (m w) as [[a|e] w1] eqn:Em.
  - exact (Hk a (HQ _ _ _ Em H) _ _ _ E (Hm _ _ _ Em H)).
  - injection E as <- <-. exact (Hm _ _ _ Em H).
Qed.

Lemma calm_bind {A B} (m : M A) (k : A -> M B) :
  pres calm m -> (forall a, pres calm (k a)) -> pres calm (bind m k).
Proof.
  intros Hm Hk. apply (calm_bind_val (fun _ => True)); auto.
Qed.

Lemma prompt_for_path_lines_suffix (pf : platform) (d : option path) (lines : list string) :
  forall r rest, prompt_for_path_lines pf d lines = (r, rest) ->
                 exists pre, lines = pre ++ rest.
Proof.
  induction lines as [|l lines IH]; intros r rest E; cbn [prompt_for_path_lines] in E.
  - injection E as _ <-. exists []. reflexivity.
  - destruct (if String.eqb (strip l) "" then d else None).
    + injection E as _ <-. exists [l]. reflexivity.
    + destruct (negb _).
      * injection E as _ <-. exists [l]. reflexivity.
      * destruct (IH _ _ E) as (pre & ->). exists (l :: pre). reflexivity.
Qed.

Lemma ask_yes_no_lines_suffix (d : option string) (lines : list string) :
  forall r rest, ask_yes_no_lines d lines = (r, rest) -> exists pre, lines = pre ++ rest.
Proof.
  induction lines as [|l lines IH]; intros r rest E; cbn [ask_yes_no_lines] in E.
  - injection E as _ <-. exists []. reflexivity.
  - assert (Hrec : ask_yes_no_lines d lines = (r, rest) -> exists pre, l :: lines = pre ++ rest).
    { intros E'. destruct (IH _ _ E') as (pre & ->). exists (l :: pre). reflexivity. }
    destruct d;
      repeat match type of E with
             | (if ?b then _ else _) = _ => destruct b
             end;
      try (injection E as _ <-; exists [l]; reflexivity);
      exact (Hrec E).
Qed.

Lemma calm_suffix (w : world) (pre rest : list string) (w1 : world) :
  stdin w = pre ++ rest -> stdin w1 = rest -> trace w1 = trace w -> calm w -> calm w1.
Proof.
  intros Hs H1 Ht [Hl He]. split.
  - rewrite H1. rewrite Hs in Hl. apply List.Forall_app in Hl. exact (proj2 Hl).
  - rewrite Ht. exact He.
Qed.

Lemma calm_prompt_for_path (pf : platform) (d : option path) : pres calm (prompt_for_path pf d).
Proof.
  intros w r w' E. unfold prompt_for_path in E.
  destruct (prompt_for_path_lines pf d (stdin w)) as [r0 rest] eqn:El.
  injection E as _ <-. destruct (prompt_for_path_lines_suffix _ _ _ _ _ El) as (pre & Hs).
  apply (calm_suffix w pre rest); [exact Hs | reflexivity | reflexivity].
Qed.

Lemma calm_ask_yes_no (d : option string) : pres calm (ask_yes_no d).
Proof.
  intros w r w' E. unfold ask_yes_no in E.
  destruct (ask_yes_no_lines d (stdin w)) as [r0 rest] eqn:El.
  injection E as _ <-. destruct (ask_yes_no_lines_suffix _ _ _ _ El) as (pre & Hs).
  apply (calm_suffix w pre rest); [exact Hs | reflexivity | reflexivity].
Qed.

Lemma calm_input : pres calm input.
Proof.
  intros w r w' E. unfold input in E. destruct (stdin w) as [|l rest] eqn:Hs.
  - injection E as _ <-. auto.
  - injection E as _ <-. apply (calm_suffix w [l] rest); [exact Hs | reflexivity | reflexivity].
Qed.

Lemma calm_ensure_directory (p : path) : pres calm (ensure_directory p).
Proof.
  intros w r w' E [Hl He]. unfold ensure_directory, bind, emit, gets, set_fs, raise in E.
  cbn [fs stdin dialogs trace] in E.
  destruct (mkdir_p (fs w) p); injection E as _ <-; (split; [exact Hl|]); cbn;
    apply List.Forall_app; (split; [exact He | constructor; [exact I | constructor]]).
Qed.

(** In a calm world a question with the default "n" is not answered yes. *)
Lemma calm_declines (w : world) (a : bool) (w' : world) :
  ask_yes_no (Some "n") w = (Ok a, w') -> calm w -> a = false.
Proof.
  intros E [Hl _]. destruct a; [|reflexivity].
  unfold ask_yes_no in E.
  destruct (ask_yes_no_lines (Some "n") (stdin w)) as [r rest] eqn:El.
  injection E as -> _.
  destruct (ask_yes_no_lines_true _ _ _ El) as [(l & Hin & Hy)|(dd & l & Hd & Hy & _)].
  - rewrite List.Forall_forall in Hl. specialize (Hl _ Hin).
    unfold nonyes in Hl. unfold is_yes in Hy. congruence.
  - injection Hd as <-. vm_compute in Hy. discriminate.
Qed.

Lemma calm_choose_target (pf : platform) (s : path) (fuel : nat) :
  pres calm (choose_target pf fuel s).
Proof.
  induction fuel as [|fuel IH]; cbn [choose_target]; [apply calm_raise|].
  apply calm_bind; [apply calm_prompt_for_path|intros t].
  apply calm_bind; [apply calm_gets|intros ti].
  destruct (info_exists ti); [|apply calm_ret].
  apply calm_bind; [apply calm_input|intros line].
  assert (Hask : forall k : M decision,
             pres calm (do yes <- ask_yes_no (Some "n");
                        if negb yes then choose_target pf fuel s else k)).
  { intros k. apply (calm_bind_val (fun yes => yes = false));
      [exact calm_declines | apply calm_ask_yes_no | intros yes ->; exact IH]. }
  destruct (String.eqb (strip line) "1"); [exact IH|].
  destruct (String.eqb (strip line) "2"); [apply Hask|].
  destruct (String.eqb (strip line) "3"); [apply Hask|].
  destruct (String.eqb (strip line) "4"); [apply calm_ret | exact IH].
Qed.

Lemma calm_run_cli (pf : platform) : pres calm (run_cli pf).
Proof.
  unfold run_cli.
  apply calm_bind; [unfold ensure_windows; destruct (is_windows pf);
                    [apply calm_ret | apply calm_raise]|intros _].
  apply calm_bind; [apply calm_prompt_for_path|intros s].
  apply calm_bind; [apply calm_gets|intros si].
  apply calm_bind.
  { destruct (negb (info_exists si)); [|apply calm_ret].
    apply calm_bind; [apply calm_ask_yes_no|intros yes].
    destruct yes; [|apply calm_ret].
    apply calm_bind; [apply calm_ensure_directory|intros _].
    apply calm_bind; [apply calm_gets|intros i]. apply calm_ret. }
  intros [si'|]; [|apply calm_ret].
  apply calm_bind.
  { destruct (_ && _); [apply calm_ask_yes_no | apply calm_ret]. }
  intros go. destruct (negb go); [apply calm_ret|].
  apply calm_bind; [apply calm_gets|intros n].
  apply calm_bind; [apply calm_choose_target|intros [t|o]]; [|apply calm_ret].
  apply (calm_bind_val (fun yes => yes = false));
    [exact calm_declines | apply calm_ask_yes_no | intros yes ->; apply calm_ret].
Qed.

(** X15: when no line of the input says yes (one of "y", "yes" and the
    Chinese words for it, trimmed, in any letter case), [run_cli] calls
    nothing but [mkdir]: no robocopy, no file copy, no [rmtree], no [mklink],
    and no mutating phase is entered, whatever else is typed. *)
Theorem run_cli_needs_a_yes (pf : platform) (root : node) (lines : list string)
    (answers : list bool) (r : result outcome) (w' : world) :
  Forall (fun l => str_in (lower (strip l)) yes_words = false) lines ->
  run_cli pf (World root lines answers []) = (r, w') ->
  forall ev, In ev (trace w') -> exists p, ev = EvMkdir p.
Proof.
  intros Hl E ev Hin.
  destruct (calm_run_cli pf _ _ _ E) as [_ Ht].
  - split; [exact Hl | constructor].
  - rewrite List.Forall_forall in Ht. specialize (Ht _ Hin).
    destruct ev; try contradiction. eexists. reflexivity.
Qed.

Lemma run_cli_needs_a_yes_witness :
  Forall (fun ev => exists p, ev = EvMkdir p)
    (trace (snd (run_cli Demo.pf_plain
                   (Demo.boot ["/home/lm"; "/d/old"; "2"; "ok"; "3"; ""; "4"] [])))).
Proof.
  apply List.Forall_forall.
  apply (run_cli_needs_a_yes Demo.pf_plain Demo.disk
           ["/home/lm"; "/d/old"; "2"; "ok"; "3"; ""; "4"] []
           (fst (run_cli Demo.pf_plain
                   (Demo.boot ["/home/lm"; "/d/old"; "2"; "ok"; "3"; ""; "4"] [])))).
  - repeat constructor.
  - vm_compute. reflexivity.
Defined.

End SafetyFacts.


(** ** The form of the window *)

Module GuiFacts.
Import FS Sys Ops Cli Gui FSFacts TraceFacts CopyFacts RunFacts RunMoreFacts.

(** X16: with a target that exists and neither box ticked, [MoveApp._start]
    never starts the worker: it ends by the warning, by a declined question or
    by the platform check, and the most it has done by then is to create the
    missing source directory. *)
Theorem start_existing_target_rejected (pf : platform) (f : form) (root : node)
    (lines : list string) (answers : list bool) (r : result outcome) (w' : world) :
  exists_ root (resolve pf (target_var f)) = true ->
  overwrite_var f = false ->
  link_only_var f = false ->
  start pf f (World root lines answers []) = (r, w') ->
  (r = Ok Rejected \/ r = Ok Cancelled \/ r = Raise SystemExit)
  /\ (trace w' = [] \/ trace w' = [EvMkdir (resolve pf (source_var f))]).
Proof.
  intros Hex Hov Hlo E. unfold start in E. rewrite Hov, Hlo in E.
  unfold bind at 1 in E. unfold ensure_windows in E.
  destruct (is_windows pf); [|injection E as <- <-; auto].
  unfold ret at 1 in E.
  destruct (String.eqb (path_str (resolve pf (source_var f))) "");
    [injection E as <- <-; auto|].
  destruct (String.eqb (path_str (resolve pf (target_var f))) "");
    [injection E as <- <-; auto|].
  unfold collect_dir_info in E.
  unfold bind at 1 in E. unfold gets at 1 in E. cbn [fs] in E.
  unfold bind at 1 in E. unfold gets at 1 in E. cbn [fs] in E.
  rewrite !info_exists_inspect in E. rewrite Hex in E. cbn [negb andb] in E.
  set (s := resolve pf (source_var f)) in *.
  assert (Htail : forall (w1 : world) (si : dir_info),
             trace w1 = [] \/ trace w1 = [EvMkdir s] ->
             (do go <- (if info_is_dir si && is_empty si then askyesno else ret true);
              if negb go then ret Cancelled
              else
                do go0 <- ret (Some Rejected);
                match go0 with
                | Some o => ret o
                | None =>
                    do yes <- askyesno;
                    if negb yes then ret Cancelled
                    else worker pf false false s (resolve pf (target_var f))
                end) w1 = (r, w') ->
             (r = Ok Rejected \/ r = Ok Cancelled \/ r = Raise SystemExit)
             /\ (trace w' = [] \/ trace w' = [EvMkdir s])).
  { intros w1 si Ht Et. unfold bind, ret, askyesno in Et.
    destruct (info_is_dir si && is_empty si).
    - destruct (dialogs w1) as [|[|] rest]; cbn in Et; injection Et as <- <-; auto.
    - cbn in Et. injection Et as <- <-. auto. }
  destruct (exists_ root s) eqn:Es; cbn [negb] in E.
  - unfold bind at 1 in E. unfold ret at 1 in E.
    unfold bind at 1 in E. unfold ret at 1 in E.
    refine (Htail _ _ _ E). left. reflexivity.
  - unfold bind at 1 in E. unfold bind at 1 in E. unfold askyesno at 1 in E.
    cbn [dialogs] in E.
    destruct answers as [|[|] rest]; cbn [negb] in E;
      try (unfold ret in E; injection E as <- <-; auto).
    destruct (ensure_directory s _) as [[[]|e] w1] eqn:Em.
    + assert (Ht1 : trace w1 = [EvMkdir s]).
      { unfold ensure_directory, bind, emit, gets, set_fs, raise in Em.
        cbn [fs stdin dialogs trace] in Em.
        destruct (mkdir_p root s); [|discriminate]. injection Em as <-. reflexivity. }
      unfold bind at 1 in E. unfold gets at 1 in E.
      refine (Htail _ _ _ E). right. exact Ht1.
    + assert (Ht1 : trace w1 = [EvMkdir s]).
      { unfold ensure_directory, bind, emit, gets, set_fs, raise in Em.
        cbn [fs stdin dialogs trace] in Em.
        destruct (mkdir_p root s); [discriminate|]. injection Em as _ <-. reflexivity. }
      unfold ret in E. injection E as <- <-. auto.
Qed.

Lemma start_existing_target_rejected_witness :
  let r := start Demo.pf_plain (Form "/home/lm" "/d/old" false false)
             (Demo.boot [] [true; true]) in
  (fst r = Ok Rejected \/ fst r = Ok Cancelled \/ fst r = Raise SystemExit)
  /\ (trace (snd r) = []
      \/ trace (snd r) = [EvMkdir (resolve Demo.pf_plain "/home/lm")]).
Proof.
  apply (start_existing_target_rejected Demo.pf_plain (Form "/home/lm" "/d/old" false false)
           Demo.disk [] [true; true]).
  - reflexivity.
  - reflexivity.
  - reflexivity.
  - vm_compute. reflexivity.
Defined.

(** [MoveApp._sync_option_states], the handler of the two check boxes:
    ticking "link only" clears "overwrite". *)
Definition sync_option_states (f : form) : form :=
  if link_only_var f then Form (source_var f) (target_var f) false true else f.

(** X17: once "link only" is ticked the overwrite box has no effect on what
    [MoveApp._start] does, whether or not the handler has cleared it: the run
    on the form as the handler leaves it is the run on the form as it was,
    and the handler never leaves both boxes ticked. *)
Theorem sync_option_states_harmless (pf : platform) (f : form) (w : world) :
  start pf (sync_option_states f) w = start pf f w
  /\ link_only_var (sync_option_states f) && overwrite_var (sync_option_states f) = false.
Proof.
  destruct f as [sv tv [|] [|]]; split; reflexivity.
Qed.

End GuiFacts.

(** ** More on sizes and reports *)

Module ReportFacts.
Import Fmt FS Sys Ops Cli Gui FSFacts.

Lemma append_assoc (a b c : string) : (a +:+ b) +:+ c = a +:+ (b +:+ c).
Proof.
  induction a as [|x a IH]; [reflexivity|].
  change (String x ((a +:+ b) +:+ c) = String x (a +:+ (b +:+ c))).
  rewrite IH. reflexivity.
Qed.

(** X18: a byte count below 1024 is printed exactly, as the number followed
    by ".00 B": no scaling and no rounding happens below one kilobyte. *)
Theorem format_bytes_below_1024 (n : Z) :
  (0 <= n < 1024)%Z -> format_bytes n = pretty n +:+ ".00 B".
Proof.
  intros Hn. unfold format_bytes.
  rewrite FmtFacts.float_of_int_exact
    by (rewrite Z.abs_eq by lia; assert (1024 < 2 ^ 53)%Z by reflexivity; lia).
  cbn [units format_loop]. unfold amount_lt_1024. cbn [num den].
  replace (n <? 1024 * 1)%Z with true by (symmetry; apply Z.ltb_lt; lia).
  unfold fmt2, round_half_even. cbn [num den].
  rewrite Z.abs_eq by lia. rewrite Z.div_1_r, Z.mod_1_r.
  change (2 * 0 <? 1)%Z with true. cbv iota.
  replace (n <? 0)%Z with false by (symmetry; apply Z.ltb_ge; lia).
  replace (100 * n / 100)%Z with n by (rewrite Z.mul_comm, Z.div_mul; lia).
  replace (100 * n mod 100)%Z with 0%Z by (rewrite Z.mul_comm, Z.mod_mul; lia).
  change (two_digits 0) with "00".
  change ("" +:+ pretty n +:+ "." +:+ "00") with (pretty n +:+ ".00").
  rewrite append_assoc. reflexivity.
Qed.

Lemma format_bytes_below_1024_witness : format_bytes 1023 = pretty 1023%Z +:+ ".00 B".
Proof. apply (format_bytes_below_1024 1023). lia. Defined.

(** X19: a link to a directory, symbolic link or junction, is transparent to
    the inspector: the report for a path that holds a link to a real
    directory is the report for that directory, counts and total size
    included. *)
Theorem inspect_through_link (root : node) (s t : path) (k : link_kind) (kids : kids_t) :
  find root s = Some (Link t k) ->
  find root t = Some (Dir kids) ->
  inspect root s = inspect root t.
Proof.
  intros Hs Ht.
  assert (E : stat root s = stat root t).
  { unfold stat. rewrite Hs, Ht. change symloop_max with (S 39).
    change (follow (S 39) root (Link t k))
      with (match find root t with Some c => follow 39 root c | None => None end).
    rewrite Ht. reflexivity. }
  unfold inspect, exists_, is_dir, walk_dir_size, walk_top. rewrite E. reflexivity.
Qed.

Lemma inspect_through_link_witness :
  let root := fs (snd (cli_migrate Demo.pf_plain ["home"; "lm"] ["d"; "t"] (Demo.boot [] []))) in
  inspect root ["home"; "lm"] = inspect root ["d"; "t"].
Proof.
  intros root.
  apply (inspect_through_link root ["home"; "lm"] ["d"; "t"] Junction
           [("a.bin", File "abc"); ("sub", Dir [("b", File "12345")])]);
    vm_compute; reflexivity.
Defined.

End ReportFacts.


(** ** What a copied file holds *)

Module ContentFacts.
Import FS Sys Ops Cli Gui FSFacts TraceFacts CopyFacts FallbackFacts.

(** Every [copy2] recorded since [w0] has left its destination reading what
    its source reads. *)
Definition copied_alike (w0 w : world) : Prop :=
  forall a b, In (EvCopy2 a b) (trace w) ->
              In (EvCopy2 a b) (trace w0)
              \/ exists d, stat (fs w) a = Some (File d) /\ stat (fs w) b = Some (File d).

(** [m] keeps [I] on the runs in which it returns. *)
Definition pres_ok (I : world -> Prop) {A} (m : M A) : Prop :=
  forall w a w', m w = (Ok a, w') -> I w -> I w'.

Lemma keeps_stat_file (a b : node) (p : path) (d : string) :
  keeps a b -> stat a p = Some (File d) -> stat b p = Some (File d).
Proof.
  intros Hk Hs. destruct (keeps_stat _ _ _ _ Hk Hs) as (r' & Hr & K).
  cbn in K. subst r'. exact Hr.
Qed.

Lemma copied_alike_keeps (w0 w w' : world) :
  keeps (fs w) (fs w') -> trace w' = trace w -> copied_alike w0 w -> copied_alike w0 w'.
Proof.
  intros Hk Ht H a b Hin. rewrite Ht in Hin.
  destruct (H a b Hin) as [Hold|(d & Ha & Hb)]; [left; exact Hold|].
  right. exists d. split; eapply keeps_stat_file; eassumption.
Qed.

Section Alike.
Variable w0 : world.

Lemma alike_ret {A} (a : A) : pres_ok (copied_alike w0) (ret a).
Proof. intros w x w' E H. injection E as _ <-. exact H. Qed.

Lemma alike_bind {A B} (m : M A) (k : A -> M B) :
  pres_ok (copied_alike w0) m -> (forall a, pres_ok (copied_alike w0) (k a)) ->
  pres_ok (copied_alike w0) (bind m k).
Proof.
  intros Hm Hk w b w' E H. unfold bind in E.
  destruct (m w) as [[a|e] w1] eqn:Em; [|discriminate].
  exact (Hk a _ _ _ E (Hm _ _ _ Em H)).
Qed.

Lemma alike_ensure_directory (p : path) : pres_ok (copied_alike w0) (ensure_directory p).
Proof.
  intros w [] w' E H a b Hin.
  pose proof (mono_ensure_directory (fun _ => True) p _ _ _ E) as Hk.
  unfold ensure_directory, bind, emit, gets, set_fs, raise in E.
  cbn [fs stdin dialogs trace] in E.
  destruct (mkdir_p (fs w) p) as [t'|]; [|discriminate]. injection E as <-.
  cbn [fs trace] in *.
  apply in_app_or in Hin as [Hin|[Hin|[]]]; [|discriminate Hin].
  destruct (H a b Hin) as [Hold|(d & Ha & Hb)]; [left; exact Hold|].
  right. exists d. split; eapply keeps_stat_file; eassumption.
Qed.

Lemma alike_copy_if_absent (a b : path) : pres_ok (copied_alike w0) (copy_if_absent a b).
Proof.
  intros w [] w' E H.
  pose proof (mono_copy_if_absent (fun _ => True) a b _ _ _ E) as Hk.
  unfold copy_if_absent, bind, gets in E.
  destruct (exists_ (fs w) b) eqn:Ex.
  { injection E as <-. exact H. }
  unfold copy2, bind, emit, gets, set_fs, raise in E.
  cbn [fs stdin dialogs trace] in E.
  destruct (stat (fs w) a) as [[data|kids|x]|] eqn:Ea;
    destruct (write_target symloop_max (fs w) b) as [dest|] eqn:Ew;
    try (destruct (put (fs w) dest (File data)) as [t'|] eqn:Ep);
    try discriminate E.
  injection E as <-. cbn [fs] in Hk.
  intros a' b' Hin. cbn [trace fs] in *.
  apply in_app_or in Hin as [Hin|[Hin|[]]].
  - destruct (H a' b' Hin) as [Hold|(d & Ha & Hb)]; [left; exact Hold|].
    right. exists d. split; eapply keeps_stat_file; eassumption.
  - injection Hin as <- <-. right. exists data. split.
    + exact (keeps_stat_file _ _ _ _ Hk Ea).
    + exact (write_target_lands (fs w) t' data dest symloop_max Hk
               (LinkFacts.find_put_same _ _ _ _ Ep) b Ew).
Qed.

Lemma alike_copy_files (root0 : node) (src dst : path) (l : kids_t) :
  pres_ok (copied_alike w0) (copy_files root0 src dst l).
Proof.
  induction l as [|[n c] l IH]; cbn [copy_files]; [apply alike_ret|].
  destruct (entry_is_dir root0 c); [exact IH|].
  apply alike_bind; [apply alike_copy_if_absent | intros _; exact IH].
Qed.

Lemma alike_copy_walk (root0 : node) (t : node) :
  forall src dst, pres_ok (copied_alike w0) (copy_walk root0 src dst t).
Proof.
  induction t as [d|x|kids IH] using node_ind_nested; intros src dst;
    cbn [copy_walk]; try apply alike_ret.
  apply alike_bind; [apply alike_ensure_directory|intros _].
  apply alike_bind; [apply alike_copy_files|intros _].
  induction IH as [|[n c] l Hc _ IHl]; [apply alike_ret|].
  destruct c; try exact IHl.
  apply alike_bind; [apply Hc | intros _; exact IHl].
Qed.

End Alike.

(** X20: after a manual copy that went through, every file it copied reads
    at its destination what it reads at its source: for each [copy2] the
    copy made, source and destination are files with the same contents. *)
Theorem fallback_copy_contents (s t : path) (w w' : world) (a b : path) :
  fallback_copy s t w = (Ok tt, w') ->
  In (EvCopy2 a b) (trace w') ->
  ~ In (EvCopy2 a b) (trace w) ->
  exists d, stat (fs w') a = Some (File d) /\ stat (fs w') b = Some (File d).
Proof.
  intros E Hin Hnew.
  unfold fallback_copy, bind, emit, gets in E. cbn [fs stdin dialogs trace] in E.
  assert (H0 : copied_alike w
                 (World (fs w) (stdin w) (dialogs w) (trace w ++ [EvFallback s t]))).
  { intros a' b' Hi. cbn in Hi. apply in_app_or in Hi as [Hi|[Hi|[]]];
      [left; exact Hi | discriminate Hi]. }
  destruct (alike_copy_walk w _ _ _ _ _ _ _ E H0 a b Hin) as [Hold|H]; [|exact H].
  destruct (Hnew Hold).
Qed.

Lemma fallback_copy_contents_witness :
  let w' := snd (fallback_copy ["home"; "lm"] ["d"; "t"] (Demo.boot [] [])) in
  exists d, stat (fs w') ["home"; "lm"; "sub"; "b"] = Some (File d)
            /\ stat (fs w') ["d"; "t"; "sub"; "b"] = Some (File d).
Proof.
  apply (fallback_copy_contents ["home"; "lm"] ["d"; "t"] (Demo.boot [] [])).
  - vm_compute. reflexivity.
  - vm_compute. auto 10.
  - intros [].
Defined.

End ContentFacts.


(** ** Declining to create the source *)

Module DeclineFacts.
Import FS Sys Ops Cli Gui FSFacts TraceFacts RunMoreFacts InputFacts.

Lemma no_word_declines (a : string) :
  str_in a no_words = true -> String.eqb a "" = false /\ str_in a yes_words = false.
Proof.
  unfold str_in, no_words. cbn [existsb]. intros H.
  repeat match type of H with
         | (String.eqb a ?x || _) = true =>
             let E := fresh "E" in
             destruct (String.eqb a x) eqn:E;
             [apply String.eqb_eq in E; subst a; split; reflexivity | cbn [orb] in H]
         end.
  discriminate H.
Qed.

(** X21: with a source that does not exist and an answer of no to "create it
    and go on?", both front ends end as cancelled having changed nothing: the
    filesystem and the record of calls are as they were, [run_cli] has read
    exactly the two lines and the window has shown exactly the one dialog. *)
Theorem declined_creation_changes_nothing (pf : platform) (f : form) (root : node)
    (l1 l2 : string) (rest : list string) (answers : list bool) (tr : list event) :
  is_windows pf = true ->
  String.eqb (strip l1) "" = false ->
  exists_ root (resolve pf (strip l1)) = false ->
  str_in (lower (strip l2)) no_words = true ->
  run_cli pf (World root (l1 :: l2 :: rest) answers tr)
  = (Ok Cancelled, World root rest answers tr)
  /\ (exists_ root (resolve pf (source_var f)) = false ->
      start pf f (World root rest (false :: answers) tr)
      = (Ok Cancelled, World root rest answers tr)).
Proof.
  intros Hw Hl1 Hex Hno. destruct (no_word_declines _ Hno) as [Hne Hny]. split.
  - unfold run_cli. unfold bind at 1. unfold ensure_windows. rewrite Hw. unfold ret at 1.
    unfold bind at 1. rewrite prompt_for_path_cons. rewrite Hl1.
    unfold bind at 1. unfold collect_dir_info. unfold gets at 1. cbn [fs].
    rewrite info_exists_inspect, Hex. cbn [negb].
    unfold bind at 1. unfold bind at 1.
    unfold ask_yes_no at 1. cbn [stdin ask_yes_no_lines]. rewrite Hne, Hny, Hno.
    reflexivity.
  - intros Hs. unfold start. unfold bind at 1. unfold ensure_windows. rewrite Hw.
    unfold ret at 1. rewrite !path_str_not_empty.
    unfold collect_dir_info.
    unfold bind at 1. unfold gets at 1. cbn [fs].
    unfold bind at 1. unfold gets at 1. cbn [fs].
    rewrite info_exists_inspect, Hs. cbn [negb].
    reflexivity.
Qed.

Lemma declined_creation_changes_nothing_witness :
  run_cli Demo.pf_plain (Demo.boot ["/d/new"; " No "; "more"] [])
  = (Ok Cancelled, Demo.boot ["more"] []).
Proof.
  apply (declined_creation_changes_nothing Demo.pf_plain (Form "" "" false false)
           Demo.disk "/d/new" " No " ["more"] [] []); reflexivity.
Defined.

End DeclineFacts.
